(** * nanoclaw: orchestration core, shallow embedding

    The development follows the Python sources module by module:
    - [Py]               the built-ins the sources rely on ([int], [strip],
                         [len], [in], [split])
    - [GroupQueue]       src/nanoclaw/group_queue.py, with the event loop it
                         runs on
    - [ContainerRunner]  src/nanoclaw/container_runner.py (output reader)
    - [Ipc]              src/nanoclaw/ipc.py, db.py and task_scheduler.py
                         (the scheduled-task table and the code that writes it)
    - [MountSecurity]    src/nanoclaw/mount_security.py
    - [Router]           src/nanoclaw/router.py ([escape_xml])
    - [Main]             src/nanoclaw/__main__.py ([_process_group_messages],
                         [_run_agent] and [_get_available_groups])
    The modules hold the definitions; the properties follow, one section
    per module.

    Python objects that are mutated in place (the per-group state held in
    [GroupQueue._groups], the rows of the task table) are modelled by a
    finite map from their key to the current value; every method takes the
    store and returns the new one.  [asyncio.create_task] does not run
    anything: it puts a coroutine on the loop's ready queue, so every method
    also returns the list of coroutines it created.

    What lies outside the sources is a parameter of the model: [json.loads],
    croniter, [datetime.fromisoformat], the decoding of the bytes of a line,
    [int] on text beyond ASCII, the file system, and what the other
    coroutines of the program write while a coroutine is suspended.  Calls
    on the database and writes of snapshot files are taken to return
    normally. *)

From Stdlib Require Import ZArith QArith Lia List String Ascii Bool.
From stdpp Require Import base gmap strings list.

Close Scope Q_scope.
Open Scope string_scope.
Open Scope list_scope.
Open Scope Z_scope.

(* ===================================================================== *)
(** * Python built-ins the sources use *)
(* ===================================================================== *)

(** A [str] is held as the bytes of its UTF-8 encoding, in a [string] of
    8-bit characters.  Comparison, [in], [startswith], [split] and
    concatenation are the same on the bytes as on the code points.  The
    built-ins that go by code points ([len], [str.strip], [int]) look at the
    encoding. *)
Module Py.

Definition code (c : ascii) : nat := nat_of_ascii c.

(** [str.isspace] on an ASCII character: U+0009 to U+000D, U+001C to
    U+0020. *)
Definition is_space (c : ascii) : bool :=
  let n := code c in
  ((9 <=? n)%nat && (n <=? 13)%nat) || ((28 <=? n)%nat && (n <=? 32)%nat).

(** The other characters with [str.isspace], by their encoding: U+0085 and
    U+00A0 take two bytes; U+1680, U+2000 to U+200A, U+2028, U+2029,
    U+202F, U+205F and U+3000 take three. *)
Definition is_space2 (c1 c2 : ascii) : bool :=
  (code c1 =? 194)%nat && ((code c2 =? 133)%nat || (code c2 =? 160)%nat).

Definition is_space3 (c1 c2 c3 : ascii) : bool :=
  let n1 := code c1 in
  let n2 := code c2 in
  let n3 := code c3 in
  ((n1 =? 225)%nat && (n2 =? 154)%nat && (n3 =? 128)%nat)
  || ((n1 =? 226)%nat && (n2 =? 128)%nat
      && (((128 <=? n3)%nat && (n3 <=? 138)%nat)
          || (n3 =? 168)%nat || (n3 =? 169)%nat || (n3 =? 175)%nat))
  || ((n1 =? 226)%nat && (n2 =? 129)%nat && (n3 =? 159)%nat)
  || ((n1 =? 227)%nat && (n2 =? 128)%nat && (n3 =? 128)%nat).

(** [str.lstrip] *)
Fixpoint lstrip (s : string) : string :=
  match s with
  | String c1 r1 =>
      if is_space c1 then lstrip r1 else
      match r1 with
      | String c2 r2 =>
          if is_space2 c1 c2 then lstrip r2 else
          match r2 with
          | String c3 r3 => if is_space3 c1 c2 c3 then lstrip r3 else s
          | EmptyString => s
          end
      | EmptyString => s
      end
  | EmptyString => s
  end.

(** [not text.strip()]: the text is white space only. *)
Definition is_blank (text : string) : bool :=
  bool_decide (lstrip text = EmptyString).

(** The bytes 10xxxxxx continue a character; every other byte starts one. *)
Definition is_continuation (c : ascii) : bool :=
  (128 <=? code c)%nat && (code c <? 192)%nat.

(** [len]: the number of code points. *)
Definition len (text : string) : Z :=
  Z.of_nat (length (filter (fun c => is_continuation c = false)
                           (list_ascii_of_string text))).

Definition is_ascii (text : string) : bool :=
  forallb (fun c => (code c <? 128)%nat) (list_ascii_of_string text).

(** ** [int] on a string *)

Definition digit_of (c : ascii) : option Z :=
  let n := code c in
  if ((48 <=? n)%nat && (n <=? 57)%nat)%bool then Some (Z.of_nat n - 48) else None.

(** The white space [int] skips around an ASCII number ([Py_ISSPACE]):
    U+0009 to U+000D and the space.  U+001C to U+001F are not skipped. *)
Definition is_c_space (c : ascii) : bool :=
  let n := code c in
  ((9 <=? n)%nat && (n <=? 13)%nat) || (n =? 32)%nat.

Fixpoint skip_c_spaces (s : string) : string :=
  match s with
  | String c rest => if is_c_space c then skip_c_spaces rest else s
  | EmptyString => s
  end.

(** The digits of a number, with single underscores between them, and the
    white space after it; [after_digit]: the previous character was a
    digit. *)
Fixpoint digits (acc : Z) (after_digit : bool) (s : string) : option Z :=
  match s with
  | EmptyString => if after_digit then Some acc else None
  | String c rest =>
      match digit_of c with
      | Some d => digits (acc * 10 + d) true rest
      | None =>
          if bool_decide (c = "_"%char) then
            if after_digit then digits acc false rest else None
          else if after_digit && bool_decide (skip_c_spaces s = EmptyString)
          then Some acc else None
      end
  end.

(** [sys.get_int_max_str_digits()], which the sources leave at its
    default: a text with more decimal digits is refused. *)
Definition MAX_STR_DIGITS : nat := 4300.

Definition digit_count (s : string) : nat :=
  length (filter (fun c => is_Some (digit_of c)) (list_ascii_of_string s)).

(** [int] on ASCII text: white space, an optional sign, the digits, white
    space.  [None] stands for [ValueError]. *)
Definition int_ascii (s : string) : option Z :=
  if (MAX_STR_DIGITS <? digit_count s)%nat then None else
  match skip_c_spaces s with
  | String "-" rest => Z.opp <$> digits 0 false rest
  | String "+" rest => digits 0 false rest
  | t => digits 0 false t
  end.

(** [int]: on text with a character outside ASCII it goes by the Unicode
    database of the interpreter (the decimal digits and the white space of
    every script), which [int_beyond_ascii] stands for. *)
Definition py_int (int_beyond_ascii : string -> option Z) (s : string) : option Z :=
  if is_ascii s then int_ascii s else int_beyond_ascii s.

(** [pattern in text] *)
Fixpoint contains (pattern text : string) : bool :=
  String.prefix pattern text
  || match text with
     | String _ rest => contains pattern rest
     | EmptyString => false
     end.

(** [text.split(os.sep)] *)
Fixpoint split (sep : ascii) (text : string) : list string :=
  match text with
  | EmptyString => [EmptyString]
  | String c rest =>
      if bool_decide (c = sep) then EmptyString :: split sep rest
      else match split sep rest with
           | part :: parts => String c part :: parts
           | [] => [String c EmptyString]
           end
  end.

(** [pattern] occurs in [text] as a substring. *)
Definition occurs_in (pattern text : string) : Prop :=
  exists before after, text = (before ++ pattern ++ after)%string.

End Py.

(* ===================================================================== *)
(** * group_queue.py *)
(* ===================================================================== *)

Module GroupQueue.

Definition MAX_RETRIES : Z := 5.
Definition BASE_RETRY_SECONDS : Q := 5%Q.

(** [_QueuedTask]: the awaitable [fn] is opaque to the queue, which only
    ever calls it; a queued task is identified by [id]. *)
Record QueuedTask := mkQueuedTask { qt_id : string; qt_chat_id : string }.

(** [_GroupState] *)
Record GroupState := mkGroupState {
  active : bool;
  pending_messages : bool;
  pending_tasks : list QueuedTask;
  process : option nat;
  container_name : option string;
  group_folder : option string;
  retry_count : Z
}.

Definition new_GroupState : GroupState :=
  mkGroupState false false [] None None None 0.

Definition with_active (b : bool) (s : GroupState) : GroupState :=
  mkGroupState b (pending_messages s) (pending_tasks s) (process s)
               (container_name s) (group_folder s) (retry_count s).
Definition with_pending_messages (b : bool) (s : GroupState) : GroupState :=
  mkGroupState (active s) b (pending_tasks s) (process s)
               (container_name s) (group_folder s) (retry_count s).
Definition with_pending_tasks (l : list QueuedTask) (s : GroupState) : GroupState :=
  mkGroupState (active s) (pending_messages s) l (process s)
               (container_name s) (group_folder s) (retry_count s).
Definition with_retry_count (n : Z) (s : GroupState) : GroupState :=
  mkGroupState (active s) (pending_messages s) (pending_tasks s) (process s)
               (container_name s) (group_folder s) n.
Definition with_process (p : option nat) (cn fo : option string) (s : GroupState)
  : GroupState :=
  mkGroupState (active s) (pending_messages s) (pending_tasks s) p cn fo
               (retry_count s).

(** [GroupQueue]: the fields of the object.  [_process_messages_fn] is an
    opaque callback; the queue only tests whether it is set. *)
Record Queue := mkQueue {
  groups : gmap string GroupState;
  active_count : Z;
  waiting : list string;
  has_process_messages_fn : bool;
  shutting_down : bool
}.

Definition new_Queue : Queue := mkQueue ∅ 0 [] false false.

Definition with_groups (g : gmap string GroupState) (q : Queue) : Queue :=
  mkQueue g (active_count q) (waiting q) (has_process_messages_fn q) (shutting_down q).
Definition with_active_count (n : Z) (q : Queue) : Queue :=
  mkQueue (groups q) n (waiting q) (has_process_messages_fn q) (shutting_down q).
Definition with_waiting (w : list string) (q : Queue) : Queue :=
  mkQueue (groups q) (active_count q) w (has_process_messages_fn q) (shutting_down q).
Definition with_fn (b : bool) (q : Queue) : Queue :=
  mkQueue (groups q) (active_count q) (waiting q) b (shutting_down q).
Definition with_shutting_down (b : bool) (q : Queue) : Queue :=
  mkQueue (groups q) (active_count q) (waiting q) (has_process_messages_fn q) b.

(** The coroutines the queue hands to [asyncio.create_task]. *)
Inductive coro :=
| RunForGroup (chat : string) (reason : string)   (* _run_for_group *)
| RunTask (chat : string) (task : QueuedTask)     (* _run_task *)
| Retry (chat : string) (delay : Q).              (* _schedule_retry._retry *)

(** A unit of work is a container run: a message check or a task. *)
Definition is_unit (c : coro) : bool :=
  match c with RunForGroup _ _ | RunTask _ _ => true | Retry _ _ => false end.

Definition coro_chat (c : coro) : string :=
  match c with RunForGroup g _ | RunTask g _ | Retry g _ => g end.

(** What the awaited callback of a message check reports. *)
Inductive outcome := Success | Failure | Raised.

(** [_get_group]: the state of [chat], created on first use. *)
Definition get_group (q : Queue) (chat : string) : GroupState * Queue :=
  match groups q !! chat with
  | Some st => (st, q)
  | None => (new_GroupState, with_groups (<[chat := new_GroupState]> (groups q)) q)
  end.

(** Assignment to a field of the state object of [chat]. *)
Definition put_group (q : Queue) (chat : string) (st : GroupState) : Queue :=
  with_groups (<[chat := st]> (groups q)) q.

Definition set_process_messages_fn (q : Queue) : Queue := with_fn true q.

Definition append_waiting (q : Queue) (chat : string) : Queue :=
  if bool_decide (chat ∈ waiting q) then q
  else with_waiting (waiting q ++ [chat]) q.

Section WithCap.

Variable MAX_CONCURRENT_CONTAINERS : Z.

Definition enqueue_message_check (q : Queue) (chat : string) : Queue * list coro :=
  if shutting_down q then (q, []) else
  let '(state, q) := get_group q chat in
  if active state then
    (put_group q chat (with_pending_messages true state), [])
  else if MAX_CONCURRENT_CONTAINERS <=? active_count q then
    let q := put_group q chat (with_pending_messages true state) in
    (append_waiting q chat, [])
  else (q, [RunForGroup chat "messages"]).

Definition enqueue_task (q : Queue) (chat task_id : string) : Queue * list coro :=
  if shutting_down q then (q, []) else
  let '(state, q) := get_group q chat in
  if existsb (fun t => bool_decide (qt_id t = task_id)) (pending_tasks state) then (q, [])
  else
  let task := mkQueuedTask task_id chat in
  if active state then
    (put_group q chat (with_pending_tasks (pending_tasks state ++ [task]) state), [])
  else if MAX_CONCURRENT_CONTAINERS <=? active_count q then
    let q := put_group q chat (with_pending_tasks (pending_tasks state ++ [task]) state) in
    (append_waiting q chat, [])
  else (q, [RunTask chat task]).

Definition register_process (q : Queue) (chat : string) (proc : nat)
    (cname : string) (folder : option string) : Queue :=
  let '(state, q) := get_group q chat in
  let fo := match folder with
            | Some f => if bool_decide (f = EmptyString) then group_folder state else Some f
            | None => group_folder state
            end in
  put_group q chat (with_process (Some proc) (Some cname) fo state).

(** [_schedule_retry] *)
Definition schedule_retry (q : Queue) (chat : string) : Queue * list coro :=
  let '(state, q) := get_group q chat in
  let rc := retry_count state + 1 in
  if MAX_RETRIES <? rc then
    (put_group q chat (with_retry_count 0 state), [])
  else
    let delay := (BASE_RETRY_SECONDS * inject_Z (2 ^ (rc - 1)))%Q in
    (put_group q chat (with_retry_count rc state), [Retry chat delay]).

(** [_drain_waiting]: the loop tests [_active_count], which the body never
    changes ([create_task] only queues the coroutine). *)
Fixpoint drain_waiting_loop (w : list string) (q : Queue) : Queue * list coro :=
  match w with
  | [] => (with_waiting [] q, [])
  | next_id :: rest =>
      if active_count q <? MAX_CONCURRENT_CONTAINERS then
        let q := with_waiting rest q in
        let '(state, q) := get_group q next_id in
        match pending_tasks state with
        | task :: tasks =>
            let q := put_group q next_id (with_pending_tasks tasks state) in
            let '(q', created) := drain_waiting_loop rest q in
            (q', RunTask next_id task :: created)
        | [] =>
            if pending_messages state then
              let '(q', created) := drain_waiting_loop rest q in
              (q', RunForGroup next_id "drain" :: created)
            else drain_waiting_loop rest q
        end
      else (with_waiting (next_id :: rest) q, [])
  end.

Definition drain_waiting (q : Queue) : Queue * list coro :=
  drain_waiting_loop (waiting q) q.

(** [_drain_group] *)
Definition drain_group (q : Queue) (chat : string) : Queue * list coro :=
  if shutting_down q then (q, []) else
  let '(state, q) := get_group q chat in
  match pending_tasks state with
  | task :: tasks =>
      (put_group q chat (with_pending_tasks tasks state), [RunTask chat task])
  | [] =>
      if pending_messages state then (q, [RunForGroup chat "drain"])
      else drain_waiting q
  end.

(** The [finally] block shared by [_run_for_group] and [_run_task]. *)
Definition finish (q : Queue) (chat : string) : Queue * list coro :=
  let '(state, q) := get_group q chat in
  let q := put_group q chat (with_process None None None (with_active false state)) in
  let q := with_active_count (active_count q - 1) q in
  drain_group q chat.

(** [_run_for_group] up to its [await]. *)
Definition run_for_group_begin (q : Queue) (chat : string) : Queue :=
  let '(state, q) := get_group q chat in
  let q := put_group q chat (with_pending_messages false (with_active true state)) in
  with_active_count (active_count q + 1) q.

(** [_run_for_group] from the point where the awaited callback has
    reported [o] to the end of the coroutine. *)
Definition run_for_group_resume (q : Queue) (chat : string) (o : outcome)
  : Queue * list coro :=
  let '(q, retries) :=
    match o with
    | Success =>
        let '(state, q) := get_group q chat in
        (put_group q chat (with_retry_count 0 state), [])
    | Failure | Raised => schedule_retry q chat
    end in
  let '(q, created) := finish q chat in
  (q, retries ++ created).

(** [_run_task] up to its [await], and after it. *)
Definition run_task_begin (q : Queue) (chat : string) : Queue :=
  let '(state, q) := get_group q chat in
  let q := put_group q chat (with_active true state) in
  with_active_count (active_count q + 1) q.

Definition run_task_resume (q : Queue) (chat : string) : Queue * list coro :=
  finish q chat.

(** [shutdown]: sets the flag; the rest only logs. *)
Definition shutdown (q : Queue) : Queue := with_shutting_down true q.

(** ** The event loop

    [ready] holds the coroutines that were created and have not run yet,
    oldest first; [suspended] holds those that are waiting in their
    [await] (a container run in progress, or a retry timer). *)
Record World := mkWorld {
  queue : Queue;
  ready : list coro;
  suspended : list coro
}.

Definition new_World : World := mkWorld (set_process_messages_fn new_Queue) [] [].

Inductive event :=
| CallEnqueueMessageCheck (chat : string)
| CallEnqueueTask (chat task_id : string)
| CallRegisterProcess (chat : string) (proc : nat) (cname : string) (folder : option string)
| CallShutdown
| LoopRunsNext                        (* the loop runs the oldest ready coroutine *)
| Resumes (i : nat) (o : outcome).    (* the await of the i-th suspended one ends *)

Definition remove_nth {A} (i : nat) (l : list A) : list A :=
  take i l ++ drop (S i) l.

Definition step (w : World) (e : event) : option World :=
  match e with
  | CallEnqueueMessageCheck chat =>
      let '(q, created) := enqueue_message_check (queue w) chat in
      Some (mkWorld q (ready w ++ created) (suspended w))
  | CallEnqueueTask chat task_id =>
      let '(q, created) := enqueue_task (queue w) chat task_id in
      Some (mkWorld q (ready w ++ created) (suspended w))
  | CallRegisterProcess chat proc cname folder =>
      Some (mkWorld (register_process (queue w) chat proc cname folder)
                    (ready w) (suspended w))
  | CallShutdown => Some (mkWorld (shutdown (queue w)) (ready w) (suspended w))
  | LoopRunsNext =>
      match ready w with
      | [] => None
      | RunForGroup chat reason :: rest =>
          let q := run_for_group_begin (queue w) chat in
          if has_process_messages_fn q then
            Some (mkWorld q rest (suspended w ++ [RunForGroup chat reason]))
          else
            (* no callback: the body has no await and runs to its end *)
            let '(q, created) := finish q chat in
            Some (mkWorld q (rest ++ created) (suspended w))
      | RunTask chat task :: rest =>
          Some (mkWorld (run_task_begin (queue w) chat) rest
                        (suspended w ++ [RunTask chat task]))
      | Retry chat delay :: rest =>
          Some (mkWorld (queue w) rest (suspended w ++ [Retry chat delay]))
      end
  | Resumes i o =>
      match suspended w !! i with
      | None => None
      | Some (RunForGroup chat _) =>
          let '(q, created) := run_for_group_resume (queue w) chat o in
          Some (mkWorld q (ready w ++ created) (remove_nth i (suspended w)))
      | Some (RunTask chat _) =>
          let '(q, created) := run_task_resume (queue w) chat in
          Some (mkWorld q (ready w ++ created) (remove_nth i (suspended w)))
      | Some (Retry chat _) =>
          (* the sleep is over *)
          let '(q, created) :=
            if shutting_down (queue w) then (queue w, [])
            else enqueue_message_check (queue w) chat in
          Some (mkWorld q (ready w ++ created) (remove_nth i (suspended w)))
      end
  end.

Fixpoint run (w : World) (es : list event) : option World :=
  match es with
  | [] => Some w
  | e :: es' => match step w e with Some w' => run w' es' | None => None end
  end.

(** The units of work in progress. *)
Definition active_units (w : World) : list coro :=
  filter (fun c => is_unit c = true) (suspended w).

Definition active_units_of (chat : string) (w : World) : list coro :=
  filter (fun c => coro_chat c = chat) (active_units w).

End WithCap.

(** ** Views of the store used in the statements *)

(** The state object [_get_group] would return for [chat]. *)
Definition state_of (q : Queue) (chat : string) : GroupState :=
  default new_GroupState (groups q !! chat).
Definition rc_of (q : Queue) (chat : string) : Z := retry_count (state_of q chat).
Definition tasks_of (q : Queue) (chat : string) : list QueuedTask :=
  pending_tasks (state_of q chat).

Definition retries (l : list coro) : list coro := filter (fun c => is_unit c = false) l.
Definition units (l : list coro) : list coro := filter (fun c => is_unit c = true) l.
Definition count_units (l : list coro) : Z := Z.of_nat (length (units l)).

(** The counter is the number of units of work in progress. *)
Definition accounted (w : World) : Prop :=
  active_count (queue w) = count_units (suspended w).

(** Several chats have new messages in one pass of the message loop
    ([_start_message_loop] calls [enqueue_message_check] for each of them
    without an [await] in between); then the loop runs the created tasks. *)
Definition burst : list event :=
  [CallEnqueueMessageCheck "g1"; CallEnqueueMessageCheck "g2"; CallEnqueueMessageCheck "g3";
   LoopRunsNext; LoopRunsNext; LoopRunsNext].

(** Every call is followed by the first step of what it created, so no
    call races a created task.  Two runs fill the cap of 2, two more groups
    wait, and the first run completes: [_drain_waiting] starts both waiting
    groups. *)
Definition slot_freed : list event :=
  [CallEnqueueMessageCheck "g1"; LoopRunsNext; CallEnqueueMessageCheck "g2"; LoopRunsNext;
   CallEnqueueMessageCheck "g3"; CallEnqueueMessageCheck "g4";
   Resumes 0 Success; LoopRunsNext; LoopRunsNext].

(** The scheduler finds two due jobs of one chat in a single poll
    ([start_scheduler_loop] calls [enqueue_task] in a plain [for] loop). *)
Definition two_due_tasks : list event :=
  [CallEnqueueTask "g1" "t1"; CallEnqueueTask "g1" "t2"; LoopRunsNext; LoopRunsNext].

(** A message check is running, a task and a message check are queued
    behind it, and [shutdown] is called. *)
Definition shutdown_with_backlog : list event :=
  [CallEnqueueMessageCheck "g1"; LoopRunsNext; CallEnqueueTask "g1" "t1";
   CallEnqueueMessageCheck "g1"; CallShutdown].

(** ** Prompt starts

    The schedules in which every coroutine the queue creates takes its first
    step before anything else calls into the queue. *)

(** The [active] flag of a group. *)
Definition act (q : Queue) (g : string) : bool := active (state_of q g).

(** The first step of a created coroutine, on the queue. *)
Definition start_one (q : Queue) (c : coro) : Queue :=
  match c with
  | RunForGroup g _ => run_for_group_begin q g
  | RunTask g _ => run_task_begin q g
  | Retry _ _ => q
  end.

Definition unit_chats (l : list coro) : list string := coro_chat <$> units l.

(** The number of units of work of [g] in a list of coroutines. *)
Definition cnt (g : string) (l : list coro) : nat :=
  length (filter (fun c => coro_chat c = g) (units l)).

Definition is_unit_of (g : string) (c : coro) : bool :=
  is_unit c && bool_decide (coro_chat c = g).

(** Nothing but pending work and process handles changed. *)
Definition same_book (q q' : Queue) : Prop :=
  (forall g, act q' g = act q g)
  /\ active_count q' = active_count q
  /\ shutting_down q' = shutting_down q
  /\ has_process_messages_fn q' = has_process_messages_fn q.

Section PromptStarts.

Variable cap : Z.

(** The loop runs everything that is ready. *)
Definition settle (w : World) : option World :=
  run cap w (replicate (length (ready w)) LoopRunsNext).

Definition prompt_step (w : World) (e : event) : option World :=
  match e with
  | LoopRunsNext => None
  | _ => match step cap w e with Some w' => settle w' | None => None end
  end.

Fixpoint prompt_run (w : World) (es : list event) : option World :=
  match es with
  | [] => Some w
  | e :: es' => match prompt_step w e with Some w' => prompt_run w' es' | None => None end
  end.

(** An event the loop can take. *)
Definition enabled (w : World) (e : event) : Prop :=
  match e with
  | LoopRunsNext => False
  | Resumes i _ => is_Some (suspended w !! i)
  | _ => True
  end.

(** What a drain leaves on the waiting list and which units it creates. *)
Definition drained (c : string) (q q' : Queue) (us : list coro) : Prop :=
  (us = [] /\ waiting q' = waiting q /\ shutting_down q = true)
  \/ (exists u, us = [u] /\ coro_chat u = c /\ waiting q' = waiting q)
  \/ ((coro_chat <$> us) `sublist_of` waiting q
      /\ (active_count q < cap -> waiting q' = [])
      /\ (cap <= active_count q -> waiting q' = waiting q /\ us = [])).

(** What a call of [enqueue_message_check] or [enqueue_task] for [c] does to
    the waiting list, and the unit it creates, if any. *)
Definition enqueued (c : string) (q q1 : Queue) (cr : list coro) : Prop :=
  same_book q q1
  /\ ((cr = [] /\ (waiting q1 = waiting q
                  \/ (shutting_down q = false /\ act q c = false /\ cap <= active_count q
                      /\ waiting q1 = (if bool_decide (c ∈ waiting q) then waiting q
                                       else waiting q ++ [c]))))
      \/ (exists u, cr = [u] /\ is_unit u = true /\ coro_chat u = c
                    /\ waiting q1 = waiting q /\ act q c = false
                    /\ active_count q < cap /\ shutting_down q = false)).

(** The invariant of prompt starts. *)
Record prompt_inv (w : World) : Prop := {
  pi_fn : has_process_messages_fn (queue w) = true;
  pi_ready : ready w = [];
  pi_units : forall g, cnt g (suspended w) = if act (queue w) g then 1%nat else 0%nat;
  pi_nodup : NoDup (waiting (queue w));
  pi_idle : forall g, g ∈ waiting (queue w) -> act (queue w) g = false;
  pi_full : shutting_down (queue w) = true \/ waiting (queue w) = []
            \/ cap <= active_count (queue w)
}.

End PromptStarts.

(** The delay of the retry after the [i+1]-th failure in a row. *)
Definition delay_of (i : Z) : Q := (BASE_RETRY_SECONDS * inject_Z (2 ^ i))%Q.

(** [n] message checks of one group in a row, all ending with [o]: the
    retries they create. *)
Fixpoint failures (cap : Z) (o : outcome) (n : nat) (q : Queue) (chat : string)
  : Queue * list coro :=
  match n with
  | O => (q, [])
  | S n' =>
      let '(q1, created) := run_for_group_resume cap (run_for_group_begin q chat) chat o in
      let '(q2, later) := failures cap o n' q1 chat in
      (q2, retries created ++ later)
  end.

(** The message check of g1 is in progress. *)
Definition running_g1 : World :=
  mkWorld (run_for_group_begin (set_process_messages_fn new_Queue) "g1") []
          [RunForGroup "g1" "messages"].

(** A queue in which group g1 is running a unit of work, with one task and
    a message check queued behind it. *)
Definition backlog_queue : Queue :=
  with_active_count 1
    (put_group (set_process_messages_fn new_Queue) "g1"
       (mkGroupState true true [mkQueuedTask "t1" "g1"] None None None 0)).

(** Nothing is running or waiting, and [chat] has no task queued. *)
Definition quiet (q : Queue) (chat : string) : Prop :=
  shutting_down q = false /\ has_process_messages_fn q = true
  /\ waiting q = [] /\ active_count q = 0
  /\ act q chat = false /\ tasks_of q chat = [].

(** Rounds of: the loop starts the message check that is ready, its
    callback ends with [o] (a failure), then the loop starts the retry that
    was scheduled (if any), which sleeps, and its sleep ends.  The result
    lists what each failure put on the ready queue. *)
Fixpoint failing_rounds (cap : Z) (o : outcome) (n : nat) (w : World)
  : option (World * list (list coro)) :=
  match n with
  | O => Some (w, [])
  | S n' =>
      match run cap w [LoopRunsNext; Resumes 0 o] with
      | None => None
      | Some w1 =>
          match ready w1 with
          | [] => Some (w1, [[]])
          | _ =>
              match run cap w1 [LoopRunsNext; Resumes 0 Success] with
              | None => None
              | Some w2 =>
                  match failing_rounds cap o n' w2 with
                  | None => None
                  | Some (w3, obs) => Some (w3, ready w1 :: obs)
                  end
              end
          end
      end
  end.

(** ** Follow-up messages *)

(** [send_message]: the file written under [ipc/<group_folder>/input], as
    the pair of the folder and the text, if one is written; [written] says
    whether the file system calls succeed (the [except] clause turns any
    failure into [False]).  [close_stdin] has the same guard. *)
Definition send_message (q : Queue) (chat text : string) (written : bool)
  : Queue * option (string * string) :=
  let '(state, q) := get_group q chat in
  if negb (active state) then (q, None) else
  match group_folder state with
  | None => (q, None)
  | Some folder =>
      if bool_decide (folder = EmptyString) then (q, None)
      else if written then (q, Some (folder, text)) else (q, None)
  end.

(** ** Views used in the invariants *)

(** The [pending_messages] flag of a group. *)
Definition pending_flag (q : Queue) (g : string) : bool := pending_messages (state_of q g).

(** The group has work that is waiting for a run. *)
Definition has_pending (q : Queue) (g : string) : Prop :=
  pending_flag q g = true \/ tasks_of q g <> [].

(** The units of work that are in progress or created and not yet started. *)
Definition in_flight (w : World) : Z :=
  count_units (ready w) + count_units (suspended w).

(** From [w] to [w'] no unit of work was created: what is ready in [w'] is
    what was ready in [w] and has not been started, followed by retry
    timers only; and the units in progress in [w'] were in progress or
    ready in [w]. *)
Definition no_unit_created (w w' : World) : Prop :=
  (exists started timers,
     ready w' = drop started (ready w) ++ timers /\ units timers = [])
  /\ (forall c, c ∈ units (suspended w') -> c ∈ suspended w \/ c ∈ ready w).

(** A group whose [active] flag is set has a unit of work in progress. *)
Definition active_has_run (w : World) : Prop :=
  forall g, act (queue w) g = true -> (0 < cnt g (suspended w))%nat.

(** Outside shutdown, a group with pending work is on the waiting list or
    has a unit of work created or in progress. *)
Definition pending_is_covered (w : World) : Prop :=
  shutting_down (queue w) = false ->
  forall g, has_pending (queue w) g ->
    g ∈ waiting (queue w) \/ (0 < cnt g (ready w ++ suspended w))%nat.

Definition unique_ids (q : Queue) : Prop :=
  forall g, NoDup (qt_id <$> tasks_of q g).

(** Groups only wait while the cap is filled by the runs in progress and
    the runs created and not yet started. *)
Definition at_capacity (cap : Z) (w : World) : Prop :=
  shutting_down (queue w) = true \/ waiting (queue w) = []
  \/ cap <= active_count (queue w) + count_units (ready w).

(** Two runs fill the cap of 2; a message check of g3 and a task of g4 have
    to wait, and g3 gets a second message. *)
Definition two_waiting : list event :=
  [CallEnqueueMessageCheck "g1"; LoopRunsNext; CallEnqueueMessageCheck "g2"; LoopRunsNext;
   CallEnqueueMessageCheck "g3"; CallEnqueueTask "g4" "t1"; CallEnqueueMessageCheck "g3"].

(** While g1 is running, the scheduler finds job t1 due in two polls, and
    then job t2. *)
Definition queued_twice : list event :=
  [CallEnqueueMessageCheck "g1"; LoopRunsNext; CallEnqueueTask "g1" "t1";
   CallEnqueueTask "g1" "t1"; CallEnqueueTask "g1" "t2"].

(** A run of g1 has started and its container has been registered. *)
Definition registered_run : list event :=
  [CallEnqueueMessageCheck "g1"; LoopRunsNext;
   CallRegisterProcess "g1" 0 "nanoclaw-main-0" (Some "main")].

End GroupQueue.

(* ===================================================================== *)
(** * container_runner.py: the output reader *)
(* ===================================================================== *)

Module ContainerRunner.

Definition OUTPUT_START : string := "===OUTPUT_START===".
Definition OUTPUT_END : string := "===OUTPUT_END===".

(** [types.ContainerOutput] *)
Record ContainerOutput := mkContainerOutput {
  status : string;
  result : option string;
  new_session_id : option string;
  error : option string
}.

Definition no_output_received : ContainerOutput :=
  mkContainerOutput "error" None None (Some "No output received").

(** Values [json.loads] can return.  A number keeps its text. *)
Unset Elimination Schemes.
Inductive json :=
| JNull
| JBool (b : bool)
| JNumber (text : string)
| JString (s : string)
| JArray (items : list json)
| JObject (items : list (string * json)).
Set Elimination Schemes.

(** [dict.get]: the items of a parsed object are those of a Python dict,
    one per key. *)
Fixpoint dict_get (key : string) (items : list (string * json)) : option json :=
  match items with
  | [] => None
  | (k, v) :: rest => if bool_decide (k = key) then Some v else dict_get key rest
  end.

(** Validation of a [str] field and of a [str | None] field by the model
    class; [None] is a validation error. *)
Definition str_field (v : json) : option string :=
  match v with JString s => Some s | _ => None end.

Definition optional_str_field (v : option json) : option (option string) :=
  match v with
  | None | Some JNull => Some None
  | Some (JString s) => Some (Some s)
  | Some _ => None
  end.

(** What the body of the [try] around a closed block does with the text
    between the markers. *)
Inductive decoded :=
| Envelope (o : ContainerOutput)  (* an envelope was built *)
| NotJson                         (* json.JSONDecodeError, caught and logged *)
| Crash.                          (* any other exception, not caught here *)

Definition newline : string := String "010"%char EmptyString.

(** ["\n".join(buffer)] *)
Definition join_lines (buffer : list string) : string := String.concat newline buffer.

(** [len(line)]: the code points of the line. *)
Definition len (line : string) : Z := Py.len line.


(** The state of the loop of [_read_container_output], with the envelopes
    handed to [on_output] so far, oldest first. *)
Record reader := mkReader {
  final : ContainerOutput;
  buffer : list string;
  in_output : bool;
  total_size : Z;
  delivered : list ContainerOutput
}.

Definition new_reader : reader := mkReader no_output_received [] false 0 [].

(** How a run of the reader ends. *)
Inductive ending :=
| Returned (final : ContainerOutput) (delivered : list ContainerOutput)
| Raised (delivered : list ContainerOutput).

(** The stream is the list of the lines the container writes, each given by
    its bytes without the line end.  The process is created without
    [limit], so its [StreamReader] has asyncio's default limit of 64 KiB. *)
Definition READLINE_LIMIT : Z := 65536.

Definition within_limit (raw : string) : Prop :=
  Z.of_nat (String.length raw) <= READLINE_LIMIT.

(** [readline] on the next line of the stream: its bytes, or [None] for the
    [ValueError] raised on a line that is longer than the limit. *)
Definition readline (raw : string) : option string :=
  if READLINE_LIMIT <? Z.of_nat (String.length raw) then None else Some raw.

Section Reader.

(** [json.loads]; [None] stands for [json.JSONDecodeError]. *)
Variable json_loads : string -> option json.
(** [line_bytes.decode("utf-8", errors="replace").rstrip("\n")]: the text
    of a line that was read.  Well-formed bytes are the text already; each
    ill-formed sequence becomes U+FFFD. *)
Variable utf8 : string -> string.
Variable CONTAINER_MAX_OUTPUT_SIZE : Z.
(** Whether the caller passed an [on_output] callback.  The callback is
    taken to return normally. *)
Variable on_output : bool.

Definition decode (raw : string) : decoded :=
  match json_loads raw with
  | None => NotJson
  | Some (JObject items) =>
      (* parsed.get("status", "success") and the three plain gets *)
      match str_field (default (JString "success") (dict_get "status" items)),
            optional_str_field (dict_get "result" items),
            optional_str_field (dict_get "newSessionId" items),
            optional_str_field (dict_get "error" items) with
      | Some st, Some res, Some sid, Some err =>
          Envelope (mkContainerOutput st res sid err)
      | _, _, _, _ => Crash          (* pydantic ValidationError *)
      end
  | Some _ => Crash                  (* AttributeError: no [get] *)
  end.

(** The body of the [while] loop on the text of a line that was read;
    [None] when an exception leaves the loop. *)
Definition read_line (r : reader) (line : string) : option reader :=
  if bool_decide (line = OUTPUT_START) then
    Some (mkReader (final r) [] true (total_size r) (delivered r))
  else if bool_decide (line = OUTPUT_END) && in_output r then
    match decode (join_lines (buffer r)) with
    | Envelope output =>
        Some (mkReader output (buffer r) false (total_size r)
                       (if on_output then delivered r ++ [output] else delivered r))
    | NotJson => Some (mkReader (final r) (buffer r) false (total_size r) (delivered r))
    | Crash => None
    end
  else if in_output r then
    let total := total_size r + len line in
    if CONTAINER_MAX_OUTPUT_SIZE <? total then
      Some (mkReader (final r) (buffer r) false total (delivered r))
    else
      Some (mkReader (final r) (buffer r ++ [line]) true total (delivered r))
  else Some r.

(** The loop over the lines of the stream, up to end of file.  Nothing
    catches the exception of [readline] or of the body. *)
Fixpoint read_lines (r : reader) (stream : list string) : ending :=
  match stream with
  | [] => Returned (final r) (delivered r)
  | raw :: rest =>
      match readline raw with
      | None => Raised (delivered r)
      | Some line_bytes =>
          match read_line r (utf8 line_bytes) with
          | Some r' => read_lines r' rest
          | None => Raised (delivered r)
          end
      end
  end.

Definition read_container_output (stream : list string) : ending :=
  read_lines new_reader stream.

(** The texts of the lines of a stream. *)
Definition texts (stream : list string) : list string := map utf8 stream.

(** The loop on the texts of lines that were all read: what [read_lines]
    does on a stream without a line over the limit. *)
Fixpoint read_texts (r : reader) (lines : list string) : ending :=
  match lines with
  | [] => Returned (final r) (delivered r)
  | line :: rest =>
      match read_line r line with
      | Some r' => read_texts r' rest
      | None => Raised (delivered r)
      end
  end.

(** ** The stream as the protocol describes it

    A second reading of the texts of the lines, from the description of the
    protocol rather than from the loop: noise, blocks delimited by a begin
    and an end marker, and markers without a partner. *)

Definition is_marker (line : string) : Prop := line = OUTPUT_START \/ line = OUTPUT_END.

Inductive stream_blocks : list string -> list (list string) -> Prop :=
| sb_end : stream_blocks [] []
| sb_noise line rest bs :
    (* a line outside any block, a stray end marker included *)
    line <> OUTPUT_START ->
    stream_blocks rest bs ->
    stream_blocks (line :: rest) bs
| sb_block content rest bs :
    Forall (fun l => ~ is_marker l) content ->
    stream_blocks rest bs ->
    stream_blocks (OUTPUT_START :: content ++ OUTPUT_END :: rest) (content :: bs)
| sb_unclosed content :
    (* a begin marker with no end marker before the end of the stream *)
    Forall (fun l => ~ is_marker l) content ->
    stream_blocks (OUTPUT_START :: content) []
| sb_restarted content rest bs :
    (* a begin marker followed by another begin marker *)
    Forall (fun l => ~ is_marker l) content ->
    stream_blocks (OUTPUT_START :: rest) bs ->
    stream_blocks (OUTPUT_START :: content ++ OUTPUT_START :: rest) bs.

(** The same reading as a function: [cur] holds the lines since the last
    begin marker, when a block is open. *)
Fixpoint scan (cur : option (list string)) (lines : list string) : list (list string) :=
  match lines with
  | [] => []
  | line :: rest =>
      if bool_decide (line = OUTPUT_START) then scan (Some []) rest
      else match cur with
           | Some content =>
               if bool_decide (line = OUTPUT_END) then content :: scan None rest
               else scan (Some (content ++ [line])) rest
           | None => scan None rest
           end
  end.


(** The envelopes of a list of blocks: those whose text decodes. *)
Fixpoint envelopes (bs : list (list string)) : list ContainerOutput :=
  match bs with
  | [] => []
  | b :: rest =>
      match decode (join_lines b) with
      | Envelope o => o :: envelopes rest
      | _ => envelopes rest
      end
  end.


(** What reaches the caller's callback, if there is one. *)
Definition forwarded (l : list ContainerOutput) : list ContainerOutput :=
  if on_output then l else [].

End Reader.

(** ** The outcome, block by block *)

Section BlockByBlock.
Variable json_loads : string -> option json.
Variable on_output : bool.

End BlockByBlock.

Definition sent_by (e : ending) : list ContainerOutput :=
  match e with Returned _ d | Raised d => d end.

(** The reader and the reading of the stream as blocks are at the same
    place: inside a block with the same content so far, or the reader is
    outside any block. *)
Definition in_step (r : reader) (cur : option (list string)) : Prop :=
  in_output r = true -> cur = Some (buffer r).

(** ** Sample data

    A stand-in for [json.loads] on the three texts the examples use, on
    which it answers what [json.loads] answers: the empty object, an error
    envelope and the empty array.  On every other text it answers as for
    text that is not JSON; the examples only feed it such text (plain
    words, or nothing at all). *)
Definition quote : string := String "034"%char EmptyString.
Definition quoted (s : string) : string := (quote ++ s ++ quote)%string.

(** The text  {"status": "error", "error": "boom"}  *)
Definition error_text : string :=
  ("{" ++ quoted "status" ++ ": " ++ quoted "error" ++ ", "
       ++ quoted "error" ++ ": " ++ quoted "boom" ++ "}")%string.

Definition sample_json_loads (raw : string) : option json :=
  if bool_decide (raw = "{}") then Some (JObject [])
  else if bool_decide (raw = error_text) then
    Some (JObject [("status", JString "error"); ("error", JString "boom")])
  else if bool_decide (raw = "[]") then Some (JArray [])
  else None.

(** The examples hold ASCII lines only, which are their own text. *)
Definition sample_utf8 (line_bytes : string) : string := line_bytes.

Definition success_envelope : ContainerOutput := mkContainerOutput "success" None None None.
Definition error_envelope : ContainerOutput := mkContainerOutput "error" None None (Some "boom").

(** Noise, three closed blocks (the second is not JSON), a stray end marker
    and a block that is never closed. *)
Definition mixed_stream : list string :=
  ["starting"; OUTPUT_START; "{}"; OUTPUT_END; OUTPUT_END; "log line";
   OUTPUT_START; "not json"; OUTPUT_END;
   OUTPUT_START; error_text; OUTPUT_END; OUTPUT_START; "tail"].

(** A line of one byte more than [readline] takes. *)
Definition long_line : string :=
  string_of_list_ascii (replicate (Z.to_nat READLINE_LIMIT + 1) "a"%char).

(** A block of twelve characters, then an empty object. *)
Definition long_then_short : list string :=
  [OUTPUT_START; "0123456789ab"; OUTPUT_END; OUTPUT_START; "{}"; OUTPUT_END].

End ContainerRunner.

(* ===================================================================== *)
(** * ipc.py, db.py, task_scheduler.py: the scheduled-task table *)
(* ===================================================================== *)

Module Ipc.
Import Py.

Definition MAIN_GROUP_FOLDER : string := "main".

(** [types.RegisteredGroup], without the container configuration, which the
    code below never reads. *)
Record RegisteredGroup := mkRegisteredGroup {
  name : string;
  folder : string;
  trigger : string;
  added_at : Z
}.

(** A row of the table [scheduled_tasks] ([types.ScheduledTask]).  Times are
    kept as milliseconds since the epoch; the table stores their ISO text. *)
Record ScheduledTask := mkScheduledTask {
  id : string;
  group_folder : string;
  chat_id : string;
  prompt : string;
  schedule_type : string;
  schedule_value : string;
  context_mode : string;
  next_run : option Z;
  status : string;
  created_at : Z;
  last_run : option Z;
  last_result : option string
}.

(** What the IPC handlers can change: the task table, the group registry,
    and the group snapshots written for [refresh_groups]. *)
Record state := mkState {
  tasks : gmap string ScheduledTask;
  registered_groups : gmap string RegisteredGroup;
  snapshots : list string
}.

Definition with_tasks (t : gmap string ScheduledTask) (s : state) : state :=
  mkState t (registered_groups s) (snapshots s).

(** The outcome of a handler: it returns, or an exception leaves it (the
    poller then moves the request file to the error directory). *)
Inductive outcome :=
| Done (s : state)
| Raises.

(** ** db.py *)

(** [create_task]: [id] is the primary key, so inserting an existing id
    raises. *)
Definition create_task (s : state) (task : ScheduledTask) : outcome :=
  match tasks s !! id task with
  | Some _ => Raises
  | None => Done (with_tasks (<[id task := task]> (tasks s)) s)
  end.

Definition get_task_by_id (s : state) (task_id : string) : option ScheduledTask :=
  tasks s !! task_id.

(** [update_task(task_id, status=...)] *)
Definition set_status (v : string) (t : ScheduledTask) : ScheduledTask :=
  mkScheduledTask (id t) (group_folder t) (chat_id t) (prompt t) (schedule_type t)
    (schedule_value t) (context_mode t) (next_run t) v (created_at t)
    (last_run t) (last_result t).

Definition update_task_status (s : state) (task_id status : string) : state :=
  with_tasks (alter (set_status status) task_id (tasks s)) s.

Definition delete_task (s : state) (task_id : string) : state :=
  with_tasks (delete task_id (tasks s)) s.

(** [update_task_after_run]: the [CASE] marks the row completed when the new
    [next_run] is null. *)
Definition after_run_row (nr : option Z) (now : Z) (res : string) (t : ScheduledTask)
  : ScheduledTask :=
  mkScheduledTask (id t) (group_folder t) (chat_id t) (prompt t) (schedule_type t)
    (schedule_value t) (context_mode t) nr
    (match nr with None => "completed" | Some _ => status t end)
    (created_at t) (Some now) (Some res).

Definition update_task_after_run (s : state) (task_id : string) (nr : option Z)
    (now : Z) (res : string) : state :=
  with_tasks (alter (after_run_row nr now res) task_id (tasks s)) s.

(** [get_due_tasks]'s condition on a row.  The table stores the ISO text
    of the times and the query compares the texts; the model compares the
    instants. *)
Definition is_due (now : Z) (t : ScheduledTask) : bool :=
  bool_decide (status t = "active")
  && match next_run t with Some nr => nr <=? now | None => false end.

(** [datetime.fromtimestamp(t, tz=utc)] raises outside the years 1 to 9999;
    in milliseconds since the epoch those are the times from
    0001-01-01T00:00:00 up to, not including, 10000-01-01T00:00:00. *)
Definition FIRST_TIME : Z := -62135596800000.
Definition END_OF_TIME : Z := 253402300800000.

Definition fromtimestamp (t : Z) : option Z :=
  if (FIRST_TIME <=? t) && (t <? END_OF_TIME) then Some t else None.

(** Truth value of [dict.get(key)] for string fields, and [a or b]. *)
Definition truthy (v : option string) : bool :=
  match v with
  | Some s => negb (bool_decide (s = EmptyString))
  | None => false
  end.

Definition py_or (a b : option string) : option string :=
  if truthy a then a else b.

(** How the calls on [deps] go during one request: [true] when the call
    returns, [false] when it raises.  (With the adapter of __main__.py,
    [get_available_groups] raises [TypeError] as soon as the table of chats
    has a row, see [Main.get_available_groups].) *)
Record deps_calls := mkDepsCalls {
  sync_group_metadata : bool;
  get_available_groups : bool;
  write_groups_snapshot : bool;
  register_group : bool
}.

Section Handlers.

(** [croniter(expr).get_next] from a start time; [None] when croniter
    rejects the expression. *)
Variable cron_next : string -> Z -> option Z.
(** [datetime.fromisoformat]; [None] for its [ValueError]. *)
Variable fromisoformat : string -> option Z.
(** [int] on text with a character outside ASCII ([Py.py_int]). *)
Variable int_beyond_ascii : string -> option Z.

Variable deps : deps_calls.

#[local] Abbreviation py_int := (Py.py_int int_beyond_ascii).

(** The three ways the computation of [next_run] in [process_task_ipc] can
    go. *)
Inductive schedule_check :=
| Rejected                       (* logged, the handler returns *)
| Fails                          (* an exception that is not caught *)
| NextRun (nr : option Z).

Definition check_schedule (schedule_type schedule_value : string) (now : Z)
  : schedule_check :=
  if bool_decide (schedule_type = "cron") then
    match cron_next schedule_value now with
    | Some t => NextRun (Some t)
    | None => Rejected
    end
  else if bool_decide (schedule_type = "interval") then
    match py_int schedule_value with
    | None => Fails
    | Some ms =>
        if ms <=? 0 then Rejected
        else match fromtimestamp (now + ms) with
             | Some t => NextRun (Some t)
             | None => Fails
             end
    end
  else if bool_decide (schedule_type = "once") then
    match fromisoformat schedule_value with
    | Some t => NextRun (Some t)
    | None => Rejected
    end
  else NextRun None.

Definition normal_context_mode (v : option string) : string :=
  match v with
  | Some m => if bool_decide (m = "group") || bool_decide (m = "isolated")
              then m else "isolated"
  | None => "isolated"
  end.

(** The [schedule_task] branch.  [data] is the parsed request, with the
    fields the handlers read as strings; [now] is the clock and [task_id] the
    id the handler builds from the clock and a random number. *)
Definition schedule_task (s : state) (data : gmap string string)
    (source_group : string) (is_main : bool) (now : Z) (task_id : string) : outcome :=
  let prompt := data !! "prompt" in
  let schedule_type := data !! "schedule_type" in
  let schedule_value := data !! "schedule_value" in
  let target_chat_id := py_or (data !! "targetChatId") (data !! "targetJid") in
  match prompt, schedule_type, schedule_value, target_chat_id with
  | Some p, Some ty, Some v, Some target =>
      if negb (truthy prompt && truthy schedule_type && truthy schedule_value
               && truthy target_chat_id) then Done s
      else
      match registered_groups s !! target with
      | None => Done s
      | Some target_group =>
          if negb is_main && negb (bool_decide (folder target_group = source_group))
          then Done s
          else
          match check_schedule ty v now with
          | Rejected => Done s
          | Fails => Raises
          | NextRun nr =>
              create_task s
                (mkScheduledTask task_id (folder target_group) target p ty v
                   (normal_context_mode (data !! "context_mode"))
                   nr "active" now None None)
          end
      end
  | _, _, _, _ => Done s
  end.

Definition may_touch (s : state) (task_id source_group : string) (is_main : bool) : bool :=
  match get_task_by_id s task_id with
  | Some task => is_main || bool_decide (group_folder task = source_group)
  | None => false
  end.

(** [process_task_ipc]; the fields of the request that the handlers read
    are strings. *)
Definition process_task_ipc (s : state) (data : gmap string string)
    (source_group : string) (is_main : bool) (now : Z) (task_id : string) : outcome :=
  let task_type := default EmptyString (data !! "type") in
  if bool_decide (task_type = "schedule_task") then
    schedule_task s data source_group is_main now task_id
  else if bool_decide (task_type = "pause_task") then
    match data !! "taskId" with
    | Some tid =>
        if truthy (Some tid) && may_touch s tid source_group is_main
        then Done (update_task_status s tid "paused") else Done s
    | None => Done s
    end
  else if bool_decide (task_type = "resume_task") then
    match data !! "taskId" with
    | Some tid =>
        if truthy (Some tid) && may_touch s tid source_group is_main
        then Done (update_task_status s tid "active") else Done s
    | None => Done s
    end
  else if bool_decide (task_type = "cancel_task") then
    match data !! "taskId" with
    | Some tid =>
        if truthy (Some tid) && may_touch s tid source_group is_main
        then Done (delete_task s tid) else Done s
    | None => Done s
    end
  else if bool_decide (task_type = "refresh_groups") then
    if is_main then
      if sync_group_metadata deps && get_available_groups deps
         && write_groups_snapshot deps
      then Done (mkState (tasks s) (registered_groups s) (snapshots s ++ [source_group]))
      else Raises
    else Done s
  else if bool_decide (task_type = "register_group") then
    if negb is_main then Done s else
    match py_or (data !! "chatId") (data !! "jid"),
          data !! "name", data !! "folder", data !! "trigger" with
    | Some c, Some n, Some f, Some t =>
        if truthy (Some c) && truthy (Some n) && truthy (Some f) && truthy (Some t)
        then
          if register_group deps
          then Done (mkState (tasks s)
                       (<[c := mkRegisteredGroup n f t now]> (registered_groups s))
                       (snapshots s))
          else Raises
        else Done s
    | _, _, _, _ => Done s
    end
  else Done s.

(** A request file found in the [tasks/] directory of the mailbox
    [source_group] ([_process_ipc_files]): the privilege comes from the
    directory name. *)
Definition process_task_file (s : state) (source_group : string)
    (data : gmap string string) (now : Z) (task_id : string) : outcome :=
  process_task_ipc s data source_group
    (bool_decide (source_group = MAIN_GROUP_FOLDER)) now task_id.

(** ** task_scheduler.py: the end of [_run_task] *)

(** "Calculate next run"; [None] when croniter or [int] raises. *)
Definition next_run_after (task : ScheduledTask) (now : Z) : option (option Z) :=
  if bool_decide (schedule_type task = "cron") then
    match cron_next (schedule_value task) now with
    | Some t => Some (Some t)
    | None => None
    end
  else if bool_decide (schedule_type task = "interval") then
    match py_int (schedule_value task) with
    | Some ms => Some <$> fromtimestamp (now + ms)
    | None => None
    end
  else Some None.

Definition finish_run (s : state) (task : ScheduledTask) (now : Z) (summary : string)
  : outcome :=
  match next_run_after task now with
  | Some nr => Done (update_task_after_run s (id task) nr now summary)
  | None => Raises
  end.

(** ** The tables reachable by creating tasks and running them *)

Definition empty_state (groups : gmap string RegisteredGroup) : state :=
  mkState ∅ groups [].

(** The valid schedule specifications: a value, not empty, that is a cron
    expression croniter accepts, a positive number of milliseconds (which
    keeps the next run within the calendar), or a timestamp [fromisoformat]
    parses. *)
Definition valid_schedule (schedule_type schedule_value : string) (now : Z) : Prop :=
  schedule_value <> EmptyString
  /\ ((schedule_type = "cron" /\ is_Some (cron_next schedule_value now))
      \/ (schedule_type = "interval"
          /\ exists ms, py_int schedule_value = Some ms /\ 0 < ms
                       /\ is_Some (fromtimestamp (now + ms)))
      \/ (schedule_type = "once" /\ is_Some (fromisoformat schedule_value))).

Definition recognised (schedule_type : string) : Prop :=
  schedule_type = "cron" \/ schedule_type = "interval" \/ schedule_type = "once".

(** [only_recognised]: restrict creation to requests whose schedule kind is
    one of the three. *)
Inductive reachable (only_recognised : bool) (groups : gmap string RegisteredGroup)
  : state -> Prop :=
| reach_empty : reachable only_recognised groups (empty_state groups)
| reach_schedule s data source now task_id s' :
    reachable only_recognised groups s ->
    data !! "type" = Some "schedule_task" ->
    (only_recognised = true ->
     forall ty, data !! "schedule_type" = Some ty -> recognised ty) ->
    process_task_file s source data now task_id = Done s' ->
    reachable only_recognised groups s'
| reach_run s task row now summary s' :
    (* [task] is the row as the scheduler read it before the run, [row] is
       the row now; the kind and the value of a row are never rewritten *)
    reachable only_recognised groups s ->
    tasks s !! id task = Some row ->
    schedule_type task = schedule_type row ->
    schedule_value task = schedule_value row ->
    finish_run s task now summary = Done s' ->
    reachable only_recognised groups s'.

(** The invariant of the data model on one row. *)
Definition null_iff_completed_once (t : ScheduledTask) : Prop :=
  next_run t = None <-> (schedule_type t = "once" /\ status t = "completed").

Definition row_ok (t : ScheduledTask) : Prop :=
  recognised (schedule_type t) /\ null_iff_completed_once t.

End Handlers.

(** ** Sample data *)

Definition sample_groups : gmap string RegisteredGroup :=
  {[ "-100main" := mkRegisteredGroup "Main" "main" "always" 0;
     "-100other" := mkRegisteredGroup "Other" "other-group" "@Andy" 0 ]}.

(** Stand-ins for croniter and [fromisoformat] on the values the examples
    use: the expression for "daily at nine" is accepted (the next run is put
    a day after the start), the date 2025-06-01 is parsed, and any other
    text is refused. *)
Definition sample_cron_next (expr : string) (now : Z) : option Z :=
  if bool_decide (expr = "0 9 * * *") then Some (now + 86400000) else None.

Definition sample_fromisoformat (text : string) : option Z :=
  if bool_decide (text = "2025-06-01T00:00:00") then Some 1748736000000 else None.

(** The examples hold ASCII text only, on which [int] never looks at the
    Unicode database. *)
Definition sample_int (text : string) : option Z := None.

(** Every call on [deps] returns. *)
Definition sample_deps : deps_calls := mkDepsCalls true true true true.

Definition request (prompt kind value target : string) : gmap string string :=
  {[ "type" := "schedule_task"; "prompt" := prompt; "schedule_type" := kind;
     "schedule_value" := value; "targetChatId" := target ]}.

(** ** The [messages/] half of [_process_ipc_files] *)

(** One parsed message file of the mailbox [source_group]: the message
    handed to [deps.send_message], if one is.  The file is removed either
    way. *)
Definition process_message_file (groups : gmap string RegisteredGroup)
    (ASSISTANT_NAME source_group : string) (data : gmap string string)
  : option (string * string) :=
  let is_main := bool_decide (source_group = MAIN_GROUP_FOLDER) in
  match data !! "chatId", data !! "text" with
  | Some target_chat_id, Some text =>
      if bool_decide (data !! "type" = Some "message")
         && truthy (Some target_chat_id) && truthy (Some text) then
        if is_main
           || match groups !! target_chat_id with
              | Some target_group => bool_decide (folder target_group = source_group)
              | None => false
              end
        then Some (target_chat_id, (ASSISTANT_NAME ++ ": " ++ text)%string)
        else None
      else None
  | _, _ => None
  end.

(** The message files of one mailbox, in the order of their names. *)
Definition process_message_files (groups : gmap string RegisteredGroup)
    (ASSISTANT_NAME source_group : string) (files : list (gmap string string))
  : list (string * string) :=
  omap (process_message_file groups ASSISTANT_NAME source_group) files.

Definition message_file (chat text : string) : gmap string string :=
  {[ "type" := "message"; "chatId" := chat; "text" := text ]}.

(** ** Views used in the statements *)

(** The rows of the other folders are the same in both tables. *)
Definition same_foreign_rows (folder : string) (s s' : state) : Prop :=
  forall k t, group_folder t <> folder ->
    (tasks s !! k = Some t <-> tasks s' !! k = Some t).

(** A pause, resume or cancel request for a job. *)
Definition task_request (kind task_id : string) : gmap string string :=
  {[ "type" := kind; "taskId" := task_id ]}.

(** A table with a job of the main group and a job of another group. *)
Definition hourly_job : ScheduledTask :=
  mkScheduledTask "task-1" "other-group" "-100other" "remind me" "interval" "3600000"
    "isolated" (Some 3601000) "active" 1000 None None.

Definition daily_job : ScheduledTask :=
  mkScheduledTask "task-0" "main" "-100main" "daily report" "cron" "0 9 * * *"
    "group" (Some 86401000) "active" 1000 None None.

Definition two_jobs : state :=
  mkState {[ "task-0" := daily_job; "task-1" := hourly_job ]} sample_groups [].

End Ipc.

(* ===================================================================== *)
(** * mount_security.py *)
(* ===================================================================== *)

Module MountSecurity.
Import Py.

(** [types.AdditionalMount], [AllowedRoot], [MountAllowlist] *)
Record AdditionalMount := mkAdditionalMount {
  host_path : string;
  container_path : option string;
  readonly : bool
}.

Record AllowedRoot := mkAllowedRoot {
  path : string;
  allow_read_write : bool;
  description : option string
}.

Record MountAllowlist := mkMountAllowlist {
  allowed_roots : list AllowedRoot;
  blocked_patterns : list string;
  non_main_read_only : bool
}.

(** The content of the [reason] text of a validation result. *)
Inductive reason :=
| NoAllowlist
| InvalidContainerPath (container_path : string)
| HostPathMissing (host_path expanded : string)
| MatchesBlockedPattern (pattern real_path : string)
| NotUnderAllowedRoot (real_path : string)
| AllowedUnderRoot (root : AllowedRoot).

Record MountValidationResult := mkMountValidationResult {
  allowed : bool;
  why : reason;
  real_host_path : option string;
  resolved_container_path : option string;
  effective_readonly : option bool
}.

Record ValidatedMount := mkValidatedMount {
  vm_host_path : string;
  vm_container_path : string;
  vm_readonly : bool
}.

(** ** Python's [x or y] on the optional values used below *)

Definition or_string (x : option string) (y : string) : string :=
  match x with
  | Some s => if bool_decide (s = EmptyString) then y else s
  | None => y
  end.

(** [x or True]: [x] when it is truthy, [True] otherwise. *)
Definition or_True (x : option bool) : bool :=
  match x with
  | Some b => if b then b else true
  | None => true
  end.

(** [_matches_blocked_pattern] *)
Fixpoint matches_blocked_pattern (real_path : string) (patterns : list string)
  : option string :=
  match patterns with
  | [] => None
  | pattern :: rest =>
      if existsb (fun part => bool_decide (part = pattern) || contains pattern part)
                 (split "/" real_path)
         || contains pattern real_path
      then Some pattern
      else matches_blocked_pattern real_path rest
  end.

(** [_is_valid_container_path] *)
Definition is_valid_container_path (container_path : string) : bool :=
  if contains ".." container_path then false
  else if String.prefix "/" container_path then false
  else if bool_decide (container_path = EmptyString) || is_blank container_path then false
  else true.

Section Validator.

(** The host the validator runs on: the allowlist [load_mount_allowlist]
    returns (it is read once and cached), and the file-system queries. *)
Variable allowlist : option MountAllowlist.
(** [_expand_path] *)
Variable expand_path : string -> string.
(** [_get_real_path]; [None] when the path does not exist. *)
Variable get_real_path : string -> option string.
(** [Path(p).name] *)
Variable path_name : string -> string.
(** whether [Path(p).relative_to(root)] succeeds *)
Variable is_relative_to : string -> string -> bool.

(** [_find_allowed_root] *)
Fixpoint find_allowed_root (real_path : string) (roots : list AllowedRoot)
  : option AllowedRoot :=
  match roots with
  | [] => None
  | root :: rest =>
      match get_real_path (expand_path (path root)) with
      | None => find_allowed_root real_path rest
      | Some real_root =>
          if is_relative_to real_path real_root then Some root
          else find_allowed_root real_path rest
      end
  end.

Definition rejected (r : reason) : MountValidationResult :=
  mkMountValidationResult false r None None None.

(** [validate_mount] *)
Definition validate_mount (mount : AdditionalMount) (is_main : bool)
  : MountValidationResult :=
  match allowlist with
  | None => rejected NoAllowlist
  | Some al =>
      let cpath := or_string (container_path mount) (path_name (host_path mount)) in
      if negb (is_valid_container_path cpath) then rejected (InvalidContainerPath cpath)
      else
      let expanded := expand_path (host_path mount) in
      match get_real_path expanded with
      | None => rejected (HostPathMissing (host_path mount) expanded)
      | Some real_path =>
          match matches_blocked_pattern real_path (blocked_patterns al) with
          | Some pattern => rejected (MatchesBlockedPattern pattern real_path)
          | None =>
              match find_allowed_root real_path (allowed_roots al) with
              | None => rejected (NotUnderAllowedRoot real_path)
              | Some allowed_root =>
                  let requested_read_write := negb (readonly mount) in
                  let effective :=
                    if requested_read_write then
                      if negb is_main && non_main_read_only al then true
                      else if negb (allow_read_write allowed_root) then true
                      else false
                    else true in
                  mkMountValidationResult true (AllowedUnderRoot allowed_root)
                    (Some real_path) (Some cpath) (Some effective)
              end
          end
      end
  end.

(** The text of an optional string inside an f-string. *)
Definition format_option (x : option string) : string := default "None" x.

(** [validate_additional_mounts]; the group name is only logged. *)
Fixpoint validate_additional_mounts (mounts : list AdditionalMount)
    (group_name : string) (is_main : bool) : list ValidatedMount :=
  match mounts with
  | [] => []
  | mount :: rest =>
      let result := validate_mount mount is_main in
      if allowed result then
        mkValidatedMount
          (or_string (real_host_path result) EmptyString)
          ("/workspace/extra/" ++ format_option (resolved_container_path result))%string
          (or_True (effective_readonly result))
        :: validate_additional_mounts rest group_name is_main
      else validate_additional_mounts rest group_name is_main
  end.

(** The [--mount] argument [_build_container_command] writes for a
    validated mount. *)
Definition mount_argument (m : ValidatedMount) : string :=
  ("type=bind,src=" ++ vm_host_path m ++ ",dst=" ++ vm_container_path m
     ++ (if vm_readonly m then ",readonly" else EmptyString))%string.

End Validator.

(** ** Sample host: one allowed root that permits read-write mounts, and a
    project directory under it. *)
Definition sample_allowlist : MountAllowlist :=
  mkMountAllowlist [mkAllowedRoot "/srv/projects" true None] [".ssh"] true.

Definition sample_real_path (p : string) : option string :=
  if bool_decide (p = "/srv/projects") || bool_decide (p = "/srv/projects/app")
  then Some p else None.

Definition sample_path_name (p : string) : string := List.last (split "/" p) EmptyString.

Definition sample_is_relative_to (p root : string) : bool :=
  bool_decide (p = root) || String.prefix (root ++ "/")%string p.

Definition sample_validate_mount :=
  validate_mount (Some sample_allowlist) (fun p => p) sample_real_path sample_path_name
                 sample_is_relative_to.

Definition sample_validate_additional_mounts :=
  validate_additional_mounts (Some sample_allowlist) (fun p => p) sample_real_path
                             sample_path_name sample_is_relative_to.

(** A read-write mount of the project directory. *)
Definition read_write_request : AdditionalMount :=
  mkAdditionalMount "/srv/projects/app" None false.

(** ** Views of the host used in the statements *)

Section HostViews.
Variable expand_path : string -> string.
Variable get_real_path : string -> option string.
Variable path_name : string -> string.
Variable is_relative_to : string -> string -> bool.

Definition under_root (real_path : string) (root : AllowedRoot) : Prop :=
  exists real_root, get_real_path (expand_path (path root)) = Some real_root
                    /\ is_relative_to real_path real_root = true.

Definition requested_container_path (mount : AdditionalMount) : string :=
  or_string (container_path mount) (path_name (host_path mount)).
End HostViews.

(** ** [load_mount_allowlist] *)

Definition DEFAULT_BLOCKED_PATTERNS : list string :=
  [".ssh"; ".gnupg"; ".gpg"; ".aws"; ".azure"; ".gcloud"; ".kube"; ".docker";
   "credentials"; ".env"; ".netrc"; ".npmrc"; ".pypirc"; "id_rsa"; "id_ed25519";
   "private_key"; ".secret"].

(** What is found at [MOUNT_ALLOWLIST_PATH] when the loader looks: no file;
    a file that cannot be read, is not JSON or is rejected by
    [MountAllowlist.model_validate] (with the text of the exception); or a
    file that validates, with the model it validates to. *)
Inductive allowlist_file :=
| Missing
| Unusable (err : string)
| Holds (al : MountAllowlist).

(** The module globals [_cached_allowlist] and [_allowlist_load_error]. *)
Record cache := mkCache {
  cached_allowlist : option MountAllowlist;
  allowlist_load_error : option string
}.

(** The state at process start, and after [_reset_cache]. *)
Definition reset_cache : cache := mkCache None None.

Section Loader.

(** [list(set(xs))]: the order of the result is not specified. *)
Variable list_of_set : list string -> list string.

Definition load_mount_allowlist (c : cache) (file : allowlist_file)
  : option MountAllowlist * cache :=
  match cached_allowlist c with
  | Some al => (Some al, c)
  | None =>
      match allowlist_load_error c with
      | Some _ => (None, c)
      | None =>
          match file with
          | Missing =>
              (* the message, without the path it ends with *)
              (None, mkCache None (Some "Mount allowlist not found"))
          | Unusable err => (None, mkCache None (Some err))
          | Holds al =>
              let merged := list_of_set (DEFAULT_BLOCKED_PATTERNS ++ blocked_patterns al) in
              let al := mkMountAllowlist (allowed_roots al) merged (non_main_read_only al) in
              (Some al, mkCache (Some al) None)
          end
      end
  end.

(** Successive calls; each finds the file in some state. *)
Fixpoint loads (c : cache) (files : list allowlist_file) : cache :=
  match files with
  | [] => c
  | file :: rest => loads (snd (load_mount_allowlist c file)) rest
  end.

End Loader.

(** The cached allowlist blocks the default patterns. *)
Definition blocks_defaults (c : cache) : Prop :=
  forall al, cached_allowlist c = Some al ->
    forall p, p ∈ DEFAULT_BLOCKED_PATTERNS -> p ∈ blocked_patterns al.

(** A host on which the allowed root holds a [.ssh] directory. *)
Definition sample_host_ssh (p : string) : option string :=
  if bool_decide (p = "/srv/projects") || bool_decide (p = "/srv/projects/.ssh")
  then Some p else None.

End MountSecurity.

(* ===================================================================== *)
(** * router.py *)
(* ===================================================================== *)

Module Router.

(** [str.replace(old, new)] for a pattern [old] of one character, which is
    how [escape_xml] calls it: every occurrence is replaced, from left to
    right. *)
Fixpoint replace (old : ascii) (new : string) (s : string) : string :=
  match s with
  | EmptyString => EmptyString
  | String c rest =>
      if bool_decide (c = old) then (new ++ replace old new rest)%string
      else String c (replace old new rest)
  end.

Definition double_quote : ascii := "034"%char.

(** [escape_xml] *)
Definition escape_xml (s : string) : string :=
  replace "'"%char "&apos;"
    (replace double_quote "&quot;"
       (replace ">"%char "&gt;"
          (replace "<"%char "&lt;"
             (replace "&"%char "&amp;" s)))).

(** What becomes of one character. *)
Definition escape_char (c : ascii) : string :=
  if bool_decide (c = "&"%char) then "&amp;"
  else if bool_decide (c = "<"%char) then "&lt;"
  else if bool_decide (c = ">"%char) then "&gt;"
  else if bool_decide (c = double_quote) then "&quot;"
  else if bool_decide (c = "'"%char) then "&apos;"
  else String c EmptyString.

Fixpoint escape_each (s : string) : string :=
  match s with
  | EmptyString => EmptyString
  | String c rest => (escape_char c ++ escape_each rest)%string
  end.

(** The characters of a string. *)
Fixpoint chars_of (s : string) : list ascii :=
  match s with
  | EmptyString => []
  | String c rest => c :: chars_of rest
  end.

Definition markup : list ascii := ["<"%char; ">"%char; double_quote; "'"%char].

End Router.

(* ===================================================================== *)
(** * __main__.py: processing the messages of a group *)
(* ===================================================================== *)

Module Main.
Import ContainerRunner.

Definition MAIN_GROUP_FOLDER : string := "main".

(** The fields of [types.RegisteredGroup] and of [types.NewMessage] that
    [_process_group_messages] reads itself (the rest only goes into the
    prompt). *)
Record RegisteredGroup := mkRegisteredGroup {
  folder : string;
  requires_trigger : option bool
}.

Record NewMessage := mkNewMessage {
  content : string;
  timestamp : string
}.

(** [db.ChatInfo], a plain class with three attributes, and
    [types.AvailableGroup]. *)
Record ChatInfo := mkChatInfo {
  ci_chat_id : string;
  ci_name : string;
  ci_last_message_time : string
}.

Record AvailableGroup := mkAvailableGroup {
  ag_chat_id : string;
  ag_name : string;
  ag_last_activity : string;
  ag_is_registered : bool
}.

(** [_get_available_groups] on the rows [get_all_chats()] returns: the
    comprehension subscripts every row (its filter reads [c["id"]]), and
    [ChatInfo] has no [__getitem__], so the first row raises [TypeError],
    for which [None] stands.  Without rows the list is empty. *)
Definition get_available_groups (chats : list ChatInfo) : option (list AvailableGroup) :=
  match chats with
  | [] => Some []
  | _ :: _ => None
  end.

(** The module state the function touches: [_last_agent_timestamp] and
    [_sessions]. *)
Record state := mkState {
  last_agent_timestamp : gmap string string;
  sessions : gmap string string
}.

(** [_last_agent_timestamp.get(chat_id, default)] with the empty text as
    default. *)
Definition cursor (s : state) (chat_id : string) : string :=
  default EmptyString (last_agent_timestamp s !! chat_id).

Definition set_cursor (s : state) (chat_id ts : string) : state :=
  mkState (<[chat_id := ts]> (last_agent_timestamp s)) (sessions s).

Definition set_session (s : state) (folder sid : string) : state :=
  mkState (last_agent_timestamp s) (<[folder := sid]> (sessions s)).

(** The [nonlocal] flags of [_process_group_messages]. *)
Record flags := mkFlags { had_error : bool; output_sent : bool }.

(** A call of [_process_group_messages] under way: the module state, the
    flags, the calls of [_telegram.send_message] it has made so far (chat
    and text, oldest first), and the number of times it has been suspended
    in an [await]. *)
Record progress := mkProgress {
  p_state : state;
  p_flags : flags;
  p_sent : list (string * string);
  p_awaits : nat
}.

(** How a call of [run_container_agent] goes: no output of the container
    is read (the process cannot be started, or writing its input fails:
    an error output is returned, or an exception raised); the
    reader is cancelled by the timeout, after it has forwarded some
    envelopes, and possibly while the callback of one more ([cut]) is
    suspended in [_telegram.send_message]; or the reader runs to its
    end. *)
Inductive agent_run :=
| FailedToStart
| TimedOut (forwarded : list ContainerOutput) (cut : option ContainerOutput)
| ReadToEnd (e : ending).

(** How a call of [_process_group_messages] ends: it returns, or an
    exception leaves it. *)
Inductive outcome :=
| Finished (success : bool) (s : state) (sent : list (string * string))
| Raises (s : state).

Definition truthy (v : option string) : bool :=
  match v with
  | Some s => negb (bool_decide (s = EmptyString))
  | None => false
  end.

Section ProcessGroupMessages.

Variable ASSISTANT_NAME : string.
(** Whether [_telegram] is set. *)
Variable telegram : bool.
(** [get_messages_since(chat_id, since, ASSISTANT_NAME)] on the message
    table as it is when the function runs. *)
Variable get_messages_since : string -> string -> list NewMessage.
(** [TRIGGER_PATTERN.search(m.content.strip())], from the content. *)
Variable has_trigger : string -> bool.
(** The text with the [<internal>] sections removed, stripped. *)
Variable strip_internal : string -> string.
(** What the other coroutines of the program (the message loop, which
    moves the cursor of a chat when it pipes messages to a running
    container, the runs of other groups, the scheduler) do to the module
    state while this call is suspended in its [k]-th [await]. *)
Variable others : nat -> state -> state.

Definition suspend (p : progress) : progress :=
  mkProgress (others (p_awaits p) (p_state p)) (p_flags p) (p_sent p) (S (p_awaits p)).

(** [_run_agent.wrapped] and the end of [_run_agent]: a session id that is
    not empty is recorded. *)
Definition note_session (folder : string) (o : ContainerOutput) (p : progress) : progress :=
  match new_session_id o with
  | Some sid =>
      if truthy (Some sid)
      then mkProgress (set_session (p_state p) folder sid) (p_flags p) (p_sent p) (p_awaits p)
      else p
  | None => p
  end.

(** The message [on_output] sends for an envelope, if it sends one. *)
Definition reply (o : ContainerOutput) : option string :=
  match result o with
  | Some raw =>
      if truthy (Some raw) then
        let text := strip_internal raw in
        if negb (bool_decide (text = EmptyString)) && telegram
        then Some (ASSISTANT_NAME ++ ": " ++ text)%string
        else None
      else None
  | None => None
  end.

(** [wrapped] followed by [on_output], up to the [await] of
    [_telegram.send_message] (which catches what sending raises), and from
    there to the end.  The calls on the database are taken to return
    normally; the typing indicator and the idle timer touch nothing that is
    modelled here. *)
Definition on_output_begin (chat_id folder : string) (p : progress) (o : ContainerOutput)
  : progress :=
  let p := note_session folder o p in
  match reply o with
  | Some text =>
      suspend (mkProgress (p_state p) (p_flags p) (p_sent p ++ [(chat_id, text)]) (p_awaits p))
  | None => p
  end.

Definition on_output_end (p : progress) (o : ContainerOutput) : progress :=
  let fl := p_flags p in
  let fl := match reply o with
            | Some _ => mkFlags (had_error fl) true
            | None => fl
            end in
  let fl := if bool_decide (status o = "error") then mkFlags true (output_sent fl) else fl in
  mkProgress (p_state p) fl (p_sent p) (p_awaits p).

Definition on_output (chat_id folder : string) (p : progress) (o : ContainerOutput)
  : progress :=
  on_output_end (on_output_begin chat_id folder p o) o.

(** The reader waits for the lines of the next envelope, then calls back. *)
Definition forward (chat_id folder : string) (forwarded : list ContainerOutput)
    (p : progress) : progress :=
  fold_left (fun p o => on_output chat_id folder (suspend p) o) forwarded p.

(** [_run_agent]: the status it returns; [None] when an exception leaves
    it.  [chats] is what [get_all_chats()] returns when it is called.  The
    snapshots are written before the [try], and reading the tasks and
    writing the files is taken to work. *)
Definition run_agent (chat_id folder : string) (chats : list ChatInfo) (p : progress)
    (run : agent_run) : option (string * progress) :=
  match get_available_groups chats with
  | None => None
  | Some _ =>
      match run with
      | FailedToStart => Some ("error", suspend p)
      | TimedOut forwarded cut =>
          let p := forward chat_id folder forwarded p in
          let p := match cut with
                   | Some o =>
                       match reply o with
                       | Some _ => on_output_begin chat_id folder (suspend p) o
                       | None =>
                           (* nothing to send: the callback has no [await]
                              and runs to its end *)
                           on_output chat_id folder (suspend p) o
                       end
                   | None => p
                   end in
          Some ("error", suspend p)
      | ReadToEnd (Raised forwarded) =>
          Some ("error", suspend (forward chat_id folder forwarded p))
      | ReadToEnd (Returned output forwarded) =>
          let p := suspend (forward chat_id folder forwarded p) in
          let p := note_session folder output p in
          Some (if bool_decide (status output = "error") then "error" else "success", p)
      end
  end.

(** [_process_group_messages]; [groups] is [_registered_groups]. *)
Definition process_group_messages (groups : gmap string RegisteredGroup)
    (chats : list ChatInfo) (s : state) (chat_id : string) (run : agent_run) : outcome :=
  match groups !! chat_id with
  | None => Finished true s []
  | Some group =>
      let is_main := bool_decide (folder group = MAIN_GROUP_FOLDER) in
      let since := cursor s chat_id in
      let missed := get_messages_since chat_id since in
      match missed with
      | [] => Finished true s []
      | first :: later =>
          if negb is_main
             && negb (bool_decide (requires_trigger group = Some false))
             && negb (existsb (fun m => has_trigger (content m)) missed)
          then Finished true s []
          else
            let previous_cursor := cursor s chat_id in
            let s := set_cursor s chat_id (timestamp (List.last later first)) in
            let p := mkProgress s (mkFlags false false) [] 0 in
            (* await _telegram.set_typing(chat_id, True) *)
            let p := if telegram then suspend p else p in
            match run_agent chat_id (folder group) chats p run with
            | None => Raises (p_state p)
            | Some (status, p) =>
                if bool_decide (status = "error") || had_error (p_flags p) then
                  if output_sent (p_flags p) then Finished true (p_state p) (p_sent p)
                  else Finished false (set_cursor (p_state p) chat_id previous_cursor)
                                      (p_sent p)
                else Finished true (p_state p) (p_sent p)
            end
      end
  end.

(** The messages of the chat are handed to the agent: the chat is the main
    one, needs no trigger, or one of the messages has the trigger. *)
Definition to_be_handled (group : RegisteredGroup) (missed : list NewMessage) : Prop :=
  folder group = MAIN_GROUP_FOLDER \/ requires_trigger group = Some false
  \/ exists m, m ∈ missed /\ has_trigger (content m) = true.

(** The other coroutines leave the cursor of [chat_id] alone. *)
Definition cursor_left_alone (chat_id : string) : Prop :=
  forall k st, cursor (others k st) chat_id = cursor st chat_id.

End ProcessGroupMessages.

(** What the callbacks of a run keep true: while [output_sent] is down no
    call of [send_message] has been made, and once it is up one has. *)
Definition callback_inv (p : progress) : Prop :=
  (output_sent (p_flags p) = false -> p_sent p = [])
  /\ (output_sent (p_flags p) = true -> p_sent p <> []).

(** What [GroupQueue._run_for_group] makes of the way its callback ends. *)
Definition queue_outcome (o : outcome) : GroupQueue.outcome :=
  match o with
  | Finished true _ _ => GroupQueue.Success
  | Finished false _ _ => GroupQueue.Failure
  | Raises _ => GroupQueue.Raised
  end.

(** ** Sample data *)
Definition sample_groups : gmap string RegisteredGroup :=
  {[ "-100main" := mkRegisteredGroup "main" None ]}.

Definition sample_messages (chat_id since : string) : list NewMessage :=
  if bool_decide (chat_id = "-100main") && bool_decide (since = EmptyString)
  then [mkNewMessage "hello" "2025-06-01T10:00:00"; mkNewMessage "again" "2025-06-01T10:00:05"]
  else [].

Definition fresh : state := mkState ∅ ∅.

(** While the call is suspended for the first time, the message loop pipes
    a later message of the chat to the container and moves the cursor
    ([_start_message_loop]). *)
Definition piped_follow_up (k : nat) (s : state) : state :=
  match k with
  | O => set_cursor s "-100main" "2025-06-01T10:00:09"
  | _ => s
  end.

Definition nobody_else (k : nat) (s : state) : state := s.

Definition one_chat : list ChatInfo :=
  [mkChatInfo "-100main" "Main" "2025-06-01T10:00:05"].

End Main.

(* ===================================================================== *)
(** * Properties of the group queue *)
(* ===================================================================== *)

Section GroupQueueProps.
Import GroupQueue.

Ltac qsimpl :=
  cbn [groups active_count waiting has_process_messages_fn shutting_down
       with_groups with_active_count with_waiting with_fn with_shutting_down
       put_group active pending_messages pending_tasks process container_name
       group_folder retry_count with_active with_pending_messages
       with_pending_tasks with_retry_count with_process new_GroupState
       fst snd] in *.

Ltac splits := repeat match goal with |- _ /\ _ => split end.

Lemma get_group_eq q chat :
  get_group q chat = (state_of q chat, put_group q chat (state_of q chat)).
Proof.
  unfold get_group, state_of. destruct (groups q !! chat) as [st|] eqn:E; cbn [default].
  - f_equal. destruct q; unfold put_group, with_groups; qsimpl. f_equal.
    symmetry. by apply insert_id.
  - reflexivity.
Qed.

Lemma state_of_put q c st c' :
  state_of (put_group q c st) c' = if decide (c = c') then st else state_of q c'.
Proof.
  unfold state_of; qsimpl. rewrite lookup_insert. by destruct (decide (c = c')).
Qed.

Lemma state_of_with_waiting w q c : state_of (with_waiting w q) c = state_of q c.
Proof. reflexivity. Qed.
Lemma state_of_with_active_count n q c : state_of (with_active_count n q) c = state_of q c.
Proof. reflexivity. Qed.

Lemma state_of_append_waiting q c c' : state_of (append_waiting q c) c' = state_of q c'.
Proof. unfold append_waiting. by destruct (bool_decide _). Qed.

Section Cap.
Variable cap : Z.

(** every coroutine created by a drain is a unit of work, the retry counters
    are untouched and tasks are only ever removed from the pending lists *)
Lemma drain_waiting_loop_spec w : forall q q' created,
  drain_waiting_loop cap w q = (q', created) ->
  Forall (fun c => is_unit c = true) created
  /\ active_count q' = active_count q
  /\ shutting_down q' = shutting_down q
  /\ (forall c, rc_of q' c = rc_of q c)
  /\ (forall c, tasks_of q c = [] -> tasks_of q' c = [])
  /\ (forall g r, RunForGroup g r ∈ created -> tasks_of q' g = []).
Proof.
  induction w as [|n rest IH]; intros q q' created; cbn [drain_waiting_loop].
  - intros [= <- <-]. splits; auto. intros g r H. inversion H.
  - destruct (active_count q <? cap).
    2:{ intros [= <- <-]. splits; auto. intros g r H. inversion H. }
    rewrite get_group_eq.
    set (q1 := put_group (with_waiting rest q) n (state_of (with_waiting rest q) n)).
    assert (Hq1 : forall c, state_of q1 c = state_of q c).
    { intros c. unfold q1. rewrite state_of_put. destruct (decide (n = c)); by subst. }
    destruct (pending_tasks (state_of (with_waiting rest q) n)) as [|t ts] eqn:Et.
    + destruct (pending_messages (state_of (with_waiting rest q) n)).
      * destruct (drain_waiting_loop cap rest q1) as [q2 cr] eqn:E.
        intros [= <- <-]. destruct (IH _ _ _ E) as (H1 & H2 & H3 & H4 & H5 & H6).
        splits; auto.
        -- intros c. rewrite H4. unfold rc_of. by rewrite Hq1.
        -- intros c Hc. apply H5. unfold tasks_of. rewrite Hq1. exact Hc.
        -- intros g r Hin. apply elem_of_cons in Hin as [Heq|Hin]; [|eauto].
           inversion Heq; subst. apply H5. unfold tasks_of. rewrite Hq1. exact Et.
      * intros E. destruct (IH _ _ _ E) as (H1 & H2 & H3 & H4 & H5 & H6).
        splits; auto.
        -- intros c. rewrite H4. unfold rc_of. by rewrite Hq1.
        -- intros c Hc. apply H5. unfold tasks_of. rewrite Hq1. exact Hc.
    + set (q2 := put_group q1 n _).
      destruct (drain_waiting_loop cap rest q2) as [q3 cr] eqn:E.
      intros [= <- <-]. destruct (IH _ _ _ E) as (H1 & H2 & H3 & H4 & H5 & H6).
      splits; auto.
      * intros c. rewrite H4. unfold rc_of, q2. rewrite state_of_put.
        destruct (decide (n = c)); subst; qsimpl; by rewrite ?Hq1.
      * intros c Hc. apply H5. unfold tasks_of, q2. rewrite state_of_put.
        destruct (decide (n = c)); subst; qsimpl.
        -- unfold tasks_of in Hc. change (state_of (with_waiting rest q) c) with (state_of q c) in Et.
           rewrite Hc in Et. discriminate.
        -- by rewrite Hq1.
      * intros g r Hin. apply elem_of_cons in Hin as [Heq|Hin]; [discriminate|eauto].
Qed.

Lemma drain_group_spec q chat q' created :
  drain_group cap q chat = (q', created) ->
  Forall (fun c => is_unit c = true) created
  /\ active_count q' = active_count q
  /\ shutting_down q' = shutting_down q
  /\ (forall c, rc_of q' c = rc_of q c)
  /\ (forall g r, RunForGroup g r ∈ created -> tasks_of q' g = []).
Proof.
  unfold drain_group. destruct (shutting_down q) eqn:Hsd.
  { intros [= <- <-]. splits; auto. intros g r H. inversion H. }
  rewrite get_group_eq.
  set (q1 := put_group q chat (state_of q chat)).
  assert (Hq1 : forall c, state_of q1 c = state_of q c).
  { intros c. unfold q1. rewrite state_of_put. destruct (decide (chat = c)); by subst. }
  destruct (pending_tasks (state_of q chat)) as [|t ts] eqn:Et.
  - destruct (pending_messages (state_of q chat)).
    + intros [= <- <-]. splits; auto.
      * intros c. unfold rc_of. by rewrite Hq1.
      * intros g r Hin. apply list_elem_of_singleton in Hin. inversion Hin; subst.
        unfold tasks_of. by rewrite Hq1.
    + intros E. destruct (drain_waiting_loop_spec _ _ _ _ E) as (H1 & H2 & H3 & H4 & H5 & H6).
      splits; auto; [by rewrite H3|].
      intros c. rewrite H4. unfold rc_of. by rewrite Hq1.
  - intros [= <- <-]. splits; auto.
    + intros c. unfold rc_of. rewrite state_of_put.
      destruct (decide (chat = c)); subst; qsimpl; by rewrite ?Hq1.
    + intros g r Hin. apply list_elem_of_singleton in Hin. discriminate.
Qed.

Lemma finish_spec q chat q' created :
  finish cap q chat = (q', created) ->
  Forall (fun c => is_unit c = true) created
  /\ active_count q' = active_count q - 1
  /\ shutting_down q' = shutting_down q
  /\ (forall c, rc_of q' c = rc_of q c)
  /\ (forall g r, RunForGroup g r ∈ created -> tasks_of q' g = []).
Proof.
  unfold finish. rewrite get_group_eq. intros E.
  destruct (drain_group_spec _ _ _ _ E) as (H1 & H2 & H3 & H4 & H5).
  splits; auto.
  intros c. rewrite H4. unfold rc_of.
  change (state_of (with_active_count ?n ?x) c) with (state_of x c).
  rewrite !state_of_put. destruct (decide (chat = c)); subst; reflexivity.
Qed.

Lemma schedule_retry_spec q chat :
  let rc := rc_of q chat + 1 in
  exists q',
    schedule_retry q chat =
      (q', if MAX_RETRIES <? rc then []
           else [Retry chat (BASE_RETRY_SECONDS * inject_Z (2 ^ (rc - 1)))%Q])
    /\ rc_of q' chat = (if MAX_RETRIES <? rc then 0 else rc)
    /\ (forall c, tasks_of q' c = tasks_of q c)
    /\ shutting_down q' = shutting_down q
    /\ active_count q' = active_count q.
Proof.
  intros rc. unfold schedule_retry. rewrite get_group_eq.
  fold (rc_of q chat). fold rc.
  assert (Ht : forall st, retry_count st = retry_count st -> forall c,
     pending_tasks st = tasks_of q chat ->
     tasks_of (put_group (put_group q chat (state_of q chat)) chat st) c = tasks_of q c).
  { intros st _ c Hst. unfold tasks_of. rewrite !state_of_put.
    destruct (decide (chat = c)); subst; auto. }
  assert (Hr : forall st, rc_of (put_group (put_group q chat (state_of q chat)) chat st) chat
                          = retry_count st).
  { intros st. unfold rc_of. rewrite state_of_put. by destruct (decide (chat = chat)). }
  destruct (MAX_RETRIES <? rc); eexists; (split; [reflexivity|]); splits;
    try reflexivity; try apply Hr; intros c; apply Ht; reflexivity.
Qed.


Lemma retries_units l : Forall (fun c => is_unit c = true) l -> retries l = [].
Proof.
  induction 1 as [|c l Hc _ IH]; [reflexivity|].
  unfold retries. rewrite filter_cons. destruct (decide (is_unit c = false)); [congruence|exact IH].
Qed.

Lemma units_units l : Forall (fun c => is_unit c = true) l -> units l = l.
Proof.
  induction 1 as [|c l Hc _ IH]; [reflexivity|].
  unfold units. rewrite filter_cons. destruct (decide (is_unit c = true)); [|congruence].
  f_equal. exact IH.
Qed.

Lemma retry_backoff_step q chat (o : outcome) :
  o <> Success ->
  let rc := rc_of q chat + 1 in
  let '(q', created) := run_for_group_resume cap q chat o in
  if rc <=? MAX_RETRIES then
    retries created = [Retry chat (BASE_RETRY_SECONDS * inject_Z (2 ^ (rc - 1)))%Q]
    /\ rc_of q' chat = rc
  else
    retries created = [] /\ rc_of q' chat = 0.
Proof.
  intros Ho rc. unfold run_for_group_resume.
  destruct (schedule_retry_spec q chat) as (q1 & E1 & Hrc & _). fold rc in E1, Hrc.
  assert (E : (match o with
               | Success => let '(state, q0) := get_group q chat in
                            (put_group q0 chat (with_retry_count 0 state), [])
               | _ => schedule_retry q chat end) = schedule_retry q chat)
    by (destruct o; congruence).
  rewrite E, E1. clear E.
  destruct (finish cap q1 chat) as [q2 created] eqn:E2.
  destruct (finish_spec _ _ _ _ E2) as (Hu & _ & _ & Hrc2 & _).
  rewrite Z.leb_antisym. destruct (MAX_RETRIES <? rc); cbn [negb].
  - rewrite Hrc2, Hrc. split; [|reflexivity]. cbn [app]. by apply retries_units.
  - rewrite Hrc2, Hrc. split; [|reflexivity].
    cbn [app]. unfold retries. rewrite filter_cons. cbn [is_unit].
    destruct (decide (false = false)); [|congruence]. f_equal. by apply retries_units.
Qed.

Lemma rc_of_begin q chat : rc_of (run_for_group_begin q chat) chat = rc_of q chat.
Proof.
  unfold run_for_group_begin. rewrite get_group_eq. unfold rc_of.
  change (state_of (with_active_count ?n ?x) chat) with (state_of x chat).
  rewrite !state_of_put. by destruct (decide (chat = chat)).
Qed.

Lemma failures_from chat o : o <> Success -> forall n q k,
  rc_of q chat = k -> k + Z.of_nat n <= MAX_RETRIES ->
  let '(q', rs) := failures cap o n q chat in
  rs = map (fun i => Retry chat (delay_of (k + Z.of_nat i))) (seq 0 n)
  /\ rc_of q' chat = k + Z.of_nat n.
Proof.
  intros Ho. induction n as [|n IH]; intros q k Hk Hle; cbn [failures].
  - split; [reflexivity|]. rewrite Hk. lia.
  - rewrite Nat2Z.inj_succ in Hle |- *.
    pose proof (retry_backoff_step (run_for_group_begin q chat) chat o Ho) as Hstep.
    cbv zeta in Hstep. rewrite rc_of_begin, Hk in Hstep.
    destruct (run_for_group_resume cap (run_for_group_begin q chat) chat o) as [q1 created].
    destruct (k + 1 <=? MAX_RETRIES) eqn:E; [|apply Z.leb_gt in E; exfalso; lia].
    destruct Hstep as [Hr Hrc1].
    assert (Hle' : k + 1 + Z.of_nat n <= MAX_RETRIES) by lia.
    specialize (IH q1 (k + 1) Hrc1 Hle').
    destruct (failures cap o n q1 chat) as [q2 later]. destruct IH as [-> Hrc2].
    split; [|lia]. rewrite Hr. cbn [seq map app]. f_equal.
    + replace (k + 1 - 1) with (k + Z.of_nat 0) by lia. reflexivity.
    + rewrite <- seq_shift, map_map. apply map_ext. intros i.
      replace (k + 1 + Z.of_nat i) with (k + Z.of_nat (S i)) by lia. reflexivity.
Qed.

Lemma units_app l1 l2 : units (l1 ++ l2) = units l1 ++ units l2.
Proof. unfold units. apply filter_app. Qed.

Lemma finish_oldest_task q chat t ts :
  shutting_down q = false ->
  tasks_of q chat = t :: ts ->
  exists q', finish cap q chat = (q', [RunTask chat t]) /\ tasks_of q' chat = ts.
Proof.
  intros Hsd Ht. unfold finish, drain_group. rewrite !get_group_eq.
  cbn [shutting_down with_active_count put_group with_groups]. rewrite Hsd.
  set (q1 := with_active_count _ _).
  assert (E : pending_tasks (state_of q1 chat) = t :: ts).
  { unfold q1. change (state_of (with_active_count ?n ?x) chat) with (state_of x chat).
    rewrite !state_of_put. destruct (decide (chat = chat)); [|congruence]. exact Ht. }
  rewrite E. eexists. split; [reflexivity|].
  unfold tasks_of. rewrite state_of_put. by destruct (decide (chat = chat)).
Qed.

Lemma mark_success_spec q chat :
  let q' := put_group (put_group q chat (state_of q chat)) chat
                      (with_retry_count 0 (state_of q chat)) in
  shutting_down q' = shutting_down q /\ forall c, tasks_of q' c = tasks_of q c.
Proof.
  split; [reflexivity|]. intros c. unfold tasks_of. rewrite !state_of_put.
  destruct (decide (chat = c)); subst; reflexivity.
Qed.

(** The completion of a message check starts the oldest queued task. *)
Lemma resume_oldest_task q chat t ts o :
  shutting_down q = false ->
  tasks_of q chat = t :: ts ->
  exists q' created,
    run_for_group_resume cap q chat o = (q', created)
    /\ units created = [RunTask chat t] /\ tasks_of q' chat = ts.
Proof.
  intros Hsd Ht. unfold run_for_group_resume.
  assert (exists q1 rs, (match o with
               | Success => let '(state, q0) := get_group q chat in
                            (put_group q0 chat (with_retry_count 0 state), [])
               | _ => schedule_retry q chat end) = (q1, rs)
            /\ units rs = [] /\ shutting_down q1 = false /\ tasks_of q1 chat = t :: ts)
    as (q1 & rs & -> & Hrs & Hsd1 & Ht1).
  { destruct (schedule_retry_spec q chat) as (q1 & E1 & _ & Htk & Hs & _).
    destruct (mark_success_spec q chat) as [Hs0 Ht0].
    destruct o.
    - rewrite get_group_eq. cbv beta iota. eexists _, _. split; [reflexivity|].
      splits; [reflexivity|exact Hsd|by rewrite Ht0].
    - eexists _, _. split; [exact E1|]. splits.
      + by destruct (MAX_RETRIES <? _).
      + by rewrite Hs.
      + by rewrite Htk.
    - eexists _, _. split; [exact E1|]. splits.
      + by destruct (MAX_RETRIES <? _).
      + by rewrite Hs.
      + by rewrite Htk. }
  destruct (finish_oldest_task q1 chat t ts Hsd1 Ht1) as (q2 & -> & Ht2).
  eexists _, _. split; [reflexivity|]. split; [|exact Ht2].
  rewrite units_app, Hrs. reflexivity.
Qed.

Lemma resume_message_check_no_tasks q chat o q' created :
  run_for_group_resume cap q chat o = (q', created) ->
  forall g r, RunForGroup g r ∈ created -> tasks_of q' g = [].
Proof.
  unfold run_for_group_resume.
  destruct (match o with Success => _ | _ => _ end) as [q1 rs] eqn:E1.
  destruct (finish cap q1 chat) as [q2 cr] eqn:E2. intros [= <- <-] g r Hin.
  destruct (finish_spec _ _ _ _ E2) as (_ & _ & _ & _ & H).
  apply elem_of_app in Hin as [Hin|Hin]; [|eauto].
  exfalso. destruct o.
  - rewrite get_group_eq in E1. injection E1 as <- <-. inversion Hin.
  - destruct (schedule_retry_spec q chat) as (q1' & E & _). rewrite E in E1.
    injection E1 as <- <-. destruct (MAX_RETRIES <? _).
    + inversion Hin.
    + apply list_elem_of_singleton in Hin. discriminate.
  - destruct (schedule_retry_spec q chat) as (q1' & E & _). rewrite E in E1.
    injection E1 as <- <-. destruct (MAX_RETRIES <? _).
    + inversion Hin.
    + apply list_elem_of_singleton in Hin. discriminate.
Qed.

(** After [shutdown] a completion starts no unit of work. *)
Lemma finish_shutting_down q chat :
  shutting_down q = true -> snd (finish cap q chat) = [].
Proof.
  intros Hsd. unfold finish, drain_group. rewrite get_group_eq.
  cbn [shutting_down with_active_count put_group with_groups]. by rewrite Hsd.
Qed.

Lemma resume_shutting_down q chat o :
  shutting_down q = true -> units (snd (run_for_group_resume cap q chat o)) = [].
Proof.
  intros Hsd. unfold run_for_group_resume.
  destruct (schedule_retry_spec q chat) as (q1 & E1 & _ & _ & Hs & _).
  assert (exists q2 rs, (match o with
               | Success => let '(state, q0) := get_group q chat in
                            (put_group q0 chat (with_retry_count 0 state), [])
               | _ => schedule_retry q chat end) = (q2, rs)
            /\ units rs = [] /\ shutting_down q2 = true)
    as (q2 & rs & -> & Hrs & Hsd2).
  { destruct o.
    - rewrite get_group_eq. cbv beta iota. eexists _, _. split; [reflexivity|].
      split; [reflexivity|exact Hsd].
    - eexists _, _. split; [exact E1|]. split; [by destruct (MAX_RETRIES <? _)|congruence].
    - eexists _, _. split; [exact E1|]. split; [by destruct (MAX_RETRIES <? _)|congruence]. }
  pose proof (finish_shutting_down q2 chat Hsd2) as Hf.
  destruct (finish cap q2 chat) as [q3 cr]. cbn [snd] in *. subst cr.
  by rewrite app_nil_r.
Qed.

(** C8 (amended): when a unit of work of a group completes while the queue
    is not shutting down and the group has queued tasks, the only unit of
    work created is the run of the oldest queued task, which leaves the
    queue; whenever the completion of a unit of work creates a message-check
    run for some group, that group has no queued task left; and once the
    queue is shutting down a completion creates no unit of work. *)
Theorem drain_tasks_before_messages q chat t ts
    (Hsd : shutting_down q = false) (Ht : tasks_of q chat = t :: ts) :
  (forall o, exists q' created,
      run_for_group_resume cap q chat o = (q', created)
      /\ units created = [RunTask chat t] /\ tasks_of q' chat = ts)
  /\ (exists q', run_task_resume cap q chat = (q', [RunTask chat t])
                 /\ tasks_of q' chat = ts)
  /\ (forall q0 chat0 o q' created g r,
        (run_for_group_resume cap q0 chat0 o = (q', created)
         \/ run_task_resume cap q0 chat0 = (q', created)) ->
        RunForGroup g r ∈ created -> tasks_of q' g = [])
  /\ (forall q0 chat0 o,
        shutting_down q0 = true ->
        units (snd (run_for_group_resume cap q0 chat0 o)) = []
        /\ snd (run_task_resume cap q0 chat0) = []).
Proof.
  splits.
  - intros o. by apply resume_oldest_task.
  - by apply finish_oldest_task.
  - intros q0 chat0 o q' created g r [H|H] Hin.
    + eapply resume_message_check_no_tasks; eauto.
    + destruct (finish_spec _ _ _ _ H) as (_ & _ & _ & _ & H'). eauto.
  - intros q0 chat0 o Hsd0. split.
    + by apply resume_shutting_down.
    + by apply finish_shutting_down.
Qed.


Lemma enqueue_message_check_count q chat :
  active_count (fst (enqueue_message_check cap q chat)) = active_count q.
Proof.
  unfold enqueue_message_check. rewrite get_group_eq.
  destruct (shutting_down q); [reflexivity|].
  destruct (active (state_of q chat)); [reflexivity|].
  cbn [active_count put_group with_groups].
  destruct (cap <=? active_count q); [|reflexivity].
  cbn [fst]. unfold append_waiting. by destruct (bool_decide _).
Qed.

Lemma enqueue_task_count q chat tid :
  active_count (fst (enqueue_task cap q chat tid)) = active_count q.
Proof.
  unfold enqueue_task. rewrite get_group_eq.
  destruct (shutting_down q); [reflexivity|].
  destruct (existsb _ _); [reflexivity|].
  destruct (active (state_of q chat)); [reflexivity|].
  cbn [active_count put_group with_groups].
  destruct (cap <=? active_count q); [|reflexivity].
  cbn [fst]. unfold append_waiting. by destruct (bool_decide _).
Qed.

Lemma run_for_group_resume_count q chat o q' created :
  run_for_group_resume cap q chat o = (q', created) ->
  active_count q' = active_count q - 1.
Proof.
  unfold run_for_group_resume.
  destruct (match o with Success => _ | _ => _ end) as [q1 rs] eqn:E1.
  destruct (finish cap q1 chat) as [q2 cr] eqn:E2. intros [= <- <-].
  destruct (finish_spec _ _ _ _ E2) as (_ & -> & _).
  f_equal. destruct (schedule_retry_spec q chat) as (q1' & E & _ & _ & _ & Hc).
  destruct o.
  - rewrite get_group_eq in E1. by injection E1 as <- <-.
  - rewrite E in E1. by injection E1 as <- <-.
  - rewrite E in E1. by injection E1 as <- <-.
Qed.


Lemma count_units_app l1 l2 : count_units (l1 ++ l2) = count_units l1 + count_units l2.
Proof. unfold count_units. rewrite units_app, length_app. lia. Qed.

Lemma count_units_cons c l :
  count_units (c :: l) = (if is_unit c then 1 else 0) + count_units l.
Proof.
  unfold count_units, units. rewrite filter_cons.
  destruct (decide (is_unit c = true)) as [E|E].
  - rewrite E. cbn [length]. lia.
  - destruct (is_unit c); [congruence|]. lia.
Qed.

Lemma count_units_remove_nth l i c :
  l !! i = Some c ->
  count_units (remove_nth i l) = count_units l - (if is_unit c then 1 else 0).
Proof.
  intros H. unfold remove_nth.
  rewrite <- (take_drop_middle l i c H) at 3.
  rewrite !count_units_app, count_units_cons. lia.
Qed.


Lemma step_accounted w e w' : step cap w e = Some w' -> accounted w -> accounted w'.
Proof.
  unfold accounted. destruct w as [q rd sp]. cbn [queue suspended].
  destruct e as [chat|chat tid|chat p cn fo| | |i o]; cbn [step queue ready suspended].
  - pose proof (enqueue_message_check_count q chat) as H.
    destruct (enqueue_message_check cap q chat) as [q1 cr].
    intros [= <-] Hacc. cbn [queue suspended fst] in *. congruence.
  - pose proof (enqueue_task_count q chat tid) as H.
    destruct (enqueue_task cap q chat tid) as [q1 cr].
    intros [= <-] Hacc. cbn [queue suspended fst] in *. congruence.
  - intros [= <-] Hacc. cbn [queue suspended]. rewrite <- Hacc.
    unfold register_process. by rewrite get_group_eq.
  - intros [= <-] Hacc. exact Hacc.
  - destruct rd as [|[chat r|chat t|chat d] rest]; [discriminate| | |].
    + assert (Hb : active_count (run_for_group_begin q chat) = active_count q + 1).
      { unfold run_for_group_begin. by rewrite get_group_eq. }
      destruct (has_process_messages_fn _).
      * intros [= <-] Hacc. cbn [queue suspended]. rewrite count_units_app, Hb, Hacc.
        reflexivity.
      * destruct (finish cap _ chat) as [q1 cr] eqn:E.
        destruct (finish_spec _ _ _ _ E) as (_ & Hc & _).
        intros [= <-] Hacc. cbn [queue suspended]. rewrite Hc, Hb. lia.
    + intros [= <-] Hacc. cbn [queue suspended]. rewrite count_units_app, <- Hacc.
      unfold run_task_begin. rewrite get_group_eq. reflexivity.
    + intros [= <-] Hacc. cbn [queue suspended]. rewrite count_units_app, <- Hacc.
      replace (count_units [Retry chat d]) with 0 by reflexivity. lia.
  - destruct (sp !! i) as [[chat r|chat t|chat d]|] eqn:Ei; [| | |discriminate].
    + destruct (run_for_group_resume cap q chat o) as [q1 cr] eqn:E.
      intros [= <-] Hacc. cbn [queue suspended].
      rewrite (count_units_remove_nth _ _ _ Ei), (run_for_group_resume_count _ _ _ _ _ E).
      cbn [is_unit]. lia.
    + unfold run_task_resume. destruct (finish cap q chat) as [q1 cr] eqn:E.
      destruct (finish_spec _ _ _ _ E) as (_ & Hc & _).
      intros [= <-] Hacc. cbn [queue suspended].
      rewrite (count_units_remove_nth _ _ _ Ei), Hc. cbn [is_unit]. lia.
    + pose proof (enqueue_message_check_count q chat) as H.
      destruct (shutting_down q).
      * intros [= <-] Hacc. cbn [queue suspended].
        rewrite (count_units_remove_nth _ _ _ Ei). cbn [is_unit]. lia.
      * destruct (enqueue_message_check cap q chat) as [q1 cr].
        intros [= <-] Hacc. cbn [queue suspended fst] in *.
        rewrite (count_units_remove_nth _ _ _ Ei). cbn [is_unit]. lia.
Qed.

Lemma run_accounted es : forall w w',
  run cap w es = Some w' -> accounted w -> accounted w'.
Proof.
  induction es as [|e es IH]; intros w w'; cbn [run].
  - intros [= <-]. auto.
  - destruct (step cap w e) as [w1|] eqn:E; [|discriminate].
    intros Hr Hacc. eapply IH; eauto using step_accounted.
Qed.

(** ** Prompt starts: one unit of work per group *)

#[local] Abbreviation settle := (settle cap).
#[local] Abbreviation prompt_step := (prompt_step cap).
#[local] Abbreviation prompt_run := (prompt_run cap).
#[local] Abbreviation drained := (drained cap).
#[local] Abbreviation enqueued := (enqueued cap).
#[local] Abbreviation prompt_inv := (prompt_inv cap).



Lemma act_put q c st g :
  act (put_group q c st) g = if decide (c = g) then active st else act q g.
Proof. unfold act. rewrite state_of_put. by destruct (decide (c = g)). Qed.

Lemma same_book_refl q : same_book q q.
Proof. by repeat split. Qed.

Lemma same_book_trans q1 q2 q3 : same_book q1 q2 -> same_book q2 q3 -> same_book q1 q3.
Proof.
  intros (A1 & A2 & A3 & A4) (B1 & B2 & B3 & B4).
  split; [intros g; by rewrite B1, A1|]. repeat split; congruence.
Qed.

Lemma same_book_put q c st :
  active st = act q c -> same_book q (put_group q c st).
Proof.
  intros H. repeat split. intros g. rewrite act_put.
  destruct (decide (c = g)); subst; auto.
Qed.

Lemma same_book_waiting q w : same_book q (with_waiting w q).
Proof. by repeat split. Qed.

Lemma same_book_append q c : same_book q (append_waiting q c).
Proof. unfold append_waiting. destruct (bool_decide _); by repeat split. Qed.

Lemma waiting_put q c st : waiting (put_group q c st) = waiting q.
Proof. reflexivity. Qed.

Lemma enqueue_message_check_book q c q' cr :
  enqueue_message_check cap q c = (q', cr) ->
  same_book q q'
  /\ ((cr = [] /\ (waiting q' = waiting q
                  \/ (shutting_down q = false /\ act q c = false /\ cap <= active_count q
                      /\ waiting q' = (if bool_decide (c ∈ waiting q) then waiting q
                                       else waiting q ++ [c]))))
      \/ (cr = [RunForGroup c "messages"] /\ waiting q' = waiting q /\ act q c = false
          /\ active_count q < cap /\ shutting_down q = false)).
Proof.
  unfold enqueue_message_check. destruct (shutting_down q) eqn:Hsd.
  { intros [= <- <-]. split; [apply same_book_refl|]. left. auto. }
  rewrite get_group_eq. fold (act q c).
  destruct (act q c) eqn:Ha.
  { intros [= <- <-]. split.
    - eapply same_book_trans; apply same_book_put; cbn; try done.
      rewrite act_put. by destruct (decide (c = c)).
    - left. auto. }
  destruct (cap <=? _) eqn:E.
  - intros [= <- <-]. split.
    + eapply same_book_trans; [apply same_book_put; by cbn|].
      eapply same_book_trans; [apply same_book_put|apply same_book_append].
      cbn. rewrite act_put. by destruct (decide (c = c)).
    + left. split; [reflexivity|]. right. apply Z.leb_le in E.
      split; [reflexivity|]. split; [reflexivity|]. split; [exact E|].
      unfold append_waiting. cbn [waiting put_group with_groups].
      by destruct (bool_decide _).
  - intros [= <- <-]. split; [by apply same_book_put|].
    right. apply Z.leb_gt in E. auto.
Qed.

Lemma enqueue_task_book q c tid q' cr :
  enqueue_task cap q c tid = (q', cr) ->
  same_book q q'
  /\ ((cr = [] /\ (waiting q' = waiting q
                  \/ (shutting_down q = false /\ act q c = false /\ cap <= active_count q
                      /\ waiting q' = (if bool_decide (c ∈ waiting q) then waiting q
                                       else waiting q ++ [c]))))
      \/ (cr = [RunTask c (mkQueuedTask tid c)] /\ waiting q' = waiting q /\ act q c = false
          /\ active_count q < cap /\ shutting_down q = false)).
Proof.
  unfold enqueue_task. destruct (shutting_down q) eqn:Hsd.
  { intros [= <- <-]. split; [apply same_book_refl|]. left. auto. }
  rewrite get_group_eq. fold (act q c).
  destruct (existsb _ _).
  { intros [= <- <-]. split; [by apply same_book_put|]. left. auto. }
  destruct (act q c) eqn:Ha.
  { intros [= <- <-]. split.
    - eapply same_book_trans; apply same_book_put; cbn; try done.
      rewrite act_put. by destruct (decide (c = c)).
    - left. auto. }
  destruct (cap <=? _) eqn:E.
  - intros [= <- <-]. split.
    + eapply same_book_trans; [apply same_book_put; by cbn|].
      eapply same_book_trans; [apply same_book_put|apply same_book_append].
      cbn. rewrite act_put. by destruct (decide (c = c)).
    + left. split; [reflexivity|]. right. apply Z.leb_le in E.
      split; [reflexivity|]. split; [reflexivity|]. split; [exact E|].
      unfold append_waiting. cbn [waiting put_group with_groups].
      by destruct (bool_decide _).
  - intros [= <- <-]. split; [by apply same_book_put|].
    right. apply Z.leb_gt in E. auto.
Qed.

Lemma drain_waiting_loop_book w : forall q q' cr,
  drain_waiting_loop cap w q = (q', cr) ->
  same_book q q'
  /\ Forall (fun c => is_unit c = true) cr
  /\ (coro_chat <$> cr) `sublist_of` w
  /\ (active_count q < cap -> waiting q' = [])
  /\ (cap <= active_count q -> waiting q' = w /\ cr = []).
Proof.
  induction w as [|n rest IH]; intros q q' cr; cbn [drain_waiting_loop].
  { intros [= <- <-]. split; [apply same_book_waiting|].
    split; [constructor|]. split; [constructor|]. split; [reflexivity|]. auto. }
  destruct (active_count q <? cap) eqn:E.
  2:{ intros [= <- <-]. apply Z.ltb_ge in E. split; [apply same_book_waiting|].
      split; [constructor|]. split; [apply sublist_nil_l|]. split; [lia|]. auto. }
  apply Z.ltb_lt in E. rewrite get_group_eq.
  set (q1 := put_group (with_waiting rest q) n (state_of (with_waiting rest q) n)).
  assert (Hb1 : same_book q q1).
  { eapply same_book_trans; [apply (same_book_waiting q rest)|].
    by apply same_book_put. }
  destruct (pending_tasks (state_of (with_waiting rest q) n)) as [|t ts] eqn:Et.
  - destruct (pending_messages (state_of (with_waiting rest q) n)).
    + destruct (drain_waiting_loop cap rest q1) as [q2 cr2] eqn:E2.
      intros [= <- <-]. destruct (IH _ _ _ E2) as (B & U & S & W1 & W2).
      split; [eapply same_book_trans; eauto|].
      split; [by constructor|]. split; [cbn; by apply sublist_skip|].
      split; [intros _; apply W1; rewrite (proj1 (proj2 Hb1)); exact E|]. intros ?; exfalso; lia.
    + intros E2. destruct (IH _ _ _ E2) as (B & U & S & W1 & W2).
      split; [eapply same_book_trans; eauto|].
      split; [exact U|]. split; [by apply sublist_cons|].
      split; [intros _; apply W1; rewrite (proj1 (proj2 Hb1)); exact E|]. intros ?; exfalso; lia.
  - set (q2 := put_group q1 n _).
    assert (Hb2 : same_book q q2).
    { eapply same_book_trans; [exact Hb1|]. apply same_book_put. cbn.
      unfold q1. rewrite act_put. by destruct (decide (n = n)). }
    destruct (drain_waiting_loop cap rest q2) as [q3 cr3] eqn:E3.
    intros [= <- <-]. destruct (IH _ _ _ E3) as (B & U & S & W1 & W2).
    split; [eapply same_book_trans; eauto|].
    split; [by constructor|]. split; [cbn; by apply sublist_skip|].
    split; [intros _; apply W1; rewrite (proj1 (proj2 Hb2)); exact E|]. intros ?; exfalso; lia.
Qed.

Lemma drain_group_book q c q' cr :
  drain_group cap q c = (q', cr) ->
  same_book q q' /\ Forall (fun c => is_unit c = true) cr /\ drained c q q' cr.
Proof.
  unfold drain_group. destruct (shutting_down q) eqn:Hsd.
  { intros [= <- <-]. split; [apply same_book_refl|]. split; [constructor|]. left. auto. }
  rewrite get_group_eq.
  set (q1 := put_group q c (state_of q c)).
  assert (Hb1 : same_book q q1) by (by apply same_book_put).
  destruct (pending_tasks (state_of q c)) as [|t ts].
  - destruct (pending_messages (state_of q c)).
    + intros [= <- <-]. split; [exact Hb1|]. split; [by repeat constructor|].
      right. left. eexists. eauto.
    + intros E. destruct (drain_waiting_loop_book _ _ _ _ E) as (B & U & S & W1 & W2).
      split; [eapply same_book_trans; eauto|]. split; [exact U|].
      right. right. auto.
  - intros [= <- <-]. split.
    + eapply same_book_trans; [exact Hb1|]. apply same_book_put. cbn.
      unfold q1. rewrite act_put. by destruct (decide (c = c)).
    + split; [by repeat constructor|]. right. left. eexists. eauto.
Qed.

Lemma finish_book q c q' cr :
  finish cap q c = (q', cr) ->
  (forall g, act q' g = if decide (c = g) then false else act q g)
  /\ active_count q' = active_count q - 1
  /\ shutting_down q' = shutting_down q
  /\ has_process_messages_fn q' = has_process_messages_fn q
  /\ Forall (fun c => is_unit c = true) cr
  /\ drained c (with_active_count (active_count q - 1) q) q' cr.
Proof.
  unfold finish. rewrite get_group_eq. intros E.
  destruct (drain_group_book _ _ _ _ E) as ((A1 & A2 & A3 & A4) & U & D).
  split; [|split; [exact A2|split; [exact A3|split; [exact A4|split; [exact U|exact D]]]]].
  intros g. rewrite A1. unfold act.
  change (state_of (with_active_count ?n ?x) g) with (state_of x g).
  rewrite !state_of_put. destruct (decide (c = g)); reflexivity.
Qed.

Lemma schedule_retry_book q c :
  same_book q (fst (schedule_retry q c))
  /\ waiting (fst (schedule_retry q c)) = waiting q
  /\ units (snd (schedule_retry q c)) = [].
Proof.
  unfold schedule_retry. rewrite get_group_eq.
  destruct (MAX_RETRIES <? _); cbn [fst snd]; (split; [|split; reflexivity]).
  all: eapply same_book_trans; apply same_book_put; cbn; try done.
  all: rewrite act_put; by destruct (decide (c = c)).
Qed.

Lemma before_finish_book q c o :
  let r := match o with
           | Success => let '(state, q0) := get_group q c in
                        (put_group q0 c (with_retry_count 0 state), [])
           | _ => schedule_retry q c
           end in
  same_book q (fst r) /\ waiting (fst r) = waiting q /\ units (snd r) = [].
Proof.
  destruct o; cbv zeta; try apply schedule_retry_book.
  rewrite get_group_eq. cbn [fst snd]. split; [|split; reflexivity].
  eapply same_book_trans; apply same_book_put; cbn; try done.
  rewrite act_put; by destruct (decide (c = c)).
Qed.

Lemma run_for_group_resume_book q c o q' cr :
  run_for_group_resume cap q c o = (q', cr) ->
  (forall g, act q' g = if decide (c = g) then false else act q g)
  /\ active_count q' = active_count q - 1
  /\ shutting_down q' = shutting_down q
  /\ has_process_messages_fn q' = has_process_messages_fn q
  /\ drained c (with_active_count (active_count q - 1) q) q' (units cr).
Proof.
  unfold run_for_group_resume.
  pose proof (before_finish_book q c o) as H. cbv zeta in H.
  destruct (match o with Success => _ | _ => _ end) as [q1 rs].
  cbn [fst snd] in H. destruct H as ((A1 & A2 & A3 & A4) & Hw & Hrs).
  destruct (finish cap q1 c) as [q2 cr2] eqn:E. intros [= <- <-].
  destruct (finish_book _ _ _ _ E) as (F1 & F2 & F3 & F4 & U & D).
  split; [intros g; rewrite F1; destruct (decide (c = g)); auto|].
  split; [lia|]. split; [congruence|]. split; [congruence|].
  rewrite units_app, Hrs, (units_units _ U). cbn [app].
  unfold GroupQueue.drained in *. cbn [waiting active_count shutting_down with_active_count] in *.
  rewrite Hw, A2, A3 in D. exact D.
Qed.

Lemma units_cons c l : units (c :: l) = if is_unit c then c :: units l else units l.
Proof.
  unfold units. rewrite filter_cons. destruct (is_unit c) eqn:E.
  - by rewrite decide_True.
  - by rewrite decide_False.
Qed.

Lemma cnt_cons g c l : cnt g (c :: l) = ((if is_unit_of g c then 1 else 0) + cnt g l)%nat.
Proof.
  unfold cnt, is_unit_of. rewrite units_cons. destruct (is_unit c); cbn [andb].
  - rewrite filter_cons. case_bool_decide.
    + by rewrite decide_True.
    + by rewrite decide_False.
  - reflexivity.
Qed.

Lemma cnt_app g l1 l2 : cnt g (l1 ++ l2) = (cnt g l1 + cnt g l2)%nat.
Proof. unfold cnt. by rewrite units_app, filter_app, length_app. Qed.

Lemma cnt_remove_nth g l i c :
  l !! i = Some c ->
  (cnt g (remove_nth i l) + (if is_unit_of g c then 1 else 0) = cnt g l)%nat.
Proof.
  intros H. unfold remove_nth. rewrite <- (take_drop_middle l i c H) at 3.
  rewrite !cnt_app, cnt_cons. lia.
Qed.

Lemma cnt_not_in g l : g ∉ unit_chats l -> cnt g l = 0%nat.
Proof.
  induction l as [|c l IH]; [reflexivity|]. unfold unit_chats. rewrite units_cons, cnt_cons.
  unfold is_unit_of. destruct (is_unit c); cbn [andb]; [|exact IH].
  rewrite fmap_cons. intros H. apply not_elem_of_cons in H as [H1 H2].
  rewrite bool_decide_eq_false_2 by congruence. by rewrite IH.
Qed.

Lemma cnt_nodup g l :
  NoDup (unit_chats l) ->
  cnt g l = if bool_decide (g ∈ unit_chats l) then 1%nat else 0%nat.
Proof.
  induction l as [|c l IH]; [reflexivity|]. unfold unit_chats. rewrite units_cons, cnt_cons.
  unfold is_unit_of. destruct (is_unit c); cbn [andb]; [|exact IH].
  rewrite fmap_cons. intros H. apply NoDup_cons in H as [H1 H2].
  destruct (decide (coro_chat c = g)) as [<-|Hne].
  - rewrite (cnt_not_in _ _ H1), bool_decide_eq_true_2 by reflexivity.
    rewrite bool_decide_eq_true_2 by (apply elem_of_cons; auto). reflexivity.
  - rewrite (IH H2), bool_decide_eq_false_2 by exact Hne.
    assert (Hiff : g ∈ coro_chat c :: (coro_chat <$> units l) <-> g ∈ unit_chats l)
      by (rewrite elem_of_cons; unfold unit_chats;
          split; [intros [?|?]; [congruence|done]|auto]).
    by rewrite (bool_decide_ext _ _ Hiff).
Qed.

(** Starting created coroutines *)
Lemma start_one_book q c :
  (forall g, act (start_one q c) g = act q g || is_unit_of g c)
  /\ active_count (start_one q c) = active_count q + (if is_unit c then 1 else 0)
  /\ waiting (start_one q c) = waiting q
  /\ shutting_down (start_one q c) = shutting_down q
  /\ has_process_messages_fn (start_one q c) = has_process_messages_fn q.
Proof.
  destruct c as [c r|c t|c d]; cbn [start_one is_unit].
  - unfold run_for_group_begin. rewrite get_group_eq.
    split; [|repeat split].
    intros g. unfold act, is_unit_of. cbn [is_unit coro_chat andb].
    change (state_of (with_active_count ?n ?x) g) with (state_of x g).
    rewrite !state_of_put. case_bool_decide; destruct (decide (c = g)); try congruence.
    + cbn. by rewrite orb_true_r.
    + by rewrite orb_false_r.
  - unfold run_task_begin. rewrite get_group_eq.
    split; [|repeat split].
    intros g. unfold act, is_unit_of. cbn [is_unit coro_chat andb].
    change (state_of (with_active_count ?n ?x) g) with (state_of x g).
    rewrite !state_of_put. case_bool_decide; destruct (decide (c = g)); try congruence.
    + cbn. by rewrite orb_true_r.
    + by rewrite orb_false_r.
  - split; [|split; [lia|repeat split]]. intros g. unfold is_unit_of. cbn.
    by rewrite orb_false_r.
Qed.

Lemma start_all_book cr : forall q,
  (forall g, act (fold_left start_one cr q) g
              = act q g || bool_decide (g ∈ unit_chats cr))
  /\ active_count (fold_left start_one cr q) = active_count q + count_units cr
  /\ waiting (fold_left start_one cr q) = waiting q
  /\ shutting_down (fold_left start_one cr q) = shutting_down q
  /\ has_process_messages_fn (fold_left start_one cr q) = has_process_messages_fn q.
Proof.
  induction cr as [|c cr IH]; intros q; cbn [fold_left].
  - split; [|repeat split; unfold count_units; cbn; lia].
    intros g. cbn. by rewrite orb_false_r.
  - destruct (IH (start_one q c)) as (A1 & A2 & A3 & A4 & A5).
    destruct (start_one_book q c) as (B1 & B2 & B3 & B4 & B5).
    split; [|split; [|repeat split; congruence]].
    + intros g. rewrite A1, B1, <- orb_assoc. f_equal.
      unfold unit_chats, is_unit_of. rewrite units_cons.
      destruct (is_unit c); cbn [andb]; [|reflexivity].
      rewrite fmap_cons.
      destruct (bool_decide (coro_chat c = g)) eqn:E1.
      * apply bool_decide_eq_true in E1. symmetry. apply bool_decide_eq_true.
        apply elem_of_cons. auto.
      * apply bool_decide_eq_false in E1. cbn [orb]. apply bool_decide_ext.
        rewrite elem_of_cons. split; [auto|]. intros [?|?]; [congruence|done].
    + rewrite A2, B2, count_units_cons. lia.
Qed.

Lemma settle_spec : forall rd q sp,
  has_process_messages_fn q = true ->
  settle (mkWorld q rd sp) = Some (mkWorld (fold_left start_one rd q) [] (sp ++ rd)).
Proof.
  unfold GroupQueue.settle. cbn [ready].
  induction rd as [|c rd IH]; intros q sp Hfn; cbn [length replicate run fold_left].
  - by rewrite app_nil_r.
  - destruct (start_one_book q c) as (_ & _ & _ & _ & B5).
    destruct c as [c r|c t|c d]; cbn [step ready queue suspended start_one] in *.
    + rewrite B5, Hfn. rewrite IH by congruence. by rewrite <- app_assoc.
    + rewrite IH by congruence. by rewrite <- app_assoc.
    + rewrite IH by congruence. by rewrite <- app_assoc.
Qed.

Lemma settle_inv q cr sp :
  has_process_messages_fn q = true ->
  (forall g, cnt g sp = if act q g then 1%nat else 0%nat) ->
  NoDup (unit_chats cr) ->
  (forall g, g ∈ unit_chats cr -> act q g = false) ->
  NoDup (waiting q) ->
  (forall g, g ∈ waiting q -> act q g = false /\ g ∉ unit_chats cr) ->
  (shutting_down q = true \/ waiting q = [] \/ cap <= active_count q + count_units cr) ->
  exists w', settle (mkWorld q cr sp) = Some w' /\ prompt_inv w'.
Proof.
  intros Hfn P1 P2 P3 P4 P5 P6. rewrite settle_spec by exact Hfn.
  eexists. split; [reflexivity|].
  destruct (start_all_book cr q) as (A1 & A2 & A3 & A4 & A5).
  constructor; cbn [queue ready suspended].
  - congruence.
  - reflexivity.
  - intros g. rewrite cnt_app, P1, A1, (cnt_nodup _ _ P2).
    case_bool_decide as E.
    + rewrite (P3 _ E). reflexivity.
    + rewrite orb_false_r. destruct (act q g); reflexivity.
  - by rewrite A3.
  - intros g. rewrite A3, A1. intros Hg. destruct (P5 _ Hg) as [-> Hn].
    by rewrite bool_decide_eq_false_2.
  - rewrite A2, A3, A4. exact P6.
Qed.

Lemma count_units_nil : count_units [] = 0.
Proof. reflexivity. Qed.

Lemma after_enqueue c q sp q1 cr :
  has_process_messages_fn q = true ->
  (forall g, cnt g sp = if act q g then 1%nat else 0%nat) ->
  NoDup (waiting q) ->
  (forall g, g ∈ waiting q -> act q g = false) ->
  (shutting_down q = true \/ waiting q = [] \/ cap <= active_count q) ->
  enqueued c q q1 cr ->
  exists w', settle (mkWorld q1 cr sp) = Some w' /\ prompt_inv w'.
Proof.
  intros Hfn P1 Hnd Hidle Hfull ((A1 & A2 & A3 & A4) & Hshape).
  apply settle_inv.
  - congruence.
  - intros g. by rewrite A1.
  - destruct Hshape as [[-> _]|(u & -> & Hu & _)].
    + constructor.
    + unfold unit_chats. rewrite units_cons, Hu. cbn. apply NoDup_singleton.
  - intros g. rewrite A1.
    destruct Hshape as [[-> _]|(u & -> & Hu & Hc & _ & Ha & _)].
    + intros H. inversion H.
    + unfold unit_chats. rewrite units_cons, Hu. cbn. intros H.
      apply list_elem_of_singleton in H. congruence.
  - destruct Hshape as [[_ [->|(_ & _ & _ & ->)]]|(u & _ & _ & _ & -> & _)]; auto.
    case_bool_decide; [exact Hnd|]. apply NoDup_app. split; [exact Hnd|].
    split; [|apply NoDup_singleton].
    intros x Hx Hx'. apply list_elem_of_singleton in Hx'. congruence.
  - intros g Hg. rewrite A1.
    destruct Hshape as [[-> [Hw|(_ & Ha & _ & Hw)]]|(u & -> & Hu & Hc & Hw & Ha & Hlt & Hsd)].
    + rewrite Hw in Hg. split; [auto|]. intros H. inversion H.
    + split; [|intros H; inversion H]. rewrite Hw in Hg.
      case_bool_decide; [auto|]. apply elem_of_app in Hg as [Hg|Hg]; [auto|].
      apply list_elem_of_singleton in Hg. congruence.
    + rewrite Hw in Hg. exfalso.
      destruct Hfull as [H|[H|H]]; [congruence| |lia].
      rewrite H in Hg. inversion Hg.
  - rewrite A2, A3.
    destruct Hshape as [[-> [Hw|(_ & _ & Hle & Hw)]]|(u & -> & Hu & Hc & Hw & Ha & Hlt & Hsd)].
    + rewrite Hw, count_units_nil, Z.add_0_r. exact Hfull.
    + right. right. rewrite count_units_nil. lia.
    + rewrite Hw. destruct Hfull as [H|[H|H]]; [congruence|auto|lia].
Qed.

Lemma after_completion c q sp i co q1 cr :
  has_process_messages_fn q = true ->
  (forall g, cnt g sp = if act q g then 1%nat else 0%nat) ->
  NoDup (waiting q) ->
  (forall g, g ∈ waiting q -> act q g = false) ->
  (shutting_down q = true \/ waiting q = [] \/ cap <= active_count q) ->
  sp !! i = Some co -> is_unit co = true -> coro_chat co = c ->
  (forall g, act q1 g = if decide (c = g) then false else act q g) ->
  active_count q1 = active_count q - 1 ->
  shutting_down q1 = shutting_down q ->
  has_process_messages_fn q1 = has_process_messages_fn q ->
  drained c (with_active_count (active_count q - 1) q) q1 (units cr) ->
  exists w', settle (mkWorld q1 cr (remove_nth i sp)) = Some w' /\ prompt_inv w'.
Proof.
  intros Hfn P1 Hnd Hidle Hfull Hi Hu Hc A1 A2 A3 A4 D.
  assert (Hactc : act q c = true).
  { pose proof (cnt_remove_nth c sp i co Hi) as H. unfold is_unit_of in H.
    rewrite Hu, bool_decide_eq_true_2 in H by exact Hc. cbn in H.
    specialize (P1 c). destruct (act q c); [reflexivity|]. lia. }
  assert (Hcw : c ∉ waiting q).
  { intros H. apply Hidle in H. congruence. }
  assert (Hidle1 : forall g, g ∈ waiting q -> act q1 g = false).
  { intros g Hg. rewrite A1. destruct (decide (c = g)); auto. }
  unfold GroupQueue.drained in D. cbn [waiting active_count shutting_down with_active_count] in D.
  apply settle_inv.
  - congruence.
  - intros g. rewrite A1. pose proof (cnt_remove_nth g sp i co Hi) as H.
    unfold is_unit_of in H. rewrite Hu in H. cbn [andb] in H.
    destruct (decide (c = g)) as [<-|Hne].
    + rewrite bool_decide_eq_true_2 in H by exact Hc. specialize (P1 c).
      rewrite Hactc in P1. lia.
    + rewrite bool_decide_eq_false_2 in H by congruence. rewrite <- P1. lia.
  - unfold unit_chats.
    destruct D as [(-> & _)|[(u & -> & _)|(Hs & _)]].
    + constructor.
    + apply NoDup_singleton.
    + eapply sublist_NoDup; eauto.
  - intros g. unfold unit_chats. rewrite A1.
    destruct D as [(-> & _)|[(u & -> & Hcu & _)|(Hs & _)]].
    + intros H. inversion H.
    + cbn. intros H. apply list_elem_of_singleton in H. subst g.
      by rewrite decide_True.
    + intros H. destruct (decide (c = g)); [reflexivity|].
      apply Hidle. eapply sublist_subseteq; eauto.
  - destruct D as [(_ & -> & _)|[(u & _ & _ & ->)|(_ & W1 & W2)]]; auto.
    destruct (Z.lt_ge_cases (active_count q - 1) cap) as [H|H].
    + rewrite (W1 H). constructor.
    + by rewrite (proj1 (W2 H)).
  - intros g Hg. unfold unit_chats.
    destruct D as [(-> & Hw & _)|[(u & -> & Hcu & Hw)|(Hs & W1 & W2)]].
    + rewrite Hw in Hg. split; [auto|]. intros H. inversion H.
    + rewrite Hw in Hg. split; [auto|]. cbn. intros H.
      apply list_elem_of_singleton in H. congruence.
    + destruct (Z.lt_ge_cases (active_count q - 1) cap) as [H|H].
      * rewrite (W1 H) in Hg. inversion Hg.
      * destruct (W2 H) as [Hw ->]. rewrite Hw in Hg. split; [auto|].
        intros H'. inversion H'.
  - rewrite A2, A3. unfold count_units.
    destruct D as [(-> & Hw & Hsd)|[(u & -> & Hcu & Hw)|(Hs & W1 & W2)]].
    + auto.
    + rewrite Hw. cbn. destruct Hfull as [H|[H|H]]; auto. right. right. lia.
    + destruct (Z.lt_ge_cases (active_count q - 1) cap) as [H|H].
      * right. left. auto.
      * destruct (W2 H) as [Hw ->]. right. right. cbn. lia.
Qed.

Lemma register_process_book q c p cn fo :
  same_book q (register_process q c p cn fo)
  /\ waiting (register_process q c p cn fo) = waiting q.
Proof.
  unfold register_process. rewrite get_group_eq. split; [|reflexivity].
  eapply same_book_trans; apply same_book_put; cbn; try done.
  rewrite act_put. by destruct (decide (c = c)).
Qed.

Lemma prompt_step_total w e :
  prompt_inv w -> enabled w e -> exists w', prompt_step w e = Some w' /\ prompt_inv w'.
Proof.
  destruct w as [q rd sp]. intros [Hfn Hrd P1 Hnd Hidle Hfull] Hen.
  cbn [queue ready suspended] in *. subst rd.
  destruct e as [c|c tid|c p cn fo| | |i o]; cbn [GroupQueue.prompt_step step queue ready suspended app].
  - destruct (enqueue_message_check cap q c) as [q1 cr] eqn:E.
    destruct (enqueue_message_check_book _ _ _ _ E) as [B S].
    destruct (after_enqueue c q sp q1 cr Hfn P1 Hnd Hidle Hfull) as (w1 & -> & Hinv).
    { split; [exact B|]. destruct S as [S|(-> & S)]; [by left|].
      right. eexists. split; [reflexivity|]. auto. }
    eauto.
  - destruct (enqueue_task cap q c tid) as [q1 cr] eqn:E.
    destruct (enqueue_task_book _ _ _ _ _ E) as [B S].
    destruct (after_enqueue c q sp q1 cr Hfn P1 Hnd Hidle Hfull) as (w1 & -> & Hinv).
    { split; [exact B|]. destruct S as [S|(-> & S)]; [by left|].
      right. eexists. split; [reflexivity|]. auto. }
    eauto.
  - destruct (register_process_book q c p cn fo) as [B Hw].
    destruct (after_enqueue c q sp (register_process q c p cn fo) [] Hfn P1 Hnd Hidle Hfull)
      as (w1 & -> & Hinv).
    { split; [exact B|]. left. auto. }
    eauto.
  - destruct (settle_inv (shutdown q) [] sp) as (w1 & -> & Hinv); auto.
    + constructor.
    + intros g H. inversion H.
    + intros g Hg. split; [by apply Hidle|]. intros H. inversion H.
    + eauto.
  - destruct Hen.
  - cbn [enabled suspended] in Hen.
    destruct (sp !! i) as [[c r|c t|c d]|] eqn:Ei; [| | |by destruct Hen].
    + destruct (run_for_group_resume cap q c o) as [q1 cr] eqn:E.
      destruct (run_for_group_resume_book _ _ _ _ _ E) as (A1 & A2 & A3 & A4 & D).
      destruct (after_completion c q sp i (RunForGroup c r) q1 cr
                  Hfn P1 Hnd Hidle Hfull Ei eq_refl eq_refl A1 A2 A3 A4 D)
        as (w1 & -> & Hinv).
      eauto.
    + unfold run_task_resume. destruct (finish cap q c) as [q1 cr] eqn:E.
      destruct (finish_book _ _ _ _ E) as (A1 & A2 & A3 & A4 & U & D).
      rewrite <- (units_units _ U) in D.
      destruct (after_completion c q sp i (RunTask c t) q1 cr
                  Hfn P1 Hnd Hidle Hfull Ei eq_refl eq_refl A1 A2 A3 A4 D)
        as (w1 & -> & Hinv).
      eauto.
    + assert (P1' : forall g, cnt g (remove_nth i sp) = if act q g then 1%nat else 0%nat).
      { intros g. rewrite <- P1. pose proof (cnt_remove_nth g sp i _ Ei) as H.
        unfold is_unit_of in H. cbn in H. lia. }
      destruct (shutting_down q) eqn:Hsd.
      * assert (Hfull' : shutting_down q = true \/ waiting q = [] \/ cap <= active_count q)
          by (left; exact Hsd).
        destruct (after_enqueue c q (remove_nth i sp) q [] Hfn P1' Hnd Hidle Hfull')
          as (w1 & -> & Hinv).
        { split; [apply same_book_refl|]. left. auto. }
        eauto.
      * assert (Hfull' : shutting_down q = true \/ waiting q = [] \/ cap <= active_count q)
          by (destruct Hfull as [?|?]; [discriminate|right; assumption]).
        destruct (enqueue_message_check cap q c) as [q1 cr] eqn:E.
        destruct (enqueue_message_check_book _ _ _ _ E) as [B S].
        destruct (after_enqueue c q (remove_nth i sp) q1 cr Hfn P1' Hnd Hidle Hfull')
          as (w1 & -> & Hinv).
        { split; [exact B|]. destruct S as [S|(-> & S)]; [by left|].
          right. eexists. split; [reflexivity|]. auto. }
        eauto.
Qed.

Lemma prompt_step_inv w e w' :
  prompt_inv w -> prompt_step w e = Some w' -> prompt_inv w'.
Proof.
  intros Hinv H.
  assert (Hen : enabled w e).
  { destruct e; cbn [enabled]; try done; cbn [GroupQueue.prompt_step step] in H.
    destruct (suspended w !! i); [eauto|discriminate]. }
  destruct (prompt_step_total w e Hinv Hen) as (w1 & E & Hinv1). congruence.
Qed.

Lemma prompt_inv_new : prompt_inv new_World.
Proof.
  constructor; cbn; auto. constructor.
Qed.

Lemma prompt_run_inv es : forall w w',
  prompt_inv w -> prompt_run w es = Some w' -> prompt_inv w'.
Proof.
  induction es as [|e es IH]; intros w w' Hinv; cbn [GroupQueue.prompt_run].
  - by intros [= <-].
  - destruct (prompt_step w e) as [w1|] eqn:E; [|discriminate].
    apply IH. eapply prompt_step_inv; eauto.
Qed.

(** X2: when every created coroutine takes its first step before the next
    call into the queue, a group never has two units of work in progress. *)
Lemma prompt_starts_one_unit_per_group es w (g : string) :
  prompt_run new_World es = Some w -> (length (active_units_of g w) <= 1)%nat.
Proof.
  intros H. pose proof (prompt_run_inv es _ _ prompt_inv_new H) as Hinv.
  pose proof (pi_units _ _ Hinv g) as Hg.
  change (length (active_units_of g w)) with (cnt g (suspended w)).
  rewrite Hg. destruct (act (queue w) g); lia.
Qed.

(** X1: on every world the event loop can reach, the counter is the number
    of units of work in progress. *)
Lemma reachable_accounted es w : run cap new_World es = Some w -> accounted w.
Proof. intros H. eapply run_accounted; [exact H|]. reflexivity. Qed.

End Cap.

(** ** Invariants of the event loop, on every schedule *)

Section AfterShutdown.
Variable cap : Z.

Lemma enqueue_message_check_shutting q c :
  shutting_down q = true -> enqueue_message_check cap q c = (q, []).
Proof. intros H. unfold enqueue_message_check. by rewrite H. Qed.

Lemma enqueue_task_shutting q c t :
  shutting_down q = true -> enqueue_task cap q c t = (q, []).
Proof. intros H. unfold enqueue_task. by rewrite H. Qed.

Lemma count_units_units l : count_units (units l) = count_units l.
Proof.
  unfold count_units. f_equal. f_equal. unfold units.
  induction l as [|c l IH]; [reflexivity|].
  rewrite !filter_cons. destruct (decide (is_unit c = true)) as [E|E].
  - rewrite filter_cons, decide_True by exact E. by rewrite IH.
  - exact IH.
Qed.

Lemma step_after_shutdown w e w' :
  shutting_down (queue w) = true ->
  step cap w e = Some w' ->
  shutting_down (queue w') = true /\ in_flight w' <= in_flight w.
Proof.
  destruct w as [q rd sp]. unfold in_flight. cbn [queue ready suspended]. intros Hsd.
  destruct e as [c|c tid|c p cn fo| | |i o]; cbn [step queue ready suspended].
  - rewrite enqueue_message_check_shutting by exact Hsd. intros [= <-].
    cbn [queue ready suspended]. rewrite app_nil_r. split; [exact Hsd|lia].
  - rewrite enqueue_task_shutting by exact Hsd. intros [= <-].
    cbn [queue ready suspended]. rewrite app_nil_r. split; [exact Hsd|lia].
  - intros [= <-]. cbn [queue ready suspended].
    split; [|lia]. destruct (register_process_book q c p cn fo) as [(_ & _ & -> & _) _].
    exact Hsd.
  - intros [= <-]. split; [reflexivity|cbn [queue ready suspended]; lia].
  - destruct rd as [|[c r|c t|c d] rest]; [discriminate| | |].
    + destruct (start_one_book q (RunForGroup c r)) as (_ & _ & _ & B4 & _).
      cbn [start_one] in B4.
      destruct (has_process_messages_fn _).
      * intros [= <-]. cbn [queue ready suspended]. split; [congruence|].
        rewrite count_units_app, !count_units_cons. cbn [is_unit].
        rewrite count_units_nil. lia.
      * pose proof (finish_shutting_down cap (run_for_group_begin q c) c
                      ltac:(congruence)) as Hf.
        destruct (finish cap _ c) as [q1 cr] eqn:E. cbn [snd] in Hf. subst cr.
        destruct (finish_book _ _ _ _ _ E) as (_ & _ & F3 & _).
        intros [= <-]. cbn [queue ready suspended]. split; [congruence|].
        rewrite app_nil_r, count_units_cons. cbn [is_unit]. lia.
    + destruct (start_one_book q (RunTask c t)) as (_ & _ & _ & B4 & _).
      cbn [start_one] in B4.
      intros [= <-]. cbn [queue ready suspended]. split; [congruence|].
      rewrite count_units_app, !count_units_cons. cbn [is_unit].
      rewrite count_units_nil. lia.
    + intros [= <-]. cbn [queue ready suspended]. split; [exact Hsd|].
      rewrite count_units_app, !count_units_cons. cbn [is_unit].
      rewrite count_units_nil. lia.
  - destruct (sp !! i) as [[c r|c t|c d]|] eqn:Ei; [| | |discriminate].
    + pose proof (resume_shutting_down cap q c o Hsd) as Hu.
      destruct (run_for_group_resume cap q c o) as [q1 cr] eqn:E.
      destruct (run_for_group_resume_book _ _ _ _ _ _ E) as (_ & _ & F3 & _).
      cbn [snd] in Hu.
      intros [= <-]. cbn [queue ready suspended]. split; [congruence|].
      rewrite count_units_app, (count_units_remove_nth _ _ _ Ei).
      rewrite <- (count_units_units cr), Hu, count_units_nil. cbn [is_unit]. lia.
    + unfold run_task_resume.
      pose proof (finish_shutting_down cap q c Hsd) as Hf.
      destruct (finish cap q c) as [q1 cr] eqn:E. cbn [snd] in Hf. subst cr.
      destruct (finish_book _ _ _ _ _ E) as (_ & _ & F3 & _).
      intros [= <-]. cbn [queue ready suspended]. split; [congruence|].
      rewrite app_nil_r, (count_units_remove_nth _ _ _ Ei). cbn [is_unit]. lia.
    + rewrite Hsd. intros [= <-]. cbn [queue ready suspended]. split; [exact Hsd|].
      rewrite app_nil_r, (count_units_remove_nth _ _ _ Ei). cbn [is_unit]. lia.
Qed.

Lemma elem_of_units c l : (c ∈ units l) <-> ((is_unit c = true) /\ (c ∈ l)).
Proof. unfold units. by rewrite list_elem_of_filter. Qed.

Lemma units_nil l : units l = [] <-> Forall (fun c => is_unit c = false) l.
Proof.
  unfold units. induction l as [|c l IH]; [by split|].
  rewrite filter_cons, Forall_cons. destruct (decide (is_unit c = true)) as [E|E].
  - split; [discriminate|]. intros [H _]. congruence.
  - rewrite IH. split; [|tauto]. intros H. split; [|exact H].
    by destruct (is_unit c).
Qed.

Lemma elem_of_remove_nth {A} (x : A) i l : x ∈ remove_nth i l -> x ∈ l.
Proof.
  unfold remove_nth. intros H. apply elem_of_app in H as [H|H].
  - eapply elem_of_sublist; [exact H|apply sublist_take].
  - eapply elem_of_sublist; [exact H|apply sublist_drop].
Qed.

Lemma no_unit_created_trans w1 w2 w3 :
  no_unit_created w1 w2 -> no_unit_created w2 w3 -> no_unit_created w1 w3.
Proof.
  intros [(k1 & t1 & E1 & U1) S1] [(k2 & t2 & E2 & U2) S2]. split.
  - exists (k1 + k2)%nat, (drop (k2 - length (drop k1 (ready w1))) t1 ++ t2).
    split.
    + rewrite E2, E1, drop_app, drop_drop, app_assoc. reflexivity.
    + rewrite units_app, U2, app_nil_r. apply units_nil, Forall_drop. by apply units_nil.
  - intros c Hc. destruct (S2 c Hc) as [H|H].
    + apply S1. apply elem_of_units. split; [|exact H]. by apply elem_of_units in Hc as [? _].
    + right. rewrite E1 in H. apply elem_of_app in H as [H|H].
      * eapply elem_of_sublist; [exact H|apply sublist_drop].
      * apply elem_of_units in Hc as [Hu _]. apply units_nil in U1.
        rewrite Forall_forall in U1. specialize (U1 c H). congruence.
Qed.

(** A step that appends only timers to the ready queue and starts nothing. *)
Lemma only_timers w q sp' timers :
  units timers = [] ->
  (forall c, c ∈ units sp' -> c ∈ suspended w \/ c ∈ ready w) ->
  no_unit_created w (mkWorld q (ready w ++ timers) sp').
Proof.
  intros Ht Hs. split; [|exact Hs]. exists 0%nat, timers. by rewrite drop_0.
Qed.

Lemma step_creates_no_unit w e w' :
  shutting_down (queue w) = true ->
  step cap w e = Some w' ->
  no_unit_created w w'.
Proof.
  destruct w as [q rd sp]. cbn [queue]. intros Hsd.
  assert (Hsame : forall c, c ∈ units sp -> c ∈ sp \/ c ∈ rd).
  { intros c Hc. left. by apply elem_of_units in Hc as [_ ?]. }
  assert (Hless : forall i c, c ∈ units (remove_nth i sp) -> c ∈ sp \/ c ∈ rd).
  { intros i c Hc. left. apply elem_of_units in Hc as [_ Hc]. by apply elem_of_remove_nth in Hc. }
  assert (Hmore : forall c0 rest c, rd = c0 :: rest -> c ∈ units (sp ++ [c0]) -> c ∈ sp \/ c ∈ rd).
  { intros c0 rest c -> Hc. apply elem_of_units in Hc as [_ Hc].
    apply elem_of_app in Hc as [Hc|Hc]; [by left|right].
    apply list_elem_of_singleton in Hc as ->. by left. }
  destruct e as [c|c tid|c p cn fo| | |i o]; cbn [step queue ready suspended].
  - rewrite enqueue_message_check_shutting by exact Hsd. intros [= <-].
    by apply (only_timers (mkWorld q rd sp)).
  - rewrite enqueue_task_shutting by exact Hsd. intros [= <-].
    by apply (only_timers (mkWorld q rd sp)).
  - intros [= <-]. split; [exists 0%nat, []; by rewrite app_nil_r|exact Hsame].
  - intros [= <-]. split; [exists 0%nat, []; by rewrite app_nil_r|exact Hsame].
  - destruct rd as [|c0 rest] eqn:Erd; [discriminate|].
    assert (Hstart : forall q', no_unit_created (mkWorld q (c0 :: rest) sp)
                                  (mkWorld q' rest (sp ++ [c0]))).
    { intros q'. split; [exists 1%nat, []; by rewrite app_nil_r|].
      cbn [suspended ready]. intros c Hc. by apply (Hmore c0 rest). }
    destruct c0 as [c r|c t|c d].
    + destruct (has_process_messages_fn _).
      * intros [= <-]. apply Hstart.
      * pose proof (finish_shutting_down cap (run_for_group_begin q c) c) as Hf.
        destruct (start_one_book q (RunForGroup c r)) as (_ & _ & _ & B4 & _).
        cbn [start_one] in B4. rewrite B4 in Hf. specialize (Hf Hsd).
        destruct (finish cap _ c) as [q1 cr]. cbn [snd] in Hf. subst cr.
        intros [= <-]. split; [exists 1%nat, []; split; reflexivity|].
        cbn [suspended ready]. intros c0 Hc. left. by apply elem_of_units in Hc as [_ ?].
    + intros [= <-]. apply Hstart.
    + intros [= <-]. apply Hstart.
  - destruct (sp !! i) as [[c r|c t|c d]|] eqn:Ei; [| | |discriminate].
    + pose proof (resume_shutting_down cap q c o Hsd) as Hu.
      destruct (run_for_group_resume cap q c o) as [q1 cr]. cbn [snd] in Hu.
      intros [= <-]. apply (only_timers (mkWorld q rd sp)); [exact Hu|apply Hless].
    + unfold run_task_resume.
      pose proof (finish_shutting_down cap q c Hsd) as Hf.
      destruct (finish cap q c) as [q1 cr]. cbn [snd] in Hf. subst cr.
      intros [= <-]. apply (only_timers (mkWorld q rd sp)); [reflexivity|apply Hless].
    + rewrite Hsd. intros [= <-]. apply (only_timers (mkWorld q rd sp)); [reflexivity|apply Hless].
Qed.

(** X3: once [shutdown] has been called, whatever happens next, the flag stays
    set and no unit of work is created: nothing but retry timers is ever
    appended to the ready queue, so the units that are ready or in progress
    afterwards were ready or in progress before, and their number never
    grows. *)
Lemma shutdown_starts_nothing es : forall w w',
  shutting_down (queue w) = true ->
  run cap w es = Some w' ->
  shutting_down (queue w') = true
  /\ no_unit_created w w'
  /\ in_flight w' <= in_flight w.
Proof.
  induction es as [|e es IH]; intros w w' Hsd; cbn [run].
  - intros [= <-]. split; [exact Hsd|]. split; [|lia].
    split; [exists 0%nat, []; by rewrite app_nil_r|].
    intros c Hc. left. by apply elem_of_units in Hc as [_ ?].
  - destruct (step cap w e) as [w1|] eqn:E; [|discriminate]. intros Hr.
    destruct (step_after_shutdown _ _ _ Hsd E) as [Hsd1 Hle].
    pose proof (step_creates_no_unit _ _ _ Hsd E) as Hn1.
    destruct (IH _ _ Hsd1 Hr) as (Hsd2 & Hn2 & Hle2).
    split; [exact Hsd2|]. split; [|lia]. eapply no_unit_created_trans; eauto.
Qed.

End AfterShutdown.

Section WaitingList.
Variable cap : Z.

Lemma drained_waiting c q q' us :
  drained cap c q q' us -> waiting q' = waiting q \/ waiting q' = [].
Proof.
  intros [(_ & H & _)|[(u & _ & _ & H)|(_ & W1 & W2)]]; auto.
  destruct (Z.lt_ge_cases (active_count q) cap) as [H|H]; [right; auto|].
  left. by apply W2.
Qed.

Lemma enqueued_nodup c q q1 cr :
  enqueued cap c q q1 cr -> NoDup (waiting q) -> NoDup (waiting q1).
Proof.
  intros (_ & [[_ [->|(_ & _ & _ & ->)]]|(u & _ & _ & _ & -> & _)]) Hnd; auto.
  case_bool_decide; [exact Hnd|]. apply NoDup_app. split; [exact Hnd|].
  split; [|apply NoDup_singleton].
  intros x Hx Hx'. apply list_elem_of_singleton in Hx'. congruence.
Qed.

Lemma enqueue_message_check_enqueued q c q1 cr :
  enqueue_message_check cap q c = (q1, cr) -> enqueued cap c q q1 cr.
Proof.
  intros E. destruct (enqueue_message_check_book _ _ _ _ _ E) as [B S].
  split; [exact B|]. destruct S as [S|(-> & S)]; [by left|].
  right. eexists. split; [reflexivity|]. auto.
Qed.

Lemma enqueue_task_enqueued q c tid q1 cr :
  enqueue_task cap q c tid = (q1, cr) -> enqueued cap c q q1 cr.
Proof.
  intros E. destruct (enqueue_task_book _ _ _ _ _ _ E) as [B S].
  split; [exact B|]. destruct S as [S|(-> & S)]; [by left|].
  right. eexists. split; [reflexivity|]. auto.
Qed.

Lemma step_waiting_nodup w e w' :
  step cap w e = Some w' -> NoDup (waiting (queue w)) -> NoDup (waiting (queue w')).
Proof.
  destruct w as [q rd sp]. cbn [queue].
  assert (Hd : forall c q0 q' us, waiting q0 = waiting q -> drained cap c q0 q' us ->
                NoDup (waiting q) -> NoDup (waiting q')).
  { intros c q0 q' us Hq D Hnd. destruct (drained_waiting _ _ _ _ D) as [->| ->];
      [by rewrite Hq|constructor]. }
  destruct e as [c|c tid|c p cn fo| | |i o]; cbn [step queue ready suspended].
  - destruct (enqueue_message_check cap q c) as [q1 cr] eqn:E. intros [= <-]. cbn [queue].
    eapply enqueued_nodup, enqueue_message_check_enqueued, E.
  - destruct (enqueue_task cap q c tid) as [q1 cr] eqn:E. intros [= <-]. cbn [queue].
    eapply enqueued_nodup, enqueue_task_enqueued, E.
  - intros [= <-]. cbn [queue]. by rewrite (proj2 (register_process_book q c p cn fo)).
  - intros [= <-]. auto.
  - destruct rd as [|[c r|c t|c d] rest]; [discriminate| | |].
    + destruct (start_one_book q (RunForGroup c r)) as (_ & _ & B3 & _).
      cbn [start_one] in B3.
      destruct (has_process_messages_fn _).
      * intros [= <-]. cbn [queue]. by rewrite B3.
      * destruct (finish cap _ c) as [q1 cr] eqn:E.
        destruct (finish_book _ _ _ _ _ E) as (_ & _ & _ & _ & _ & D).
        intros [= <-]. cbn [queue]. eapply Hd; [|exact D]. exact B3.
    + destruct (start_one_book q (RunTask c t)) as (_ & _ & B3 & _).
      cbn [start_one] in B3. intros [= <-]. cbn [queue]. by rewrite B3.
    + intros [= <-]. auto.
  - destruct (sp !! i) as [[c r|c t|c d]|] eqn:Ei; [| | |discriminate].
    + destruct (run_for_group_resume cap q c o) as [q1 cr] eqn:E.
      destruct (run_for_group_resume_book _ _ _ _ _ _ E) as (_ & _ & _ & _ & D).
      intros [= <-]. cbn [queue]. eapply Hd; [|exact D]. reflexivity.
    + unfold run_task_resume. destruct (finish cap q c) as [q1 cr] eqn:E.
      destruct (finish_book _ _ _ _ _ E) as (_ & _ & _ & _ & _ & D).
      intros [= <-]. cbn [queue]. eapply Hd; [|exact D]. reflexivity.
    + destruct (shutting_down q); [intros [= <-]; auto|].
      destruct (enqueue_message_check cap q c) as [q1 cr] eqn:E. intros [= <-]. cbn [queue].
      eapply enqueued_nodup, enqueue_message_check_enqueued, E.
Qed.

(** X4: on every world the event loop can reach, no group is on the waiting
    list twice. *)
Lemma waiting_list_has_no_duplicates es w :
  run cap new_World es = Some w -> NoDup (waiting (queue w)).
Proof.
  assert (H : forall es w0 w, NoDup (waiting (queue w0)) -> run cap w0 es = Some w ->
                NoDup (waiting (queue w))).
  { clear. induction es as [|e es IH]; intros w0 w Hnd; cbn [run].
    - by intros [= <-].
    - destruct (step cap w0 e) as [w1|] eqn:E; [|discriminate].
      apply IH. eapply step_waiting_nodup; eauto. }
  apply H. constructor.
Qed.

End WaitingList.

Section PendingWork.
Variable cap : Z.

Lemma elem_of_append_waiting q c g :
  g ∈ waiting (append_waiting q c) <-> g ∈ waiting q \/ g = c.
Proof.
  unfold append_waiting. case_bool_decide as H; cbn [waiting with_waiting].
  - split; [auto|]. intros [? | ->]; auto.
  - rewrite elem_of_app, list_elem_of_singleton. tauto.
Qed.

Lemma enqueue_message_check_pending q c q' cr :
  enqueue_message_check cap q c = (q', cr) ->
  (forall g, tasks_of q' g = tasks_of q g)
  /\ (forall g, g <> c -> pending_flag q' g = pending_flag q g)
  /\ (pending_flag q' c = pending_flag q c \/ (act q c = true \/ c ∈ waiting q'))
  /\ (forall g, g ∈ waiting q -> g ∈ waiting q').
Proof.
  unfold enqueue_message_check. destruct (shutting_down q).
  { intros [= <- <-]. splits; auto. }
  rewrite get_group_eq. fold (act q c). unfold tasks_of, pending_flag.
  destruct (act q c) eqn:Ha.
  { intros [= <- <-]. splits; auto.
    - intros g. rewrite !state_of_put. destruct (decide (c = g)); subst; reflexivity.
    - intros g Hg. rewrite !state_of_put. destruct (decide (c = g)); congruence. }
  destruct (cap <=? _).
  - intros [= <- <-]. splits.
    + intros g. rewrite state_of_append_waiting, !state_of_put.
      destruct (decide (c = g)); subst; reflexivity.
    + intros g Hg. rewrite state_of_append_waiting, !state_of_put.
      destruct (decide (c = g)); congruence.
    + right. right. apply elem_of_append_waiting. auto.
    + intros g Hg. apply elem_of_append_waiting. auto.
  - intros [= <- <-]. splits; auto.
    + intros g. rewrite !state_of_put. destruct (decide (c = g)); subst; reflexivity.
    + intros g Hg. rewrite !state_of_put. destruct (decide (c = g)); congruence.
    + left. rewrite !state_of_put. by destruct (decide (c = c)).
Qed.

Lemma existsb_ids tid l :
  existsb (fun t => bool_decide (qt_id t = tid)) l = false -> tid ∉ (qt_id <$> l).
Proof.
  induction l as [|t l IH]; cbn [existsb fmap list_fmap].
  - intros _ H. inversion H.
  - intros H. apply orb_false_iff in H as [H1 H2]. apply bool_decide_eq_false in H1.
    apply not_elem_of_cons. split; [congruence|auto].
Qed.

Lemma enqueue_task_pending q c tid q' cr :
  enqueue_task cap q c tid = (q', cr) ->
  (forall g, pending_flag q' g = pending_flag q g)
  /\ (forall g, g <> c -> tasks_of q' g = tasks_of q g)
  /\ (tasks_of q' c = tasks_of q c
      \/ (tasks_of q' c = (tasks_of q c ++ [mkQueuedTask tid c])
          /\ (tid ∉ (qt_id <$> tasks_of q c))
          /\ (act q c = true \/ c ∈ waiting q')))
  /\ (forall g, g ∈ waiting q -> g ∈ waiting q').
Proof.
  unfold enqueue_task. destruct (shutting_down q).
  { intros [= <- <-]. splits; auto. }
  rewrite get_group_eq. fold (act q c). unfold tasks_of, pending_flag.
  destruct (existsb _ _) eqn:Eex.
  { intros [= <- <-]. splits; auto.
    - intros g. rewrite !state_of_put. destruct (decide (c = g)); subst; reflexivity.
    - intros g Hg. rewrite !state_of_put. destruct (decide (c = g)); congruence.
    - left. rewrite !state_of_put. by destruct (decide (c = c)). }
  apply existsb_ids in Eex.
  destruct (act q c) eqn:Ha.
  { intros [= <- <-]. splits; auto.
    - intros g. rewrite !state_of_put. destruct (decide (c = g)); subst; reflexivity.
    - intros g Hg. rewrite !state_of_put. destruct (decide (c = g)); congruence.
    - right. rewrite !state_of_put. destruct (decide (c = c)); [|done]. auto. }
  destruct (cap <=? _).
  - intros [= <- <-]. splits.
    + intros g. rewrite state_of_append_waiting, !state_of_put.
      destruct (decide (c = g)); subst; reflexivity.
    + intros g Hg. rewrite state_of_append_waiting, !state_of_put.
      destruct (decide (c = g)); congruence.
    + right. rewrite state_of_append_waiting, !state_of_put.
      destruct (decide (c = c)); [|done]. splits; auto.
      right. apply elem_of_append_waiting. auto.
    + intros g Hg. apply elem_of_append_waiting. auto.
  - intros [= <- <-]. splits; auto.
    + intros g. rewrite !state_of_put. destruct (decide (c = g)); subst; reflexivity.
    + intros g Hg. rewrite !state_of_put. destruct (decide (c = g)); congruence.
    + left. rewrite !state_of_put. by destruct (decide (c = c)).
Qed.

Lemma cnt_pos_cons g c l :
  is_unit c = true -> coro_chat c = g -> (0 < cnt g (c :: l))%nat.
Proof.
  intros Hu Hc. rewrite cnt_cons. unfold is_unit_of.
  rewrite Hu, bool_decide_eq_true_2 by exact Hc. cbn. lia.
Qed.

Lemma cnt_pos_skip g c l : (0 < cnt g l)%nat -> (0 < cnt g (c :: l))%nat.
Proof. rewrite cnt_cons. lia. Qed.

Lemma drain_waiting_loop_pending w : forall q q' cr,
  drain_waiting_loop cap w q = (q', cr) ->
  (forall g, pending_flag q' g = pending_flag q g)
  /\ (forall g, tasks_of q' g `suffix_of` tasks_of q g)
  /\ (forall g, g ∈ w -> has_pending q g -> g ∈ waiting q' \/ (0 < cnt g cr)%nat).
Proof.
  induction w as [|n rest IH]; intros q q' cr; cbn [drain_waiting_loop].
  { intros [= <- <-]. splits; auto; intros g H; inversion H. }
  destruct (active_count q <? cap).
  2:{ intros [= <- <-]. splits; auto. }
  rewrite get_group_eq.
  set (q1 := put_group (with_waiting rest q) n (state_of (with_waiting rest q) n)).
  assert (Hq1 : forall c, state_of q1 c = state_of q c).
  { intros c. unfold q1. rewrite state_of_put. destruct (decide (n = c)); by subst. }
  change (state_of (with_waiting rest q) n) with (state_of q n).
  destruct (pending_tasks (state_of q n)) as [|t ts] eqn:Et.
  - destruct (pending_messages (state_of q n)) eqn:Em.
    + destruct (drain_waiting_loop cap rest q1) as [q2 cr2] eqn:E2.
      intros [= <- <-]. destruct (IH _ _ _ E2) as (P & T & W).
      splits.
      * intros g. rewrite P. unfold pending_flag. by rewrite Hq1.
      * intros g. specialize (T g). unfold tasks_of in *. by rewrite Hq1 in T.
      * intros g Hg Hp. destruct (decide (g = n)) as [->|Hne].
        { right. by apply cnt_pos_cons. }
        apply elem_of_cons in Hg as [?|Hg]; [done|].
        destruct (W g Hg) as [?|?]; auto.
        { unfold has_pending, pending_flag, tasks_of in *. by rewrite !Hq1. }
        right. by apply cnt_pos_skip.
    + intros E2. destruct (IH _ _ _ E2) as (P & T & W).
      splits.
      * intros g. rewrite P. unfold pending_flag. by rewrite Hq1.
      * intros g. specialize (T g). unfold tasks_of in *. by rewrite Hq1 in T.
      * intros g Hg Hp. destruct (decide (g = n)) as [->|Hne].
        { exfalso. destruct Hp as [Hp|Hp]; unfold pending_flag, tasks_of in Hp; congruence. }
        apply elem_of_cons in Hg as [?|Hg]; [done|].
        apply (W g Hg). unfold has_pending, pending_flag, tasks_of in *. by rewrite !Hq1.
  - set (q2 := put_group q1 n _).
    assert (Hq2 : forall c, c <> n -> state_of q2 c = state_of q c).
    { intros c Hc. unfold q2. rewrite state_of_put. destruct (decide (n = c)); [congruence|].
      apply Hq1. }
    assert (Hq2n : state_of q2 n = with_pending_tasks ts (state_of q n)).
    { unfold q2. rewrite state_of_put. by destruct (decide (n = n)). }
    destruct (drain_waiting_loop cap rest q2) as [q3 cr3] eqn:E3.
    intros [= <- <-]. destruct (IH _ _ _ E3) as (P & T & W).
    splits.
    * intros g. rewrite P. unfold pending_flag. destruct (decide (g = n)) as [->|Hne].
      -- by rewrite Hq2n.
      -- by rewrite Hq2.
    * intros g. specialize (T g). unfold tasks_of in *. destruct (decide (g = n)) as [->|Hne].
      -- rewrite Hq2n in T. qsimpl. rewrite Et.
         etrans; [exact T|]. by apply suffix_cons_r.
      -- by rewrite Hq2 in T.
    * intros g Hg Hp. destruct (decide (g = n)) as [->|Hne].
      { right. by apply cnt_pos_cons. }
      apply elem_of_cons in Hg as [?|Hg]; [done|].
      destruct (W g Hg) as [?|?]; auto.
      { unfold has_pending, pending_flag, tasks_of in *. by rewrite !Hq2. }
      right. by apply cnt_pos_skip.
Qed.

Lemma drain_group_pending q c q' cr :
  drain_group cap q c = (q', cr) ->
  (forall g, pending_flag q' g = pending_flag q g)
  /\ (forall g, tasks_of q' g `suffix_of` tasks_of q g)
  /\ (shutting_down q = false ->
      (has_pending q c -> (0 < cnt c cr)%nat)
      /\ (forall g, g ∈ waiting q -> has_pending q g ->
                    g ∈ waiting q' \/ (0 < cnt g cr)%nat)).
Proof.
  unfold drain_group. destruct (shutting_down q) eqn:Hsd.
  { intros [= <- <-]. splits; auto. discriminate. }
  rewrite get_group_eq.
  set (q1 := put_group q c (state_of q c)).
  assert (Hq1 : forall g, state_of q1 g = state_of q g).
  { intros g. unfold q1. rewrite state_of_put. destruct (decide (c = g)); by subst. }
  destruct (pending_tasks (state_of q c)) as [|t ts] eqn:Et.
  - destruct (pending_messages (state_of q c)) eqn:Em.
    + intros [= <- <-]. splits.
      * intros g. unfold pending_flag. by rewrite Hq1.
      * intros g. unfold tasks_of. by rewrite Hq1.
      * intros _. split; [intros _; by apply cnt_pos_cons|]. intros g Hg _. by left.
    + intros E. destruct (drain_waiting_loop_pending _ _ _ _ E) as (P & T & W).
      splits.
      * intros g. rewrite P. unfold pending_flag. by rewrite Hq1.
      * intros g. specialize (T g). unfold tasks_of in *. by rewrite Hq1 in T.
      * intros _. split.
        -- intros [Hp|Hp]; unfold pending_flag, tasks_of in Hp; congruence.
        -- intros g Hg Hp. apply W; [exact Hg|].
           unfold has_pending, pending_flag, tasks_of in *. by rewrite !Hq1.
  - intros [= <- <-]. splits.
    + intros g. unfold pending_flag. rewrite state_of_put.
      destruct (decide (c = g)); subst; qsimpl; by rewrite ?Hq1.
    + intros g. unfold tasks_of. rewrite state_of_put.
      destruct (decide (c = g)); subst; qsimpl; rewrite ?Hq1; [|done].
      rewrite Et. by apply suffix_cons_r.
    + intros _. split; [intros _; by apply cnt_pos_cons|]. intros g Hg _. by left.
Qed.

Lemma finish_pending q c q' cr :
  finish cap q c = (q', cr) ->
  (forall g, pending_flag q' g = pending_flag q g)
  /\ (forall g, tasks_of q' g `suffix_of` tasks_of q g)
  /\ (shutting_down q = false ->
      (has_pending q c -> (0 < cnt c cr)%nat)
      /\ (forall g, g ∈ waiting q -> has_pending q g ->
                    g ∈ waiting q' \/ (0 < cnt g cr)%nat)).
Proof.
  unfold finish. rewrite get_group_eq. intros E.
  destruct (drain_group_pending _ _ _ _ E) as (P & T & W).
  set (q0 := with_active_count _ _) in *.
  assert (Hpm : forall g, pending_flag q0 g = pending_flag q g).
  { intros g. unfold pending_flag, q0.
    change (state_of (with_active_count ?n ?x) g) with (state_of x g).
    rewrite !state_of_put. destruct (decide (c = g)); subst; reflexivity. }
  assert (Hts : forall g, tasks_of q0 g = tasks_of q g).
  { intros g. unfold tasks_of, q0.
    change (state_of (with_active_count ?n ?x) g) with (state_of x g).
    rewrite !state_of_put. destruct (decide (c = g)); subst; reflexivity. }
  assert (Hhp : forall g, has_pending q g -> has_pending q0 g).
  { intros g. unfold has_pending. by rewrite Hpm, Hts. }
  splits.
  - intros g. by rewrite P.
  - intros g. rewrite <- Hts. apply T.
  - intros Hsd. destruct (W Hsd) as [W1 W2]. split; [auto|].
    intros g Hg Hp. apply W2; auto.
Qed.

Lemma before_finish_pending q c o :
  let r := match o with
           | Success => let '(state, q0) := get_group q c in
                        (put_group q0 c (with_retry_count 0 state), [])
           | _ => schedule_retry q c
           end in
  (forall g, pending_flag (fst r) g = pending_flag q g) /\ (forall g, tasks_of (fst r) g = tasks_of q g).
Proof.
  assert (H : forall st, pending_messages st = pending_flag q c -> pending_tasks st = tasks_of q c ->
     (forall g, pending_flag (put_group (put_group q c (state_of q c)) c st) g = pending_flag q g)
     /\ (forall g, tasks_of (put_group (put_group q c (state_of q c)) c st) g = tasks_of q g)).
  { intros st H1 H2. split; intros g; unfold pending_flag, tasks_of in *; rewrite !state_of_put;
      destruct (decide (c = g)); subst; auto. }
  destruct o; cbv zeta; unfold schedule_retry; rewrite get_group_eq;
    try destruct (MAX_RETRIES <? _); cbn [fst]; apply H; reflexivity.
Qed.

Lemma run_for_group_resume_pending q c o q' cr :
  run_for_group_resume cap q c o = (q', cr) ->
  (forall g, pending_flag q' g = pending_flag q g)
  /\ (forall g, tasks_of q' g `suffix_of` tasks_of q g)
  /\ (shutting_down q = false ->
      (has_pending q c -> (0 < cnt c cr)%nat)
      /\ (forall g, g ∈ waiting q -> has_pending q g ->
                    g ∈ waiting q' \/ (0 < cnt g cr)%nat)).
Proof.
  unfold run_for_group_resume.
  pose proof (before_finish_pending q c o) as H. cbv zeta in H.
  pose proof (before_finish_book q c o) as B. cbv zeta in B.
  destruct (match o with Success => _ | _ => _ end) as [q1 rs].
  cbn [fst snd] in H, B. destruct H as [Hpm Hts].
  destruct B as ((_ & _ & A3 & _) & Hw & Hrs).
  destruct (finish cap q1 c) as [q2 cr2] eqn:E. intros [= <- <-].
  destruct (finish_pending _ _ _ _ E) as (P & T & W).
  assert (Hcnt : forall g, cnt g (rs ++ cr2) = cnt g cr2).
  { intros g. unfold cnt. by rewrite units_app, Hrs. }
  splits.
  - intros g. by rewrite P.
  - intros g. rewrite <- Hts. apply T.
  - intros Hsd. rewrite A3 in W. destruct (W Hsd) as [W1 W2]. split.
    + intros Hp. rewrite Hcnt. apply W1. unfold has_pending. by rewrite Hpm, Hts.
    + intros g Hg Hp. rewrite Hcnt. apply W2; [by rewrite Hw|].
      unfold has_pending. by rewrite Hpm, Hts.
Qed.

Lemma run_for_group_begin_pending q c :
  (forall g, tasks_of (run_for_group_begin q c) g = tasks_of q g)
  /\ (forall g, pending_flag (run_for_group_begin q c) g = if decide (c = g) then false else pending_flag q g).
Proof.
  unfold run_for_group_begin. rewrite get_group_eq. unfold tasks_of, pending_flag.
  split; intros g; change (state_of (with_active_count ?n ?x) g) with (state_of x g);
    rewrite !state_of_put; destruct (decide (c = g)); subst; reflexivity.
Qed.

Lemma run_task_begin_pending q c :
  (forall g, tasks_of (run_task_begin q c) g = tasks_of q g)
  /\ (forall g, pending_flag (run_task_begin q c) g = pending_flag q g).
Proof.
  unfold run_task_begin. rewrite get_group_eq. unfold tasks_of, pending_flag.
  split; intros g; change (state_of (with_active_count ?n ?x) g) with (state_of x g);
    rewrite !state_of_put; destruct (decide (c = g)); subst; reflexivity.
Qed.

Lemma register_process_pending q c p cn fo :
  (forall g, tasks_of (register_process q c p cn fo) g = tasks_of q g)
  /\ (forall g, pending_flag (register_process q c p cn fo) g = pending_flag q g).
Proof.
  unfold register_process. rewrite get_group_eq. unfold tasks_of, pending_flag.
  split; intros g; rewrite !state_of_put; destruct (decide (c = g)); subst; reflexivity.
Qed.

End PendingWork.

Section ActiveRuns.
Variable cap : Z.

Lemma cnt_remove_other g l i c :
  l !! i = Some c -> coro_chat c <> g -> cnt g (remove_nth i l) = cnt g l.
Proof.
  intros H Hne. pose proof (cnt_remove_nth g l i c H) as E. unfold is_unit_of in E.
  rewrite (bool_decide_eq_false_2 _ Hne), andb_false_r in E. lia.
Qed.

Lemma step_active_has_run w e w' :
  step cap w e = Some w' -> active_has_run w -> active_has_run w'.
Proof.
  unfold active_has_run. destruct w as [q rd sp]. cbn [queue suspended].
  assert (Hfin : forall c q1 i co,
            (forall g, act q1 g = if decide (c = g) then false else act q g) ->
            sp !! i = Some co -> coro_chat co = c ->
            (forall g, act q g = true -> (0 < cnt g sp)%nat) ->
            forall g, act q1 g = true -> (0 < cnt g (remove_nth i sp))%nat).
  { intros c q1 i co A Hi Hc Inv g. rewrite A. destruct (decide (c = g)); [discriminate|].
    intros Hg. rewrite (cnt_remove_other _ _ _ _ Hi) by congruence. auto. }
  destruct e as [c|c tid|c p cn fo| | |i o]; cbn [step queue ready suspended].
  - destruct (enqueue_message_check cap q c) as [q1 cr] eqn:E. intros [= <-].
    cbn [queue suspended]. destruct (enqueue_message_check_book _ _ _ _ _ E) as [(A & _) _].
    intros Inv g. rewrite A. auto.
  - destruct (enqueue_task cap q c tid) as [q1 cr] eqn:E. intros [= <-].
    cbn [queue suspended]. destruct (enqueue_task_book _ _ _ _ _ _ E) as [(A & _) _].
    intros Inv g. rewrite A. auto.
  - intros [= <-]. cbn [queue suspended].
    destruct (register_process_book q c p cn fo) as [(A & _) _].
    intros Inv g. rewrite A. auto.
  - intros [= <-]. auto.
  - destruct rd as [|[c r|c t|c d] rest]; [discriminate| | |].
    + destruct (start_one_book q (RunForGroup c r)) as (B1 & _).
      cbn [start_one] in B1.
      destruct (has_process_messages_fn _).
      * intros [= <-] Inv g. cbn [queue suspended]. rewrite B1, cnt_app, cnt_cons.
        intros H. apply orb_true_iff in H as [H| ->]; [|lia]. apply Inv in H. lia.
      * destruct (finish cap _ c) as [q1 cr] eqn:E.
        destruct (finish_book _ _ _ _ _ E) as (F1 & _).
        intros [= <-] Inv g. cbn [queue suspended]. rewrite F1.
        destruct (decide (c = g)); [discriminate|]. rewrite B1.
        unfold is_unit_of. cbn [coro_chat is_unit andb].
        rewrite bool_decide_eq_false_2, orb_false_r by exact n. auto.
    + destruct (start_one_book q (RunTask c t)) as (B1 & _).
      cbn [start_one] in B1.
      intros [= <-] Inv g. cbn [queue suspended]. rewrite B1, cnt_app, cnt_cons.
      intros H. apply orb_true_iff in H as [H| ->]; [|lia]. apply Inv in H. lia.
    + intros [= <-] Inv g. cbn [queue suspended]. rewrite cnt_app. intros H.
      apply Inv in H. lia.
  - destruct (sp !! i) as [[c r|c t|c d]|] eqn:Ei; [| | |discriminate].
    + destruct (run_for_group_resume cap q c o) as [q1 cr] eqn:E.
      destruct (run_for_group_resume_book _ _ _ _ _ _ E) as (A1 & _).
      intros [= <-] Inv. cbn [queue suspended]. eapply Hfin; eauto.
    + unfold run_task_resume. destruct (finish cap q c) as [q1 cr] eqn:E.
      destruct (finish_book _ _ _ _ _ E) as (A1 & _).
      intros [= <-] Inv. cbn [queue suspended]. eapply Hfin; eauto.
    + assert (Hc : forall g, cnt g (remove_nth i sp) = cnt g sp).
      { intros g. pose proof (cnt_remove_nth g sp i _ Ei) as H.
        unfold is_unit_of in H. cbn in H. lia. }
      destruct (shutting_down q).
      * intros [= <-] Inv g. cbn [queue suspended]. rewrite Hc. auto.
      * destruct (enqueue_message_check cap q c) as [q1 cr] eqn:E. intros [= <-].
        cbn [queue suspended]. destruct (enqueue_message_check_book _ _ _ _ _ E) as [(A & _) _].
        intros Inv g. rewrite A, Hc. auto.
Qed.

Lemma run_active_has_run es : forall w w',
  run cap w es = Some w' -> active_has_run w -> active_has_run w'.
Proof.
  induction es as [|e es IH]; intros w w'; cbn [run].
  - intros [= <-]. auto.
  - destruct (step cap w e) as [w1|] eqn:E; [|discriminate].
    intros Hr Hacc. eapply IH; eauto using step_active_has_run.
Qed.

Lemma active_has_run_new : active_has_run new_World.
Proof. intros g. cbn. discriminate. Qed.

Lemma send_message_active q chat text written folder body :
  snd (send_message q chat text written) = Some (folder, body) ->
  act q chat = true /\ group_folder (state_of q chat) = Some folder
  /\ folder <> EmptyString /\ body = text /\ written = true.
Proof.
  unfold send_message. rewrite get_group_eq. fold (act q chat).
  destruct (act q chat); cbn [negb snd]; [|discriminate].
  destruct (group_folder (state_of q chat)) as [f|]; cbn [snd]; [|discriminate].
  case_bool_decide; cbn [snd]; [discriminate|].
  destruct written; cbn [snd]; [|discriminate]. intros [= <- <-]. auto.
Qed.

(** X6: on every world the event loop can reach, [send_message] writes a
    follow-up file for a chat only while a unit of work of that chat is in
    progress. *)
Lemma follow_up_needs_a_run_in_progress es w chat text written folder body :
  run cap new_World es = Some w ->
  snd (send_message (queue w) chat text written) = Some (folder, body) ->
  (0 < length (active_units_of chat w))%nat.
Proof.
  intros Hr Hs. apply send_message_active in Hs as (Ha & _).
  exact (run_active_has_run es _ _ Hr active_has_run_new chat Ha).
Qed.

Lemma suffix_nodup_ids (l1 l2 : list QueuedTask) :
  l1 `suffix_of` l2 -> NoDup (qt_id <$> l2) -> NoDup (qt_id <$> l1).
Proof.
  intros [k ->]. rewrite fmap_app. intros H. by apply NoDup_app in H as (_ & _ & H).
Qed.

Lemma step_unique_ids w e w' :
  step cap w e = Some w' -> unique_ids (queue w) -> unique_ids (queue w').
Proof.
  unfold unique_ids. destruct w as [q rd sp]. cbn [queue].
  destruct e as [c|c tid|c p cn fo| | |i o]; cbn [step queue ready suspended].
  - destruct (enqueue_message_check cap q c) as [q1 cr] eqn:E. intros [= <-].
    cbn [queue]. destruct (enqueue_message_check_pending _ _ _ _ _ E) as (T & _).
    intros Inv g. by rewrite T.
  - destruct (enqueue_task cap q c tid) as [q1 cr] eqn:E. intros [= <-].
    cbn [queue]. destruct (enqueue_task_pending _ _ _ _ _ _ E) as (_ & T1 & T2 & _).
    intros Inv g. destruct (decide (g = c)) as [->|Hne]; [|by rewrite T1].
    destruct T2 as [->|(-> & Hnew & _)]; [auto|].
    rewrite fmap_app. apply NoDup_app. split; [auto|]. split; [|apply NoDup_singleton].
    intros x Hx Hx'. apply list_elem_of_singleton in Hx'. cbn in Hx'. congruence.
  - intros [= <-]. cbn [queue].
    destruct (register_process_pending q c p cn fo) as [T _].
    intros Inv g. by rewrite T.
  - intros [= <-]. auto.
  - destruct rd as [|[c r|c t|c d] rest]; [discriminate| | |].
    + destruct (run_for_group_begin_pending q c) as [T _].
      destruct (has_process_messages_fn _).
      * intros [= <-] Inv g. cbn [queue]. by rewrite T.
      * destruct (finish cap _ c) as [q1 cr] eqn:E.
        destruct (finish_pending _ _ _ _ _ E) as (_ & S & _).
        intros [= <-] Inv g. cbn [queue]. eapply suffix_nodup_ids; [apply S|].
        by rewrite T.
    + destruct (run_task_begin_pending q c) as [T _].
      intros [= <-] Inv g. cbn [queue]. by rewrite T.
    + intros [= <-]. auto.
  - destruct (sp !! i) as [[c r|c t|c d]|] eqn:Ei; [| | |discriminate].
    + destruct (run_for_group_resume cap q c o) as [q1 cr] eqn:E.
      destruct (run_for_group_resume_pending _ _ _ _ _ _ E) as (_ & S & _).
      intros [= <-] Inv g. cbn [queue]. eapply suffix_nodup_ids; [apply S|auto].
    + unfold run_task_resume. destruct (finish cap q c) as [q1 cr] eqn:E.
      destruct (finish_pending _ _ _ _ _ E) as (_ & S & _).
      intros [= <-] Inv g. cbn [queue]. eapply suffix_nodup_ids; [apply S|auto].
    + destruct (shutting_down q); [intros [= <-]; auto|].
      destruct (enqueue_message_check cap q c) as [q1 cr] eqn:E. intros [= <-].
      cbn [queue]. destruct (enqueue_message_check_pending _ _ _ _ _ E) as (T & _).
      intros Inv g. by rewrite T.
Qed.

(** X5: on every world the event loop can reach, the tasks queued for a
    group have pairwise distinct ids. *)
Lemma queued_task_ids_are_unique es w g :
  run cap new_World es = Some w -> NoDup (qt_id <$> tasks_of (queue w) g).
Proof.
  assert (H : forall es w0 w, unique_ids (queue w0) -> run cap w0 es = Some w ->
                unique_ids (queue w)).
  { clear. induction es as [|e es IH]; intros w0 w Hnd; cbn [run].
    - by intros [= <-].
    - destruct (step cap w0 e) as [w1|] eqn:E; [|discriminate].
      apply IH. eapply step_unique_ids; eauto. }
  intros Hr. apply (H es new_World w); [|exact Hr]. intros g'. cbn. constructor.
Qed.

End ActiveRuns.

Section Coverage.
Variable cap : Z.

Lemma count_units_nonneg l : 0 <= count_units l.
Proof. unfold count_units. lia. Qed.

Lemma count_units_all l : Forall (fun c => is_unit c = true) l -> count_units l = Z.of_nat (length l).
Proof. intros H. unfold count_units. by rewrite (units_units _ H). Qed.

Lemma enqueued_capacity c q q1 cr rd :
  enqueued cap c q q1 cr ->
  (shutting_down q = true \/ waiting q = [] \/ cap <= active_count q + count_units rd) ->
  shutting_down q1 = true \/ waiting q1 = []
  \/ cap <= active_count q1 + count_units (rd ++ cr).
Proof.
  intros ((A1 & A2 & A3 & A4) & Hshape) Hfull. rewrite A2, A3, count_units_app.
  pose proof (count_units_nonneg rd) as Hrd.
  destruct Hshape as [[-> [Hw|(_ & _ & Hle & Hw)]]|(u & -> & Hu & Hc & Hw & Ha & Hlt & Hsd)].
  - rewrite Hw, count_units_nil, Z.add_0_r. exact Hfull.
  - right. right. rewrite count_units_nil. lia.
  - rewrite Hw, count_units_cons, Hu, count_units_nil.
    destruct Hfull as [H|[H|H]]; auto. right. right. lia.
Qed.

(** a completion: the counter drops by one and the drain runs *)
Lemma drained_capacity c q q' us rd n :
  drained cap c (with_active_count n q) q' (units us) ->
  active_count q' = n -> shutting_down q' = shutting_down q ->
  (shutting_down q = true \/ waiting q = [] \/ cap <= n + 1 + count_units rd) ->
  shutting_down q' = true \/ waiting q' = []
  \/ cap <= active_count q' + count_units (rd ++ us).
Proof.
  intros D Hc Hs Hfull. rewrite Hc, Hs, count_units_app.
  pose proof (count_units_nonneg rd) as Hrd.
  pose proof (count_units_nonneg us) as Hus.
  unfold drained in D. cbn [waiting active_count shutting_down with_active_count] in D.
  destruct D as [(_ & _ & Hsd)|[(u & Hu & Hcu & Hw)|(Hsub & W1 & W2)]]; [auto| |].
  - rewrite Hw. destruct Hfull as [H|[H|H]]; auto. right. right.
    unfold count_units at 2. rewrite Hu. cbn [length]. lia.
  - destruct (Z.lt_ge_cases n cap) as [H|H]; [right; left; auto|].
    right. right. lia.
Qed.

Lemma step_at_capacity w e w' :
  step cap w e = Some w' -> at_capacity cap w -> at_capacity cap w'.
Proof.
  unfold at_capacity. destruct w as [q rd sp]. cbn [queue ready].
  destruct e as [c|c tid|c p cn fo| | |i o]; cbn [step queue ready suspended].
  - destruct (enqueue_message_check cap q c) as [q1 cr] eqn:E. intros [= <-].
    cbn [queue ready]. eapply enqueued_capacity, enqueue_message_check_enqueued, E.
  - destruct (enqueue_task cap q c tid) as [q1 cr] eqn:E. intros [= <-].
    cbn [queue ready]. eapply enqueued_capacity, enqueue_task_enqueued, E.
  - intros [= <-]. cbn [queue ready].
    destruct (register_process_book q c p cn fo) as [(_ & A2 & A3 & _) Hw].
    by rewrite A2, A3, Hw.
  - intros [= <-]. cbn [queue ready]. auto.
  - destruct rd as [|[c r|c t|c d] rest]; [discriminate| | |].
    + destruct (start_one_book q (RunForGroup c r)) as (_ & B2 & B3 & B4 & _).
      cbn [start_one is_unit] in B2, B3, B4. rewrite count_units_cons. cbn [is_unit].
      destruct (has_process_messages_fn _).
      * intros [= <-]. cbn [queue ready]. rewrite B2, B3, B4. intros H.
        destruct H as [H|[H|H]]; auto. right. right. lia.
      * destruct (finish cap _ c) as [q1 cr] eqn:E.
        destruct (finish_book _ _ _ _ _ E) as (_ & F2 & F3 & _ & U & D).
        intros [= <-] Hfull. cbn [queue ready].
        rewrite <- (units_units _ U) in D.
        eapply drained_capacity; [exact D|exact F2|exact F3|].
        rewrite B3, B4, B2. destruct Hfull as [H|[H|H]]; auto. right. right. lia.
    + destruct (start_one_book q (RunTask c t)) as (_ & B2 & B3 & B4 & _).
      cbn [start_one is_unit] in B2, B3, B4. rewrite count_units_cons. cbn [is_unit].
      intros [= <-]. cbn [queue ready]. rewrite B2, B3, B4. intros H.
      destruct H as [H|[H|H]]; auto. right. right. lia.
    + rewrite count_units_cons. cbn [is_unit]. intros [= <-]. cbn [queue ready]. auto.
  - destruct (sp !! i) as [[c r|c t|c d]|] eqn:Ei; [| | |discriminate].
    + destruct (run_for_group_resume cap q c o) as [q1 cr] eqn:E.
      destruct (run_for_group_resume_book _ _ _ _ _ _ E) as (_ & A2 & A3 & _ & D).
      intros [= <-] Hfull. cbn [queue ready].
      eapply drained_capacity; [exact D|exact A2|exact A3|].
      destruct Hfull as [H|[H|H]]; auto. right. right. lia.
    + unfold run_task_resume. destruct (finish cap q c) as [q1 cr] eqn:E.
      destruct (finish_book _ _ _ _ _ E) as (_ & A2 & A3 & _ & U & D).
      intros [= <-] Hfull. cbn [queue ready].
      rewrite <- (units_units _ U) in D.
      eapply drained_capacity; [exact D|exact A2|exact A3|].
      destruct Hfull as [H|[H|H]]; auto. right. right. lia.
    + destruct (shutting_down q) eqn:Hsd.
      * intros [= <-]. cbn [queue ready]. auto.
      * destruct (enqueue_message_check cap q c) as [q1 cr] eqn:E. intros [= <-] Hfull.
        cbn [queue ready].
        eapply enqueued_capacity; [eapply enqueue_message_check_enqueued, E|].
        destruct Hfull as [H|H]; [discriminate|by right].
Qed.

(** X7: on every world the event loop can reach, outside shutdown, a group is
    only on the waiting list while the runs in progress together with the
    runs created and not yet started fill the cap. *)
Lemma no_group_waits_below_capacity es w :
  run cap new_World es = Some w ->
  shutting_down (queue w) = false ->
  waiting (queue w) <> [] ->
  cap <= count_units (suspended w) + count_units (ready w).
Proof.
  assert (H : forall es w0 w, at_capacity cap w0 -> run cap w0 es = Some w ->
                at_capacity cap w).
  { clear. induction es as [|e es IH]; intros w0 w Hnd; cbn [run].
    - by intros [= <-].
    - destruct (step cap w0 e) as [w1|] eqn:E; [|discriminate].
      apply IH. eapply step_at_capacity; eauto. }
  intros Hr Hsd Hw.
  pose proof (run_accounted cap es _ _ Hr eq_refl) as Hacc. unfold accounted in Hacc.
  destruct (H es new_World w) as [H1|[H1|H1]]; [right; left; reflexivity|exact Hr| | |].
  - congruence.
  - done.
  - by rewrite <- Hacc.
Qed.

Lemma cnt_pos_app_l g l1 l2 : (0 < cnt g l1)%nat -> (0 < cnt g (l1 ++ l2))%nat.
Proof. rewrite cnt_app. lia. Qed.
Lemma cnt_pos_app_r g l1 l2 : (0 < cnt g l2)%nat -> (0 < cnt g (l1 ++ l2))%nat.
Proof. rewrite cnt_app. lia. Qed.

Lemma has_pending_eq q q' g :
  pending_flag q' g = pending_flag q g -> tasks_of q' g = tasks_of q g -> has_pending q' g -> has_pending q g.
Proof. unfold has_pending. by intros -> ->. Qed.

Lemma has_pending_suffix q q' g :
  pending_flag q' g = pending_flag q g -> tasks_of q' g `suffix_of` tasks_of q g ->
  has_pending q' g -> has_pending q g.
Proof.
  unfold has_pending. intros -> [k E] [H|H]; [by left|right].
  rewrite E. intros H'. apply app_eq_nil in H' as [_ H']. done.
Qed.

(** what is left to show after a unit of [c] has completed *)
Lemma completion_covered c q q1 cr rd sp sp' :
  shutting_down q = false ->
  (forall g, has_pending q g -> g ∈ waiting q \/ (0 < cnt g (rd ++ sp))%nat) ->
  (forall g, g <> c -> cnt g sp' = cnt g sp) ->
  (forall g, pending_flag q1 g = pending_flag q g) ->
  (forall g, tasks_of q1 g `suffix_of` tasks_of q g) ->
  (has_pending q c -> (0 < cnt c cr)%nat) ->
  (forall g, g ∈ waiting q -> has_pending q g -> g ∈ waiting q1 \/ (0 < cnt g cr)%nat) ->
  forall g, has_pending q1 g -> g ∈ waiting q1 \/ (0 < cnt g ((rd ++ cr) ++ sp'))%nat.
Proof.
  intros Hsd Inv Hsp P T W1 W2 g Hp.
  apply (has_pending_suffix _ _ _ (P g) (T g)) in Hp.
  destruct (decide (g = c)) as [->|Hne].
  { right. apply cnt_pos_app_l, cnt_pos_app_r. auto. }
  destruct (Inv g Hp) as [Hw|Hu].
  - destruct (W2 g Hw Hp) as [?|?]; [by left|].
    right. by apply cnt_pos_app_l, cnt_pos_app_r.
  - right. rewrite !cnt_app in *. rewrite (Hsp g Hne). lia.
Qed.

Lemma step_pending_is_covered w e w' :
  step cap w e = Some w' -> active_has_run w -> pending_is_covered w ->
  pending_is_covered w'.
Proof.
  unfold pending_is_covered, active_has_run. destruct w as [q rd sp].
  cbn [queue ready suspended].
  assert (Henq : forall c q1 cr sp',
    (forall g, cnt g sp' = cnt g sp) ->
    (forall g, act q g = true -> (0 < cnt g sp)%nat) ->
    (shutting_down q = false ->
       forall g, has_pending q g -> g ∈ waiting q \/ (0 < cnt g (rd ++ sp))%nat) ->
    same_book q q1 ->
    (forall g, g <> c -> has_pending q1 g -> has_pending q g) ->
    (has_pending q1 c -> has_pending q c \/ act q c = true \/ c ∈ waiting q1) ->
    (forall g, g ∈ waiting q -> g ∈ waiting q1) ->
    shutting_down q1 = false ->
    forall g, has_pending q1 g -> g ∈ waiting q1 \/ (0 < cnt g ((rd ++ cr) ++ sp'))%nat).
  { intros c q1 cr sp' Hsp Act Inv (_ & _ & A3 & _) Ho Hc Hw Hsd g Hp.
    rewrite A3 in Hsd. specialize (Inv Hsd).
    assert (Hold : has_pending q g -> g ∈ waiting q1 \/ (0 < cnt g ((rd ++ cr) ++ sp'))%nat).
    { intros H. destruct (Inv g H) as [?|?]; [left; auto|right].
      rewrite !cnt_app in *. rewrite Hsp. lia. }
    destruct (decide (g = c)) as [->|Hne]; [|auto].
    destruct (Hc Hp) as [H|[H|H]]; [auto| |by left].
    right. apply cnt_pos_app_r. rewrite Hsp. auto. }
  destruct e as [c|c tid|c p cn fo| | |i o]; cbn [step queue ready suspended].
  - destruct (enqueue_message_check cap q c) as [q1 cr] eqn:E. intros [= <-] Act Inv.
    cbn [queue ready suspended].
    destruct (enqueue_message_check_book _ _ _ _ _ E) as [B _].
    destruct (enqueue_message_check_pending _ _ _ _ _ E) as (T & P1 & P2 & Hw).
    apply (Henq c); auto.
    + intros g Hg. apply has_pending_eq; auto.
    + intros Hp. destruct P2 as [P2|P2]; [|auto]. left.
      eapply has_pending_eq; eauto.
  - destruct (enqueue_task cap q c tid) as [q1 cr] eqn:E. intros [= <-] Act Inv.
    cbn [queue ready suspended].
    destruct (enqueue_task_book _ _ _ _ _ _ E) as [B _].
    destruct (enqueue_task_pending _ _ _ _ _ _ E) as (P & T1 & T2 & Hw).
    apply (Henq c); auto.
    + intros g Hg. apply has_pending_eq; auto.
    + intros Hp. destruct T2 as [T2|(_ & _ & T2)]; [|auto]. left.
      eapply has_pending_eq; eauto.
  - intros [= <-] Act Inv. cbn [queue ready suspended].
    destruct (register_process_book q c p cn fo) as [B Hw].
    destruct (register_process_pending q c p cn fo) as [T P].
    intros Hsd g Hp. rewrite <- (app_nil_r rd). apply (Henq c); auto.
    + intros g' _. apply has_pending_eq; auto.
    + intros Hp'. left. eapply has_pending_eq; eauto.
    + intros g'. by rewrite Hw.
  - intros [= <-] _ _. cbn [queue]. discriminate.
  - destruct rd as [|[c r|c t|c d] rest]; [discriminate| | |].
    + destruct (start_one_book q (RunForGroup c r)) as (_ & _ & B3 & B4 & _).
      destruct (run_for_group_begin_pending q c) as [T P].
      cbn [start_one] in B3, B4.
      destruct (has_process_messages_fn _).
      * intros [= <-] Act Inv. cbn [queue ready suspended]. rewrite B3, B4. intros Hsd g Hp.
        assert (Hp' : has_pending q g).
        { destruct Hp as [Hp|Hp]; [left|right; by rewrite <- T].
          rewrite P in Hp. by destruct (decide (c = g)). }
        destruct (Inv Hsd g Hp') as [?|Hu]; [by left|right].
        rewrite !cnt_app, !cnt_cons in *. cbn [cnt] in *. lia.
      * destruct (finish cap _ c) as [q1 cr] eqn:E.
        destruct (finish_book _ _ _ _ _ E) as (_ & _ & F3 & _).
        destruct (finish_pending _ _ _ _ _ E) as (P1 & T1 & W).
        intros [= <-] Act Inv. cbn [queue ready suspended]. rewrite F3, B4. intros Hsd.
        rewrite B4 in W. destruct (W Hsd) as [W1 W2].
        intros g Hp.
        apply (has_pending_suffix _ _ _ (P1 g) (T1 g)) in Hp.
        destruct (decide (g = c)) as [->|Hne].
        { right. apply cnt_pos_app_l, cnt_pos_app_r. auto. }
        assert (Hp' : has_pending q g).
        { destruct Hp as [Hp|Hp]; [left|right; by rewrite <- T].
          rewrite P in Hp. by destruct (decide (c = g)). }
        destruct (Inv Hsd g Hp') as [Hw|Hu].
        -- rewrite <- B3 in Hw. destruct (W2 g Hw Hp) as [?|?]; [by left|].
           right. by apply cnt_pos_app_l, cnt_pos_app_r.
        -- right. rewrite !cnt_app, !cnt_cons in *. unfold is_unit_of in Hu.
           cbn [coro_chat is_unit andb] in Hu.
           rewrite bool_decide_eq_false_2 in Hu by congruence. lia.
    + destruct (start_one_book q (RunTask c t)) as (_ & _ & B3 & B4 & _).
      destruct (run_task_begin_pending q c) as [T P].
      cbn [start_one] in B3, B4.
      intros [= <-] Act Inv. cbn [queue ready suspended]. rewrite B3, B4. intros Hsd g Hp.
      apply (has_pending_eq _ _ _ (P g) (T g)) in Hp.
      destruct (Inv Hsd g Hp) as [?|Hu]; [by left|right].
      rewrite !cnt_app, !cnt_cons in *. cbn [cnt] in *. lia.
    + intros [= <-] Act Inv. cbn [queue ready suspended]. intros Hsd g Hp.
      destruct (Inv Hsd g Hp) as [?|Hu]; [by left|right].
      rewrite !cnt_app, !cnt_cons in *. cbn [cnt] in *. lia.
  - destruct (sp !! i) as [[c r|c t|c d]|] eqn:Ei; [| | |discriminate].
    + destruct (run_for_group_resume cap q c o) as [q1 cr] eqn:E.
      destruct (run_for_group_resume_book _ _ _ _ _ _ E) as (_ & _ & A3 & _).
      destruct (run_for_group_resume_pending _ _ _ _ _ _ E) as (P & T & W).
      intros [= <-] Act Inv. cbn [queue ready suspended]. rewrite A3. intros Hsd.
      destruct (W Hsd) as [W1 W2].
      apply (completion_covered c q q1 cr rd sp); auto.
      intros g Hg. apply (cnt_remove_other _ _ _ _ Ei). cbn. congruence.
    + unfold run_task_resume. destruct (finish cap q c) as [q1 cr] eqn:E.
      destruct (finish_book _ _ _ _ _ E) as (_ & _ & A3 & _).
      destruct (finish_pending _ _ _ _ _ E) as (P & T & W).
      intros [= <-] Act Inv. cbn [queue ready suspended]. rewrite A3. intros Hsd.
      destruct (W Hsd) as [W1 W2].
      apply (completion_covered c q q1 cr rd sp); auto.
      intros g Hg. apply (cnt_remove_other _ _ _ _ Ei). cbn. congruence.
    + assert (Hc : forall g, cnt g (remove_nth i sp) = cnt g sp).
      { intros g. pose proof (cnt_remove_nth g sp i _ Ei) as H.
        unfold is_unit_of in H. cbn in H. lia. }
      destruct (shutting_down q) eqn:Hsd.
      * intros [= <-] _ _. cbn [queue]. congruence.
      * destruct (enqueue_message_check cap q c) as [q1 cr] eqn:E. intros [= <-] Act Inv.
        cbn [queue ready suspended].
        destruct (enqueue_message_check_book _ _ _ _ _ E) as [B _].
        destruct (enqueue_message_check_pending _ _ _ _ _ E) as (T & P1 & P2 & Hw).
        apply (Henq c); auto.
        -- intros g Hg. apply has_pending_eq; auto.
        -- intros Hp. destruct P2 as [P2|P2]; [|auto]. left.
           eapply has_pending_eq; eauto.
Qed.

(** X8: on every world the event loop can reach, outside shutdown, a group
    with a pending message check or a queued task is on the waiting list or
    has a unit of work in progress or created, whose completion drains it. *)
Lemma pending_work_is_not_stranded es w g :
  run cap new_World es = Some w ->
  shutting_down (queue w) = false ->
  has_pending (queue w) g ->
  g ∈ waiting (queue w) \/ (0 < cnt g (ready w ++ suspended w))%nat.
Proof.
  assert (H : forall es w0 w, active_has_run w0 -> pending_is_covered w0 ->
                run cap w0 es = Some w -> pending_is_covered w).
  { clear. induction es as [|e es IH]; intros w0 w Ha Hp; cbn [run].
    - by intros [= <-].
    - destruct (step cap w0 e) as [w1|] eqn:E; [|discriminate].
      apply IH; [eapply step_active_has_run|eapply step_pending_is_covered]; eauto. }
  intros Hr Hsd Hp.
  apply (H es new_World w active_has_run_new); auto.
  intros _ g' Hg. exfalso.
  assert (Hs : state_of (queue new_World) g' = new_GroupState).
  { unfold state_of. cbn [queue new_World set_process_messages_fn with_fn new_Queue groups].
    by rewrite lookup_empty. }
  unfold has_pending, pending_flag, tasks_of in Hg. rewrite Hs in Hg.
  destruct Hg as [Hg|Hg]; [discriminate|by apply Hg].
Qed.

End Coverage.

Section Idempotence.
Variable cap : Z.

Lemma put_group_id q c st : groups q !! c = Some st -> put_group q c st = q.
Proof.
  intros H. destruct q as [g n w f s]. unfold put_group, with_groups; qsimpl.
  f_equal. by apply insert_id.
Qed.

Lemma lookup_put q c st : groups (put_group q c st) !! c = Some st.
Proof. unfold put_group; qsimpl. apply lookup_insert_eq. Qed.

Lemma lookup_append_waiting q c c' :
  groups (append_waiting q c) !! c' = groups q !! c'.
Proof. unfold append_waiting. by destruct (bool_decide _). Qed.

Lemma state_of_lookup q c st : groups q !! c = Some st -> state_of q c = st.
Proof. unfold state_of. by intros ->. Qed.

Lemma append_waiting_twice q c : append_waiting (append_waiting q c) c = append_waiting q c.
Proof.
  unfold append_waiting at 1. rewrite bool_decide_eq_true_2; [reflexivity|].
  unfold append_waiting. case_bool_decide; [done|]. cbn [waiting with_waiting].
  apply elem_of_app. right. by apply list_elem_of_singleton.
Qed.

Lemma existsb_last tid c l :
  existsb (fun t => bool_decide (qt_id t = tid)) (l ++ [mkQueuedTask tid c]) = true.
Proof.
  rewrite existsb_app. cbn. rewrite bool_decide_eq_true_2 by reflexivity.
  by rewrite orb_true_r.
Qed.

Lemma enqueue_message_check_twice q c q1 :
  enqueue_message_check cap q c = (q1, []) ->
  enqueue_message_check cap q1 c = (q1, []).
Proof.
  unfold enqueue_message_check at 1. destruct (shutting_down q) eqn:Hsd.
  { intros [= <-]. unfold enqueue_message_check. by rewrite Hsd. }
  rewrite get_group_eq.
  set (st1 := with_pending_messages true (state_of q c)).
  destruct (active (state_of q c)) eqn:Ha.
  { intros [= <-]. unfold enqueue_message_check. cbn [shutting_down put_group with_groups].
    rewrite Hsd, get_group_eq, (state_of_lookup _ c st1) by apply lookup_put.
    cbn [active st1 with_pending_messages]. rewrite Ha.
    f_equal. change (with_pending_messages true st1) with st1.
    by do 2 rewrite (put_group_id (put_group _ c st1) c st1) by apply lookup_put. }
  destruct (cap <=? active_count _) eqn:Hcap; [|discriminate].
  intros [= <-]. unfold enqueue_message_check.
  set (q2 := put_group (put_group q c (state_of q c)) c st1) in *.
  assert (Hl : groups (append_waiting q2 c) !! c = Some st1).
  { rewrite lookup_append_waiting. apply lookup_put. }
  assert (Hs : shutting_down (append_waiting q2 c) = false).
  { unfold append_waiting. destruct (bool_decide _); exact Hsd. }
  assert (Hc : active_count (append_waiting q2 c) = active_count q).
  { unfold append_waiting. by destruct (bool_decide _). }
  rewrite Hs, get_group_eq, (state_of_lookup _ c st1) by exact Hl.
  cbn [active st1 with_pending_messages]. rewrite Ha.
  fold st1. change (with_pending_messages true st1) with st1.
  rewrite !(put_group_id (append_waiting q2 c) c st1) by exact Hl.
  cbn [active_count put_group with_groups] in Hcap. rewrite Hc, Hcap.
  f_equal. apply append_waiting_twice.
Qed.

Lemma enqueue_task_twice q c tid q1 :
  enqueue_task cap q c tid = (q1, []) ->
  enqueue_task cap q1 c tid = (q1, []).
Proof.
  unfold enqueue_task at 1. destruct (shutting_down q) eqn:Hsd.
  { intros [= <-]. unfold enqueue_task. by rewrite Hsd. }
  rewrite get_group_eq.
  destruct (existsb _ (pending_tasks (state_of q c))) eqn:Eex.
  { intros [= <-]. unfold enqueue_task. cbn [shutting_down put_group with_groups].
    rewrite Hsd, get_group_eq, (state_of_lookup _ c (state_of q c)) by apply lookup_put.
    rewrite Eex. f_equal. apply put_group_id, lookup_put. }
  set (st1 := with_pending_tasks _ (state_of q c)).
  assert (Hex1 : existsb (fun t => bool_decide (qt_id t = tid)) (pending_tasks st1) = true)
    by apply existsb_last.
  destruct (active (state_of q c)) eqn:Ha.
  { intros [= <-]. unfold enqueue_task. cbn [shutting_down put_group with_groups].
    rewrite Hsd, get_group_eq, (state_of_lookup _ c st1) by apply lookup_put.
    rewrite Hex1. f_equal. apply put_group_id, lookup_put. }
  destruct (cap <=? active_count _) eqn:Hcap; [|discriminate].
  intros [= <-]. unfold enqueue_task.
  set (q2 := put_group (put_group q c (state_of q c)) c st1) in *.
  assert (Hl : groups (append_waiting q2 c) !! c = Some st1).
  { rewrite lookup_append_waiting. apply lookup_put. }
  assert (Hs : shutting_down (append_waiting q2 c) = false).
  { unfold append_waiting. destruct (bool_decide _); exact Hsd. }
  rewrite Hs, get_group_eq, (state_of_lookup _ c st1) by exact Hl.
  rewrite Hex1. f_equal. by apply put_group_id.
Qed.

(** X9: a call of [enqueue_message_check] or of [enqueue_task] that starts
    nothing is idempotent: the same call again leaves the queue exactly as
    it is, so repeated notifications collapse into one pending flag, one
    queued task per id and one entry of the waiting list. *)
Lemma second_enqueue_changes_nothing q c tid q1 :
  (enqueue_message_check cap q c = (q1, []) ->
   enqueue_message_check cap q1 c = (q1, []))
  /\ (enqueue_task cap q c tid = (q1, []) ->
      enqueue_task cap q1 c tid = (q1, [])).
Proof. split; [apply enqueue_message_check_twice|apply enqueue_task_twice]. Qed.

End Idempotence.

Section RetryLoop.
Variable cap : Z.

Lemma state_of_put_same q c g : state_of (put_group q c (state_of q c)) g = state_of q g.
Proof. rewrite state_of_put. by destruct (decide (c = g)) as [->|]. Qed.

(** A message check for an idle group, below the cap, creates the run. *)
Lemma enqueue_message_check_idle q c :
  shutting_down q = false -> act q c = false -> active_count q < cap ->
  enqueue_message_check cap q c = (put_group q c (state_of q c), [RunForGroup c "messages"]).
Proof.
  intros Hsd Ha Hc. unfold enqueue_message_check. rewrite Hsd, get_group_eq.
  unfold act in Ha. rewrite Ha.
  change (active_count (put_group q c (state_of q c))) with (active_count q).
  destruct (cap <=? active_count q) eqn:E; [apply Z.leb_le in E; lia|]. reflexivity.
Qed.

Lemma finish_nothing_pending q c :
  shutting_down q = false -> tasks_of q c = [] -> pending_flag q c = false ->
  waiting q = [] ->
  exists q', finish cap q c = (q', []) /\ waiting q' = [].
Proof.
  intros Hsd Ht Hp Hw. unfold finish, drain_group. rewrite !get_group_eq.
  cbn [shutting_down with_active_count put_group with_groups]. rewrite Hsd.
  set (q1 := with_active_count _ _).
  assert (E : pending_tasks (state_of q1 c) = [] /\ pending_messages (state_of q1 c) = false).
  { unfold q1. change (state_of (with_active_count ?n ?x) c) with (state_of x c).
    rewrite !state_of_put. destruct (decide (c = c)); [|congruence]. split; assumption. }
  destruct E as [-> ->]. unfold drain_waiting.
  change (waiting (put_group q1 c (state_of q1 c))) with (waiting q). rewrite Hw.
  cbn [drain_waiting_loop]. eexists. split; reflexivity.
Qed.

Lemma units_nil_retries l : units l = [] -> retries l = l.
Proof.
  unfold units, retries. induction l as [|c l IH]; [reflexivity|].
  rewrite !filter_cons. destruct c; cbn [is_unit];
    repeat (destruct (decide _); try congruence); try discriminate.
  intros H. f_equal. by apply IH.
Qed.

Lemma resume_nothing_pending q c o q' cr :
  shutting_down q = false -> tasks_of q c = [] -> pending_flag q c = false ->
  waiting q = [] ->
  run_for_group_resume cap q c o = (q', cr) ->
  waiting q' = [] /\ retries cr = cr.
Proof.
  intros Hsd Ht Hp Hw. unfold run_for_group_resume.
  pose proof (before_finish_book q c o) as Hb.
  pose proof (before_finish_pending q c o) as Hpd.
  cbv zeta in Hb, Hpd.
  destruct (match o with Success => _ | _ => _ end) as [q1 rs].
  cbn [fst snd] in Hb, Hpd. destruct Hb as ((_ & _ & Hsd1 & _) & Hw1 & Hu).
  destruct Hpd as [Hp1 Ht1].
  destruct (finish_nothing_pending q1 c) as (q2 & -> & Hw2).
  - by rewrite Hsd1.
  - by rewrite Ht1.
  - by rewrite Hp1.
  - by rewrite Hw1.
  - intros [= <- <-]. split; [exact Hw2|]. rewrite app_nil_r. by apply units_nil_retries.
Qed.

(** One failing check, through the loop: the loop starts the check, its
    callback ends with [o], and the retry is what is ready next. *)
Lemma failing_round q chat reason o :
  o <> Success -> quiet q chat -> 0 < cap ->
  exists q1,
    run cap (mkWorld q [RunForGroup chat reason] []) [LoopRunsNext; Resumes 0 o]
    = Some (mkWorld q1 (if rc_of q chat + 1 <=? MAX_RETRIES
                        then [Retry chat (delay_of (rc_of q chat))] else []) [])
    /\ quiet q1 chat
    /\ rc_of q1 chat = (if rc_of q chat + 1 <=? MAX_RETRIES then rc_of q chat + 1 else 0).
Proof.
  intros Ho (Hsd & Hfn & Hw & Hn & Ha & Ht) Hcap.
  cbn [run step ready queue suspended].
  destruct (start_one_book q (RunForGroup chat reason)) as (Ha1 & Hn1 & Hw1 & Hsd1 & Hfn1).
  cbn [start_one is_unit] in *.
  destruct (run_for_group_begin_pending q chat) as [Ht1 Hp1].
  rewrite Hfn1, Hfn. cbn [run step ready queue suspended app lookup list_lookup].
  pose proof (retry_backoff_step cap (run_for_group_begin q chat) chat o Ho) as Hstep.
  cbv zeta in Hstep. rewrite rc_of_begin in Hstep.
  destruct (run_for_group_resume cap (run_for_group_begin q chat) chat o) as [q1 cr] eqn:E.
  destruct (resume_nothing_pending _ _ _ _ _ ltac:(by rewrite Hsd1) ltac:(by rewrite Ht1)
              ltac:(by rewrite Hp1, decide_True) ltac:(by rewrite Hw1) E) as [Hw2 Hcr].
  destruct (run_for_group_resume_book cap _ _ _ _ _ E) as (Ha2 & Hn2 & Hsd2 & Hfn2 & _).
  destruct (run_for_group_resume_pending cap _ _ _ _ _ E) as (_ & Ht2 & _).
  exists q1. rewrite Hcr in Hstep.
  assert (Hq : quiet q1 chat).
  { unfold quiet. splits.
    - by rewrite Hsd2, Hsd1.
    - by rewrite Hfn2, Hfn1.
    - exact Hw2.
    - rewrite Hn2, Hn1, Hn. lia.
    - rewrite Ha2. by rewrite decide_True.
    - specialize (Ht2 chat). rewrite Ht1, Ht in Ht2. by apply suffix_nil_inv in Ht2. }
  unfold remove_nth. cbn [take drop app].
  destruct (rc_of q chat + 1 <=? MAX_RETRIES); destruct Hstep as [-> Hrc];
    (split; [|split; [exact Hq|exact Hrc]]).
  - unfold delay_of. by rewrite Z.add_simpl_r.
  - reflexivity.
Qed.

(** The retry, through the loop: the loop starts it, it sleeps, and when
    the sleep is over it calls [enqueue_message_check], which creates the
    next message check. *)
Lemma retry_fires q chat delay o' :
  quiet q chat -> 0 < cap ->
  exists q2,
    run cap (mkWorld q [Retry chat delay] []) [LoopRunsNext; Resumes 0 o']
    = Some (mkWorld q2 [RunForGroup chat "messages"] [])
    /\ quiet q2 chat /\ rc_of q2 chat = rc_of q chat.
Proof.
  intros (Hsd & Hfn & Hw & Hn & Ha & Ht) Hcap.
  cbn [run step ready queue suspended app lookup list_lookup]. rewrite Hsd.
  rewrite enqueue_message_check_idle by (assumption || lia).
  eexists. split; [reflexivity|]. split.
  - unfold quiet, act, tasks_of. rewrite !state_of_put_same. splits; assumption.
  - unfold rc_of. by rewrite state_of_put_same.
Qed.

Lemma failing_rounds_spec chat o : o <> Success -> 0 < cap -> forall n q reason,
  quiet q chat ->
  rc_of q chat + Z.of_nat n <= MAX_RETRIES ->
  exists w',
    failing_rounds cap o n (mkWorld q [RunForGroup chat reason] [])
    = Some (w', map (fun i => [Retry chat (delay_of (rc_of q chat + Z.of_nat i))]) (seq 0 n))
    /\ quiet (queue w') chat
    /\ rc_of (queue w') chat = rc_of q chat + Z.of_nat n
    /\ suspended w' = []
    /\ exists reason', ready w' = [RunForGroup chat reason'].
Proof.
  intros Ho Hcap. induction n as [|n IH]; intros q reason Hq Hle.
  - cbn [failing_rounds seq map]. eexists. split; [reflexivity|]. cbn [queue suspended ready].
    splits; eauto. lia.
  - rewrite Nat2Z.inj_succ in Hle |- *.
    cbn [failing_rounds].
    destruct (failing_round q chat reason o Ho Hq Hcap) as (q1 & -> & Hq1 & Hrc1).
    destruct (rc_of q chat + 1 <=? MAX_RETRIES) eqn:E; [|apply Z.leb_gt in E; lia].
    cbn [ready].
    destruct (retry_fires q1 chat (delay_of (rc_of q chat)) Success Hq1 Hcap)
      as (q2 & -> & Hq2 & Hrc2).
    destruct (IH q2 "messages" Hq2) as (w' & -> & Hq' & Hrc' & Hs' & Hr').
    { rewrite Hrc2, Hrc1. lia. }
    exists w'. split.
    + f_equal. f_equal. cbn [seq map]. f_equal.
      * by rewrite Z.add_0_r.
      * rewrite <- seq_shift, map_map. apply map_ext. intros i.
        rewrite Hrc2, Hrc1. do 3 f_equal. lia.
    + splits; auto. rewrite Hrc', Hrc2, Hrc1. lia.
Qed.

Lemma last_failure_is_dropped q chat reason o :
  o <> Success -> 0 < cap -> quiet q chat -> rc_of q chat = MAX_RETRIES ->
  exists w',
    failing_rounds cap o 1 (mkWorld q [RunForGroup chat reason] []) = Some (w', [[]])
    /\ rc_of (queue w') chat = 0 /\ ready w' = [] /\ suspended w' = [].
Proof.
  intros Ho Hcap Hq Hrc. cbn [failing_rounds].
  destruct (failing_round q chat reason o Ho Hq Hcap) as (q1 & -> & Hq1 & Hrc1).
  rewrite Hrc in *. change (MAX_RETRIES + 1 <=? MAX_RETRIES) with false in *.
  cbn [ready]. eexists. split; [reflexivity|]. cbn [queue ready suspended]. auto.
Qed.

(** C5: when the callback of a message check reports failure (it returns
    false, or raises), the group's [retry_count] is incremented to [rc]; as
    long as [rc] is at most [MAX_RETRIES] = 5 exactly one retry of
    [enqueue_message_check] for that group is created, with delay
    [BASE_RETRY_SECONDS * 2^(rc-1)]; otherwise no retry is created and
    [retry_count] is reset to zero.  Counted from a counter at zero, up to
    five failures in a row give the delays [BASE_RETRY_SECONDS * 2^0],
    [BASE_RETRY_SECONDS * 2^1], ... in that order.

    On the event loop: the failed check puts that retry on the ready queue;
    the loop starts it and it sleeps; when its sleep is over, outside
    shutdown, it calls [enqueue_message_check] for the group, which creates
    the next message check when the group is idle and the cap is not
    reached.  So, for a group that is alone at work, [n] checks failing in
    a row, each retry firing before the next check, schedule retries with
    the delays [BASE_RETRY_SECONDS * 2^k], [k] counting on from the
    counter; and the check that fails with the counter at [MAX_RETRIES]
    resets it and leaves nothing ready or asleep. *)
Theorem retry_backoff q chat (o : outcome) :
  o <> Success ->
  (let rc := rc_of q chat + 1 in
   let '(q', created) := run_for_group_resume cap q chat o in
   if rc <=? MAX_RETRIES then
     retries created = [Retry chat (delay_of (rc - 1))] /\ rc_of q' chat = rc
   else
     retries created = [] /\ rc_of q' chat = 0)
  /\ (rc_of q chat = 0 ->
      forall n, Z.of_nat n <= MAX_RETRIES ->
        let '(q', rs) := failures cap o n q chat in
        rs = map (fun i => Retry chat (delay_of (Z.of_nat i))) (seq 0 n)
        /\ rc_of q' chat = Z.of_nat n)
  /\ (forall w i reason,
        queue w = q -> suspended w !! i = Some (RunForGroup chat reason) ->
        step cap w (Resumes i o)
        = Some (mkWorld (fst (run_for_group_resume cap q chat o))
                        (ready w ++ snd (run_for_group_resume cap q chat o))
                        (remove_nth i (suspended w))))
  /\ (forall w delay rest,
        ready w = Retry chat delay :: rest ->
        step cap w LoopRunsNext
        = Some (mkWorld (queue w) rest (suspended w ++ [Retry chat delay])))
  /\ (forall w i delay o',
        queue w = q -> shutting_down q = false ->
        suspended w !! i = Some (Retry chat delay) ->
        step cap w (Resumes i o')
        = Some (mkWorld (fst (enqueue_message_check cap q chat))
                        (ready w ++ snd (enqueue_message_check cap q chat))
                        (remove_nth i (suspended w)))
        /\ (act q chat = false -> active_count q < cap ->
            snd (enqueue_message_check cap q chat) = [RunForGroup chat "messages"]))
  /\ (quiet q chat -> 0 < cap ->
      (forall n reason,
         rc_of q chat + Z.of_nat n <= MAX_RETRIES ->
         exists w',
           failing_rounds cap o n (mkWorld q [RunForGroup chat reason] [])
           = Some (w', map (fun i => [Retry chat (delay_of (rc_of q chat + Z.of_nat i))])
                           (seq 0 n))
           /\ rc_of (queue w') chat = rc_of q chat + Z.of_nat n)
      /\ (forall reason,
            rc_of q chat = MAX_RETRIES ->
            exists w',
              failing_rounds cap o 1 (mkWorld q [RunForGroup chat reason] [])
              = Some (w', [[]])
              /\ rc_of (queue w') chat = 0 /\ ready w' = [] /\ suspended w' = [])).
Proof.
  intros Ho. split; [|split; [|split; [|split; [|split]]]].
  - exact (retry_backoff_step cap q chat o Ho).
  - intros H0 n Hn. exact (failures_from cap chat o Ho n q 0 H0 Hn).
  - intros w i reason <- Hi. cbn [step]. rewrite Hi.
    by destruct (run_for_group_resume cap (queue w) chat o).
  - intros w delay rest Hr. cbn [step]. by rewrite Hr.
  - intros w i delay o' <- Hsd Hi. split.
    + cbn [step]. rewrite Hi, Hsd.
      by destruct (enqueue_message_check cap (queue w) chat).
    + intros Ha Hc. by rewrite enqueue_message_check_idle.
  - intros Hq Hcap. split.
    + intros n reason Hle.
      destruct (failing_rounds_spec chat o Ho Hcap n q reason Hq Hle)
        as (w' & E & _ & Hrc & _).
      eauto.
    + intros reason Hrc. by apply last_failure_is_dropped.
Qed.

End RetryLoop.



(** C1 (the code at two failing inputs), with a cap of 2.  First, three
    chats get new messages in one pass of the message loop:
    [_active_count] is only incremented when a created run takes its first
    step, so all three calls see a count of 0, all three runs are created,
    and once the loop has started them three units of work are in progress.
    Second, with two runs in progress and two groups waiting, one run
    completes: the loop of [_drain_waiting] sees the same count for both
    waiting groups and starts both, and again three units are in
    progress. *)
Theorem cap_exceeded_by_burst :
  (exists w, run 2 new_World burst = Some w
    /\ active_count (queue w) = 3
    /\ active_units w = [RunForGroup "g1" "messages"; RunForGroup "g2" "messages";
                         RunForGroup "g3" "messages"])
  /\ (exists w, run 2 new_World slot_freed = Some w
    /\ active_count (queue w) = 3
    /\ active_units w = [RunForGroup "g2" "messages"; RunForGroup "g3" "drain";
                         RunForGroup "g4" "drain"]).
Proof.
  split; eexists; (split; [vm_compute; reflexivity|]); split; vm_compute; reflexivity.
Qed.

(** C2 (the code at a failing input): two due jobs of the same chat are
    enqueued back to back; both runs are created, because [active] is only
    set when a created run takes its first step, and both are then in
    progress for the one group at the same time. *)
Theorem two_units_for_one_group :
  exists w, run 2 new_World two_due_tasks = Some w
    /\ active_units_of "g1" w
       = [RunTask "g1" (mkQueuedTask "t1" "g1"); RunTask "g1" (mkQueuedTask "t2" "g1")]
    /\ active_count (queue w) = 2.
Proof. eexists. split; [vm_compute; reflexivity|]. split; vm_compute; reflexivity. Qed.

(** C8 as stated fails while the queue is shutting down: a unit of work of
    a group with a queued task and a pending message check completes, and
    nothing is started. *)
Lemma drain_during_shutdown_starts_nothing :
  exists w w',
    run 2 new_World shutdown_with_backlog = Some w
    /\ suspended w = [RunForGroup "g1" "messages"]
    /\ tasks_of (queue w) "g1" = [mkQueuedTask "t1" "g1"]
    /\ pending_messages (state_of (queue w) "g1") = true
    /\ step 2 w (Resumes 0 Success) = Some w'
    /\ ready w' = [] /\ suspended w' = [].
Proof. eexists _, _. split; [vm_compute; reflexivity|]. splits; vm_compute; reflexivity. Qed.

Lemma drain_tasks_before_messages_witness :
  exists q',
    run_task_resume 2 backlog_queue "g1" = (q', [RunTask "g1" (mkQueuedTask "t1" "g1")])
    /\ tasks_of q' "g1" = [].
Proof.
  refine (proj1 (proj2 (drain_tasks_before_messages 2 backlog_queue "g1"
            (mkQueuedTask "t1" "g1") [] _ _))); vm_compute; reflexivity.
Defined.

(** The message check of g1 is in progress and fails: the retry is made
    ready with a delay of five seconds; the loop starts it, and when its
    sleep is over the next message check of g1 is created.  And from the
    idle queue, five checks failing in a row give the five delays. *)
Lemma retry_backoff_witness :
  Failure <> Success
  /\ (exists w1 w2 w3,
        step 2 running_g1 (Resumes 0 Failure) = Some w1
        /\ ready w1 = [Retry "g1" 5%Q] /\ rc_of (queue w1) "g1" = 1
        /\ step 2 w1 LoopRunsNext = Some w2
        /\ suspended w2 = [Retry "g1" 5%Q]
        /\ step 2 w2 (Resumes 0 Success) = Some w3
        /\ ready w3 = [RunForGroup "g1" "messages"])
  /\ (exists w,
        failing_rounds 2 Failure 5
          (mkWorld (set_process_messages_fn new_Queue) [RunForGroup "g1" "messages"] [])
        = Some (w, [[Retry "g1" 5%Q]; [Retry "g1" 10%Q]; [Retry "g1" 20%Q];
                    [Retry "g1" 40%Q]; [Retry "g1" 80%Q]])
        /\ rc_of (queue w) "g1" = 5).
Proof.
  split; [discriminate|]. split.
  - destruct (retry_backoff 2 (queue running_g1) "g1" Failure ltac:(discriminate))
      as (_ & _ & Hfail & _).
    pose proof (Hfail running_g1 0%nat "messages" eq_refl eq_refl) as H1.
    eexists _, _, _. split; [exact H1|].
    split; [vm_compute; reflexivity|]. split; [vm_compute; reflexivity|].
    split; [vm_compute; reflexivity|]. split; [vm_compute; reflexivity|].
    split; vm_compute; reflexivity.
  - destruct (retry_backoff 2 (set_process_messages_fn new_Queue) "g1" Failure
                ltac:(discriminate)) as (_ & _ & _ & _ & _ & Hloop).
    destruct Hloop as [Hn _].
    { unfold quiet. vm_compute. repeat split. }
    { lia. }
    destruct (Hn 5%nat "messages") as (w & E & Hrc).
    { vm_compute. discriminate. }
    exists w. split; [|exact Hrc].
    rewrite E. vm_compute. reflexivity.
Defined.

(** Six failures in a row of the message check of one group, each retry
    firing before the next: the delays are 5, 10, 20, 40 and 80 seconds, and
    the sixth failure schedules nothing and leaves the counter at zero. *)
Lemma six_failures_in_a_row :
  exists w0 w,
    step 2 new_World (CallEnqueueMessageCheck "g1") = Some w0
    /\ failing_rounds 2 Failure 6 w0
       = Some (w, [[Retry "g1" 5%Q]; [Retry "g1" 10%Q]; [Retry "g1" 20%Q];
                   [Retry "g1" 40%Q]; [Retry "g1" 80%Q]; []])
    /\ rc_of (queue w) "g1" = 0 /\ ready w = [] /\ suspended w = [].
Proof.
  eexists _, _. split; [vm_compute; reflexivity|].
  split; [vm_compute; reflexivity|]. splits; vm_compute; reflexivity.
Qed.

(** ** The invariants at concrete schedules *)

Lemma reachable_accounted_witness :
  exists w, run 2 new_World burst = Some w /\ accounted w.
Proof.
  eexists. split; [vm_compute; reflexivity|].
  apply (reachable_accounted 2 burst). vm_compute. reflexivity.
Defined.

Lemma prompt_starts_one_unit_per_group_witness :
  exists w, prompt_run 2 new_World [CallEnqueueTask "g1" "t1"; CallEnqueueTask "g1" "t2"] = Some w
    /\ (length (active_units_of "g1" w) <= 1)%nat.
Proof.
  eexists. split; [vm_compute; reflexivity|].
  apply (prompt_starts_one_unit_per_group 2 [CallEnqueueTask "g1" "t1"; CallEnqueueTask "g1" "t2"]).
  vm_compute. reflexivity.
Defined.

Lemma shutdown_starts_nothing_witness :
  exists w w', run 2 new_World shutdown_with_backlog = Some w
    /\ run 2 w [Resumes 0 Failure; LoopRunsNext; Resumes 0 Success] = Some w'
    /\ shutting_down (queue w') = true
    /\ no_unit_created w w'
    /\ in_flight w' <= in_flight w.
Proof.
  eexists _, _. split; [vm_compute; reflexivity|]. split; [vm_compute; reflexivity|].
  refine (shutdown_starts_nothing 2 [Resumes 0 Failure; LoopRunsNext; Resumes 0 Success]
            _ _ _ _);
    vm_compute; reflexivity.
Defined.

Lemma waiting_list_has_no_duplicates_witness :
  exists w, run 2 new_World two_waiting = Some w
    /\ waiting (queue w) = ["g3"; "g4"] /\ NoDup (waiting (queue w)).
Proof.
  eexists. split; [vm_compute; reflexivity|]. split; [vm_compute; reflexivity|].
  apply (waiting_list_has_no_duplicates 2 two_waiting). vm_compute. reflexivity.
Defined.

Lemma queued_task_ids_are_unique_witness :
  exists w, run 2 new_World queued_twice = Some w
    /\ NoDup (qt_id <$> tasks_of (queue w) "g1").
Proof.
  eexists. split; [vm_compute; reflexivity|].
  apply (queued_task_ids_are_unique 2 queued_twice). vm_compute. reflexivity.
Defined.

Lemma follow_up_needs_a_run_in_progress_witness :
  exists w, run 2 new_World registered_run = Some w
    /\ snd (send_message (queue w) "g1" "more" true) = Some ("main", "more")
    /\ (0 < length (active_units_of "g1" w))%nat.
Proof.
  eexists. split; [vm_compute; reflexivity|]. split; [vm_compute; reflexivity|].
  apply (follow_up_needs_a_run_in_progress 2 registered_run _ "g1" "more" true "main" "more");
    vm_compute; reflexivity.
Defined.

Lemma no_group_waits_below_capacity_witness :
  exists w, run 2 new_World two_waiting = Some w
    /\ 2 <= count_units (suspended w) + count_units (ready w).
Proof.
  eexists. split; [vm_compute; reflexivity|].
  apply (no_group_waits_below_capacity 2 two_waiting); vm_compute; [reflexivity..|discriminate].
Defined.

Lemma pending_work_is_not_stranded_witness :
  exists w, run 2 new_World two_waiting = Some w
    /\ ("g4" ∈ waiting (queue w) \/ (0 < cnt "g4" (ready w ++ suspended w))%nat).
Proof.
  eexists. split; [vm_compute; reflexivity|].
  apply (pending_work_is_not_stranded 2 two_waiting); [vm_compute; reflexivity..|].
  right. vm_compute. discriminate.
Defined.

Lemma second_enqueue_changes_nothing_witness :
  (exists q1, enqueue_message_check 2 backlog_queue "g1" = (q1, [])
     /\ enqueue_message_check 2 q1 "g1" = (q1, []))
  /\ (exists q1, enqueue_task 2 backlog_queue "g1" "t2" = (q1, [])
     /\ enqueue_task 2 q1 "g1" "t2" = (q1, [])).
Proof.
  split; eexists; (split; [vm_compute; reflexivity|]).
  - apply (proj1 (second_enqueue_changes_nothing 2 backlog_queue "g1" "t2" _)).
    vm_compute. reflexivity.
  - apply (proj2 (second_enqueue_changes_nothing 2 backlog_queue "g1" "t2" _)).
    vm_compute. reflexivity.
Defined.

End GroupQueueProps.

(* ===================================================================== *)
(** * Properties of the output reader *)
(* ===================================================================== *)

Section ContainerRunnerProps.
Import ContainerRunner.

Variable json_loads : string -> option json.
Variable utf8 : string -> string.
Variable cap : Z.
Variable on_output : bool.

Abbreviation read_line := (read_line json_loads cap on_output).
Abbreviation read_lines := (read_lines json_loads utf8 cap on_output).
Abbreviation read_texts := (read_texts json_loads cap on_output).
Abbreviation texts := (texts utf8).
Abbreviation decode := (decode json_loads).
Abbreviation envelopes := (envelopes json_loads).
Abbreviation forwarded := (forwarded on_output).

Lemma len_nonneg line : 0 <= len line.
Proof. unfold len, Py.len. lia. Qed.

(** [readline] on a line within the limit, and on a longer one. *)
Lemma readline_within raw : within_limit raw -> readline raw = Some raw.
Proof.
  unfold within_limit, readline. intros Hraw.
  destruct (READLINE_LIMIT <? _) eqn:E; [apply Z.ltb_lt in E; lia|reflexivity].
Qed.

Lemma readline_Some raw line_bytes : readline raw = Some line_bytes -> line_bytes = raw.
Proof. unfold readline. destruct (READLINE_LIMIT <? _); [discriminate|]. by intros [= <-]. Qed.

Lemma readline_over raw : ~ within_limit raw -> readline raw = None.
Proof.
  unfold within_limit, readline. intros Hraw.
  destruct (READLINE_LIMIT <? _) eqn:E; [reflexivity|apply Z.ltb_ge in E; lia].
Qed.

(** Without a line over the limit the loop is the loop on the texts. *)
Lemma read_lines_texts stream : forall r,
  Forall within_limit stream -> read_lines r stream = read_texts r (texts stream).
Proof.
  unfold ContainerRunner.texts.
  induction stream as [|raw rest IH]; intros r Hs; [reflexivity|].
  apply Forall_cons in Hs as [Hraw Hs].
  cbn [ContainerRunner.read_lines ContainerRunner.read_texts map].
  rewrite (readline_within _ Hraw).
  destruct (read_line r (utf8 raw)); [by apply IH|reflexivity].
Qed.

(** A line over the limit ends the reader there. *)
Lemma line_over_limit_ends_the_reader r raw rest :
  ~ within_limit raw -> read_lines r (raw :: rest) = Raised (delivered r).
Proof. intros Hraw. cbn [ContainerRunner.read_lines]. by rewrite (readline_over _ Hraw). Qed.










(** Every stream has a reading as blocks. *)
Lemma stream_blocks_total lines :
  (exists bs, stream_blocks lines bs)
  /\ (forall content, Forall (fun l => ~ is_marker l) content ->
        exists bs, stream_blocks (OUTPUT_START :: content ++ lines) bs).
Proof.
  induction lines as [|l rest [[bs0 IH1] IH2]].
  - split; [exists []; constructor|].
    intros content Hc. exists []. rewrite app_nil_r. by apply sb_unclosed.
  - assert (Hst : exists bs, stream_blocks (OUTPUT_START :: rest) bs).
    { apply (IH2 []). constructor. }
    split.
    + destruct (decide (l = OUTPUT_START)) as [->|Hl]; [exact Hst|].
      exists bs0. by apply sb_noise.
    + intros content Hc.
      destruct (decide (l = OUTPUT_START)) as [->|Hl].
      { destruct Hst as [bs Hst]. exists bs. by apply sb_restarted. }
      destruct (decide (l = OUTPUT_END)) as [->|Hl'].
      { exists (content :: bs0). by apply sb_block. }
      destruct (IH2 (content ++ [l])) as [bs Hbs].
      { apply Forall_app. split; [exact Hc|]. constructor; [|constructor].
        unfold is_marker. tauto. }
      exists bs. rewrite <- app_assoc in Hbs. exact Hbs.
Qed.

(** The reading is unique: [scan] computes it. *)
Lemma scan_content content : forall acc rest,
  Forall (fun l => ~ is_marker l) content ->
  scan (Some acc) (content ++ rest) = scan (Some (acc ++ content)) rest.
Proof.
  induction content as [|l c IH]; intros acc rest Hc; cbn [app].
  - by rewrite app_nil_r.
  - apply Forall_cons in Hc as [Hl Hc]. unfold is_marker in Hl.
    cbn [scan]. repeat case_bool_decide; try tauto.
    rewrite IH by exact Hc. by rewrite <- app_assoc.
Qed.

Lemma scan_begin cur rest : scan cur (OUTPUT_START :: rest) = scan (Some []) rest.
Proof. cbn [scan]. case_bool_decide; [reflexivity|congruence]. Qed.

Lemma stream_blocks_scan lines bs : stream_blocks lines bs -> scan None lines = bs.
Proof.
  assert (OUTPUT_END <> OUTPUT_START) by discriminate.
  induction 1 as [|line rest bs Hline _ IH|content rest bs Hc _ IH|content Hc
                  |content rest bs Hc _ IH].
  - reflexivity.
  - cbn [scan]. case_bool_decide; [congruence|]. exact IH.
  - rewrite scan_begin, scan_content by exact Hc. cbn [scan app].
    repeat case_bool_decide; congruence.
  - rewrite scan_begin. rewrite <- (app_nil_r content).
    rewrite scan_content by exact Hc. reflexivity.
  - rewrite scan_begin, scan_content by exact Hc.
    rewrite scan_begin. rewrite <- (scan_begin None). exact IH.
Qed.

Lemma stream_blocks_functional lines bs bs' :
  stream_blocks lines bs -> stream_blocks lines bs' -> bs = bs'.
Proof. intros H H'. by rewrite <- (stream_blocks_scan _ _ H), <- (stream_blocks_scan _ _ H'). Qed.

(** Once the running total is over the cap no block is decoded any more:
    whatever follows, the reader runs to the end of the stream and returns
    what it had. *)
Lemma over_cap_reads_nothing (Hempty : json_loads EmptyString = None) lines : forall r,
  cap < total_size r ->
  (in_output r = true -> buffer r = []) ->
  read_texts r lines = Returned (final r) (delivered r).
Proof.
  induction lines as [|l rest IH]; intros r Hover Hbuf; [reflexivity|].
  cbn [ContainerRunner.read_texts]. unfold ContainerRunner.read_line.
  case_bool_decide.
  { rewrite IH; auto. }
  destruct (bool_decide (l = OUTPUT_END) && in_output r) eqn:E.
  { apply andb_true_iff in E as [_ Hin]. rewrite (Hbuf Hin).
    unfold ContainerRunner.decode. cbn [join_lines String.concat]. rewrite Hempty.
    rewrite IH; auto. }
  destruct (in_output r) eqn:Hin; [|rewrite IH; auto; congruence].
  pose proof (len_nonneg l).
  destruct (cap <? total_size r + len l) eqn:E'; [|apply Z.ltb_ge in E'; lia].
  rewrite IH; cbn [total_size in_output final delivered]; auto; try lia; discriminate.
Qed.

(** Nor is anything forwarded when a later line is over the limit of the
    stream reader. *)
Lemma over_cap_forwards_nothing (Hempty : json_loads EmptyString = None) stream : forall r,
  cap < total_size r ->
  (in_output r = true -> buffer r = []) ->
  sent_by (read_lines r stream) = delivered r.
Proof.
  induction stream as [|raw rest IH]; intros r Hover Hbuf; [reflexivity|].
  cbn [ContainerRunner.read_lines].
  destruct (readline raw) as [line_bytes|]; [|reflexivity].
  generalize (utf8 line_bytes). intros l.
  unfold ContainerRunner.read_line.
  case_bool_decide.
  { rewrite IH; auto. }
  destruct (bool_decide (l = OUTPUT_END) && in_output r) eqn:E.
  { apply andb_true_iff in E as [_ Hin]. rewrite (Hbuf Hin).
    unfold ContainerRunner.decode. cbn [join_lines String.concat]. rewrite Hempty.
    rewrite IH; auto. }
  destruct (in_output r) eqn:Hin; [|rewrite IH; auto; congruence].
  pose proof (len_nonneg l).
  destruct (cap <? total_size r + len l) eqn:E'; [|apply Z.ltb_ge in E'; lia].
  rewrite IH; cbn [total_size in_output final delivered]; auto; try lia; discriminate.
Qed.

(** C7 (amended): when a line read inside a block takes the running total
    of in-block characters over the maximum, that block is abandoned (it is
    neither parsed nor forwarded); the total is never reset, so no later
    block is parsed or forwarded either, whatever follows.  The cap itself
    never ends the run: when no line is longer than the 64 KiB line limit
    of the stream reader, the reader goes on scanning to the end of the
    stream and returns normally, with the result it had before. *)
Theorem cap_abandons_all_later_blocks
    (Hempty : json_loads EmptyString = None) r raw rest :
  in_output r = true ->
  within_limit raw ->
  ~ is_marker (utf8 raw) ->
  cap < total_size r + len (utf8 raw) ->
  sent_by (ContainerRunner.read_lines json_loads utf8 cap on_output r (raw :: rest))
  = delivered r
  /\ (Forall within_limit rest ->
      ContainerRunner.read_lines json_loads utf8 cap on_output r (raw :: rest)
      = Returned (final r) (delivered r)).
Proof.
  intros Hin Hraw Hl Hover. unfold is_marker in Hl.
  assert (Hstep : read_line r (utf8 raw)
                  = Some (mkReader (final r) (buffer r) false
                                   (total_size r + len (utf8 raw)) (delivered r))).
  { unfold ContainerRunner.read_line.
    repeat case_bool_decide; try tauto. cbn [andb]. rewrite Hin.
    destruct (cap <? total_size r + len (utf8 raw)) eqn:E; [reflexivity|].
    apply Z.ltb_ge in E. lia. }
  split.
  - cbn [ContainerRunner.read_lines]. rewrite (readline_within _ Hraw), Hstep.
    rewrite over_cap_forwards_nothing; cbn [total_size in_output final delivered]; auto.
    discriminate.
  - intros Hrest.
    rewrite read_lines_texts by (constructor; assumption).
    cbn [ContainerRunner.texts map ContainerRunner.read_texts]. rewrite Hstep.
    rewrite over_cap_reads_nothing; cbn [total_size in_output final delivered]; auto.
    discriminate.
Qed.

End ContainerRunnerProps.

Section ContainerRunnerExamples.
Import ContainerRunner.

Ltac not_markers :=
  repeat constructor; unfold is_marker; intros [?|?]; discriminate.

Ltac short_lines :=
  repeat constructor; unfold within_limit; vm_compute; discriminate.




(** C7 as stated fails on the block that follows an abandoned one: it is
    well formed and short, and it is not delivered. *)
Lemma block_after_cap_is_lost :
  stream_blocks long_then_short [["0123456789ab"]; ["{}"]]
  /\ envelopes sample_json_loads [["{}"]] = [success_envelope]
  /\ read_container_output sample_json_loads sample_utf8 10 true long_then_short
     = Returned no_output_received [].
Proof.
  split; [|split; vm_compute; reflexivity].
  apply (sb_block ["0123456789ab"]); [not_markers|].
  apply (sb_block ["{}"] []); [not_markers|constructor].
Qed.

Lemma cap_abandons_all_later_blocks_witness :
  sent_by (read_lines sample_json_loads sample_utf8 10 true
             (mkReader no_output_received [] true 0 [])
             ["0123456789ab"; OUTPUT_END; OUTPUT_START; "{}"; OUTPUT_END]) = []
  /\ read_lines sample_json_loads sample_utf8 10 true
       (mkReader no_output_received [] true 0 [])
       ["0123456789ab"; OUTPUT_END; OUTPUT_START; "{}"; OUTPUT_END]
     = Returned no_output_received [].
Proof.
  destruct (cap_abandons_all_later_blocks sample_json_loads sample_utf8 10 true eq_refl
              (mkReader no_output_received [] true 0 []) "0123456789ab"
              [OUTPUT_END; OUTPUT_START; "{}"; OUTPUT_END]) as [Hsent Hret].
  - reflexivity.
  - unfold within_limit. vm_compute. discriminate.
  - unfold is_marker. intros [H|H]; discriminate.
  - vm_compute. reflexivity.
  - split; [exact Hsent|]. apply Hret. short_lines.
Defined.

(** A closed block of valid JSON that is not an object is not skipped: the
    exception it causes is not the one the loop catches, and the reader
    stops there. *)
Lemma non_object_json_ends_the_reader :
  read_container_output sample_json_loads sample_utf8 10485760 true
    [OUTPUT_START; "[]"; OUTPUT_END; OUTPUT_START; "{}"; OUTPUT_END]
  = Raised [].
Proof. vm_compute. reflexivity. Qed.

(** Nor is a line of more than 64 KiB: [readline] raises on it, and the
    block that follows the line is never read. *)
Lemma long_line_ends_the_reader :
  read_container_output sample_json_loads sample_utf8 10485760 true
    [OUTPUT_START; "{}"; OUTPUT_END; long_line; OUTPUT_START; error_text; OUTPUT_END]
  = Raised [success_envelope].
Proof. vm_compute. reflexivity. Qed.

(** [len] counts code points: the two bytes of U+00E9 are one character,
    the three of U+20AC are one. *)
Lemma len_counts_code_points :
  len (String "195"%char (String "169"%char "a")) = 2
  /\ len (String "226"%char (String "130"%char (String "172"%char EmptyString))) = 1.
Proof. split; vm_compute; reflexivity. Qed.

End ContainerRunnerExamples.

(* ===================================================================== *)
(** * Properties of the output reader on every stream *)
(* ===================================================================== *)

Section ContainerRunnerStreams.
Import ContainerRunner.

Section AnyCallback.
Variable json_loads : string -> option json.
Variable utf8 : string -> string.
Variable cap : Z.
Variable on_output : bool.

#[local] Abbreviation read_line := (read_line json_loads cap on_output).
#[local] Abbreviation read_lines := (read_lines json_loads utf8 cap on_output).
#[local] Abbreviation read_texts := (read_texts json_loads cap on_output).
#[local] Abbreviation decode := (decode json_loads).
#[local] Abbreviation envelopes := (envelopes json_loads).

Lemma last_snoc {A} (l : list A) a d : List.last (l ++ [a]) d = a.
Proof. apply List.last_last. Qed.

Lemma read_line_last r line r' :
  on_output = true ->
  final r = List.last (delivered r) no_output_received ->
  read_line r line = Some r' ->
  final r' = List.last (delivered r') no_output_received.
Proof.
  intros Hon Hr. unfold ContainerRunner.read_line.
  case_bool_decide; [intros [= <-]; exact Hr|].
  destruct (bool_decide (line = OUTPUT_END) && in_output r).
  { destruct (decode _) as [o| |]; [| |discriminate].
    - intros [= <-]. cbn [final delivered]. rewrite Hon. by rewrite last_snoc.
    - intros [= <-]. exact Hr. }
  destruct (in_output r); [|intros [= <-]; exact Hr].
  destruct (cap <? _); intros [= <-]; exact Hr.
Qed.

Lemma read_lines_last stream : forall r fin sent,
  on_output = true ->
  final r = List.last (delivered r) no_output_received ->
  read_lines r stream = Returned fin sent ->
  fin = List.last sent no_output_received.
Proof.
  induction stream as [|raw rest IH]; intros r fin sent Hon Hr; cbn [ContainerRunner.read_lines].
  - intros [= <- <-]. exact Hr.
  - destruct (readline raw) as [line_bytes|]; [|discriminate].
    destruct (read_line r (utf8 line_bytes)) as [r'|] eqn:E; [|discriminate].
    apply IH; [exact Hon|]. eapply read_line_last; eauto.
Qed.

Lemma sublist_envelopes_cons b bs : envelopes bs `sublist_of` envelopes (b :: bs).
Proof.
  cbn [ContainerRunner.envelopes]. destruct (decode _); [by apply sublist_cons|done..].
Qed.

Lemma scan_weaken lines : forall cur,
  envelopes (scan None lines) `sublist_of` envelopes (scan cur lines).
Proof.
  induction lines as [|line rest IH]; intros cur; cbn [scan]; [done|].
  case_bool_decide; [done|].
  destruct cur as [c|]; [|done].
  case_bool_decide; [apply sublist_envelopes_cons|]. apply IH.
Qed.

Lemma read_lines_from_blocks stream : forall r cur,
  in_step r cur ->
  exists later,
    sent_by (read_lines r stream) = delivered r ++ later
    /\ later `sublist_of` forwarded on_output (envelopes (scan cur (map utf8 stream))).
Proof.
  unfold in_step.
  induction stream as [|raw rest IH]; intros r cur Hr;
    cbn [ContainerRunner.read_lines map scan sent_by].
  { exists []. split; [by rewrite app_nil_r|apply sublist_nil_l]. }
  destruct (readline raw) as [line_bytes|] eqn:Eraw.
  2:{ exists []. cbn [sent_by]. split; [by rewrite app_nil_r|apply sublist_nil_l]. }
  apply readline_Some in Eraw as ->.
  generalize (utf8 raw). intros line.
  unfold ContainerRunner.read_line.
  case_bool_decide as Hs.
  { apply (IH (mkReader (final r) [] true (total_size r) (delivered r)) (Some [])).
    reflexivity. }
  case_bool_decide as He; cbn [andb].
  - destruct (in_output r) eqn:Hin.
    + rewrite (Hr eq_refl). cbn [ContainerRunner.envelopes].
      destruct (decode (join_lines (buffer r))) as [o| |] eqn:Ed.
      * destruct (IH (mkReader o (buffer r) false (total_size r)
                        (if on_output then delivered r ++ [o] else delivered r)) None)
          as (later & E & Hsub); [discriminate|].
        cbn [delivered] in E. unfold forwarded in *.
        destruct on_output.
        -- exists (o :: later). split; [by rewrite E, <- app_assoc|by apply sublist_skip].
        -- exists later. split; [exact E|exact Hsub].
      * apply (IH (mkReader (final r) (buffer r) false (total_size r) (delivered r)) None).
        discriminate.
      * exists []. cbn [sent_by]. split; [by rewrite app_nil_r|apply sublist_nil_l].
    + destruct (IH r None) as (later & E & Hsub); [congruence|].
      exists later. split; [exact E|].
      etrans; [exact Hsub|]. unfold forwarded. destruct on_output; [|done].
      destruct cur as [c|]; [apply sublist_envelopes_cons|done].
  - destruct (in_output r) eqn:Hin.
    + rewrite (Hr eq_refl).
      destruct (cap <? total_size r + len line).
      * apply (IH (mkReader (final r) (buffer r) false (total_size r + len line)
                     (delivered r)) (Some (buffer r ++ [line]))).
        discriminate.
      * apply (IH (mkReader (final r) (buffer r ++ [line]) true (total_size r + len line)
                     (delivered r)) (Some (buffer r ++ [line]))).
        reflexivity.
    + destruct (IH r None) as (later & E & Hsub); [congruence|].
      exists later. split; [exact E|].
      etrans; [exact Hsub|]. unfold forwarded. destruct on_output; [|done].
      destruct cur as [c|]; [apply scan_weaken|done].
Qed.

(** X18: whatever the stream and the cap, the envelopes the reader forwards,
    up to its return or to the exception that ends it, are envelopes of
    closed blocks of the stream, in stream order: the reader drops blocks
    (those over the cap, those after a line it cannot read), and never
    forwards anything else. *)
Lemma forwarded_envelopes_come_from_blocks stream :
  sent_by (read_container_output json_loads utf8 cap on_output stream)
    `sublist_of` forwarded on_output (envelopes (scan None (texts utf8 stream))).
Proof.
  destruct (read_lines_from_blocks stream new_reader None) as (later & E & Hsub).
  { discriminate. }
  unfold read_container_output. rewrite E. exact Hsub.
Qed.



End AnyCallback.

Section WithCallback.
Variable json_loads : string -> option json.
Variable utf8 : string -> string.
Variable cap : Z.

(** X17: whatever the stream and the cap, when the reader returns, the
    result is the last envelope it forwarded to [on_output], or the default
    "No output received" error when it forwarded none. *)
Lemma result_is_last_forwarded stream fin sent :
  read_container_output json_loads utf8 cap true stream = Returned fin sent ->
  fin = List.last sent no_output_received.
Proof.
  intros H. eapply (read_lines_last json_loads utf8 cap true); [reflexivity| |exact H].
  reflexivity.
Qed.
End WithCallback.

Lemma result_is_last_forwarded_witness :
  error_envelope = List.last [success_envelope; error_envelope] no_output_received.
Proof.
  apply (result_is_last_forwarded sample_json_loads sample_utf8 100 mixed_stream).
  vm_compute. reflexivity.
Defined.


End ContainerRunnerStreams.

(* ===================================================================== *)
(** * Properties of the IPC handlers and of the task table *)
(* ===================================================================== *)

Section IpcProps.
Import Py Ipc.

Variable cron_next : string -> Z -> option Z.
Variable fromisoformat : string -> option Z.
Variable int_beyond_ascii : string -> option Z.
Variable deps : deps_calls.

Abbreviation check_schedule := (check_schedule cron_next fromisoformat int_beyond_ascii).
Abbreviation schedule_task := (schedule_task cron_next fromisoformat int_beyond_ascii).
Abbreviation process_task_file := (process_task_file cron_next fromisoformat int_beyond_ascii deps).
Abbreviation valid_schedule := (valid_schedule cron_next fromisoformat int_beyond_ascii).
Abbreviation finish_run := (finish_run cron_next int_beyond_ascii).
Abbreviation py_int := (Py.py_int int_beyond_ascii).

Lemma truthy_Some s : truthy (Some s) = true <-> s <> EmptyString.
Proof. cbn [truthy]. case_bool_decide; cbn; split; congruence. Qed.

Lemma process_schedule_task s data source is_main now task_id :
  data !! "type" = Some "schedule_task" ->
  process_task_ipc cron_next fromisoformat int_beyond_ascii deps s data source is_main now task_id
  = schedule_task s data source is_main now task_id.
Proof. intros H. unfold process_task_ipc. rewrite H. reflexivity. Qed.

Lemma check_schedule_valid ty v now :
  valid_schedule ty v now -> exists t, check_schedule ty v now = NextRun (Some t).
Proof.
  intros [_ [[-> [t Ht]]|[[-> (ms & Hms & Hpos & [t Ht])]|[-> [t Ht]]]]];
    unfold Ipc.check_schedule.
  - rewrite Ht. eauto.
  - rewrite Hms. destruct (ms <=? 0) eqn:E; [apply Z.leb_le in E; lia|].
    cbn [bool_decide]. rewrite Ht. eauto.
  - rewrite Ht. eauto.
Qed.

(** A request from a mailbox without the privilege, for a group of another
    folder, changes nothing. *)
Lemma schedule_task_unauthorised s data source now task_id target g :
  py_or (data !! "targetChatId") (data !! "targetJid") = Some target ->
  registered_groups s !! target = Some g ->
  folder g <> source ->
  schedule_task s data source false now task_id = Done s.
Proof.
  intros Ht Hg Hf. unfold Ipc.schedule_task. rewrite Ht, Hg.
  destruct (data !! "prompt"), (data !! "schedule_type"), (data !! "schedule_value");
    try reflexivity.
  destruct (negb _); [reflexivity|].
  case_bool_decide; [congruence|]. reflexivity.
Qed.

Lemma schedule_task_main s data source now task_id target g p ty v :
  py_or (data !! "targetChatId") (data !! "targetJid") = Some target ->
  target <> EmptyString ->
  registered_groups s !! target = Some g ->
  data !! "prompt" = Some p -> p <> EmptyString ->
  data !! "schedule_type" = Some ty ->
  data !! "schedule_value" = Some v ->
  valid_schedule ty v now ->
  tasks s !! task_id = None ->
  exists t,
    schedule_task s data source true now task_id
    = Done (with_tasks (<[task_id :=
              mkScheduledTask task_id (folder g) target p ty v
                (normal_context_mode (data !! "context_mode"))
                (Some t) "active" now None None]> (tasks s)) s).
Proof.
  intros Ht Hne Hg Hp Hpne Hty Hv Hvalid Hfresh.
  destruct (check_schedule_valid _ _ _ Hvalid) as [t Hc].
  exists t. unfold Ipc.schedule_task. rewrite Ht, Hg, Hp, Hty, Hv.
  assert (Htyne : ty <> EmptyString).
  { destruct Hvalid as [_ [[-> _]|[[-> _]|[-> _]]]]; discriminate. }
  destruct Hvalid as [Hvne _].
  apply truthy_Some in Hne, Hpne, Htyne, Hvne.
  rewrite Hne, Hpne, Htyne, Hvne. cbn [andb negb]. rewrite Hc.
  unfold create_task. cbn [id]. rewrite Hfresh. reflexivity.
Qed.

(** C3 (amended): a schedule_task request whose target is a registered
    group changes nothing when it is read from a mailbox other than the main
    one and the target's folder is not that mailbox's folder; the same
    request read from the main mailbox, when its prompt and target id are
    not empty and its schedule is valid, creates exactly one job, under the
    fresh id, for the target's folder. *)
Theorem schedule_task_authorization s data now task_id target g :
  data !! "type" = Some "schedule_task" ->
  py_or (data !! "targetChatId") (data !! "targetJid") = Some target ->
  registered_groups s !! target = Some g ->
  (forall source,
      source <> MAIN_GROUP_FOLDER -> folder g <> source ->
      process_task_file s source data now task_id = Done s)
  /\ (forall p ty v,
        target <> EmptyString ->
        data !! "prompt" = Some p -> p <> EmptyString ->
        data !! "schedule_type" = Some ty ->
        data !! "schedule_value" = Some v ->
        valid_schedule ty v now ->
        tasks s !! task_id = None ->
        exists job s',
          process_task_file s MAIN_GROUP_FOLDER data now task_id = Done s'
          /\ tasks s' = <[task_id := job]> (tasks s)
          /\ registered_groups s' = registered_groups s
          /\ id job = task_id /\ group_folder job = folder g
          /\ chat_id job = target /\ prompt job = p
          /\ status job = "active" /\ is_Some (next_run job)).
Proof.
  intros Hty Ht Hg. split.
  - intros source Hs Hf. unfold Ipc.process_task_file.
    rewrite process_schedule_task by exact Hty.
    case_bool_decide; [congruence|].
    eapply schedule_task_unauthorised; eauto.
  - intros p ty v Hne Hp Hpne Hk Hv Hvalid Hfresh.
    unfold Ipc.process_task_file. rewrite process_schedule_task by exact Hty.
    case_bool_decide; [|congruence].
    destruct (schedule_task_main s data MAIN_GROUP_FOLDER now task_id target g p ty v)
      as [t ->]; auto.
    eexists _, _. split; [reflexivity|]. cbn. repeat split; eauto.
Qed.


Lemma check_schedule_invalid ty v now :
  recognised ty -> v <> EmptyString -> ~ valid_schedule ty v now ->
  check_schedule ty v now = Rejected \/ check_schedule ty v now = Fails.
Proof.
  intros Hr Hv Hn. unfold Ipc.check_schedule.
  destruct Hr as [-> | [-> | ->]]; repeat (case_bool_decide; try done).
  - destruct (cron_next v now) as [t|] eqn:E; [|by left].
    exfalso. apply Hn. split; [exact Hv|]. left. split; [reflexivity|]. rewrite E. eauto.
  - destruct (py_int v) as [ms|] eqn:E; [|by right].
    destruct (ms <=? 0) eqn:E'; [by left|]. apply Z.leb_gt in E'.
    destruct (fromtimestamp (now + ms)) as [t|] eqn:Et; [|by right].
    exfalso. apply Hn. split; [exact Hv|]. right. left. split; [reflexivity|].
    exists ms. rewrite Et. eauto.
  - destruct (fromisoformat v) as [t|] eqn:E; [|by left].
    exfalso. apply Hn. split; [exact Hv|]. right. right. split; [reflexivity|]. rewrite E. eauto.
Qed.

(** X20: a request of one of the three kinds whose value is not valid leaves
    the table as it was: the handler returns without a change or raises. *)
Lemma invalid_schedule_is_not_stored s data source is_main now task_id ty v :
  data !! "type" = Some "schedule_task" ->
  data !! "schedule_type" = Some ty ->
  data !! "schedule_value" = Some v ->
  recognised ty ->
  ~ valid_schedule ty v now ->
  process_task_ipc cron_next fromisoformat int_beyond_ascii deps s data source is_main now task_id = Done s
  \/ process_task_ipc cron_next fromisoformat int_beyond_ascii deps s data source is_main now task_id = Raises.
Proof.
  intros Hty Hk Hv Hr Hn. rewrite process_schedule_task by exact Hty.
  unfold Ipc.schedule_task. rewrite Hk, Hv.
  destruct (data !! "prompt") as [p|]; [|by left].
  destruct (py_or _ _) as [target|]; [|by left].
  destruct (truthy (Some v)) eqn:Etv.
  2:{ rewrite !andb_false_r. cbn [andb negb]. by left. }
  destruct (negb _); [by left|].
  destruct (registered_groups s !! target) as [g|]; [|by left].
  destruct (_ && _); [by left|].
  apply truthy_Some in Etv.
  destruct (check_schedule_invalid ty v now Hr Etv Hn) as [-> | ->]; [by left|by right].
Qed.

(** ** The data-model invariant on the reachable tables *)

Lemma is_due_spec now t :
  is_due now t = true -> status t = "active" /\ is_Some (next_run t).
Proof.
  unfold is_due. intros H. apply andb_true_iff in H as [H1 H2].
  case_bool_decide; [|discriminate]. split; [assumption|].
  destruct (next_run t); [eauto|discriminate].
Qed.

Lemma created_row_ok task_id fo target p ty v cm t now :
  recognised ty ->
  row_ok (mkScheduledTask task_id fo target p ty v cm (Some t) "active" now None None).
Proof.
  intros Hr. split; [exact Hr|]. unfold null_iff_completed_once. cbn.
  split; [discriminate|]. intros [_ H]. discriminate.
Qed.

Lemma check_schedule_recognised ty v now nr :
  recognised ty -> check_schedule ty v now = NextRun nr -> is_Some nr.
Proof.
  intros Hr. unfold Ipc.check_schedule.
  destruct Hr as [-> | [-> | ->]]; repeat (case_bool_decide; try done).
  - destruct (cron_next v now); [|discriminate]. intros [= <-]. eauto.
  - destruct (py_int v) as [ms|]; [|discriminate].
    destruct (ms <=? 0); [discriminate|].
    destruct (fromtimestamp _); [|discriminate]. intros [= <-]. eauto.
  - destruct (fromisoformat v); [|discriminate]. intros [= <-]. eauto.
Qed.

Lemma schedule_task_rows s data source is_main now task_id s' :
  (forall ty, data !! "schedule_type" = Some ty -> recognised ty) ->
  schedule_task s data source is_main now task_id = Done s' ->
  map_Forall (fun _ t => row_ok t) (tasks s) ->
  map_Forall (fun _ t => row_ok t) (tasks s').
Proof.
  intros Hrec. unfold Ipc.schedule_task.
  destruct (data !! "prompt") as [p|]; [|by intros [= <-]].
  destruct (data !! "schedule_type") as [ty|] eqn:Ety; [|by intros [= <-]].
  destruct (data !! "schedule_value") as [v|]; [|by intros [= <-]].
  destruct (py_or _ _) as [target|]; [|by intros [= <-]].
  destruct (negb _); [by intros [= <-]|].
  destruct (registered_groups s !! target) as [g|]; [|by intros [= <-]].
  destruct (_ && _); [by intros [= <-]|].
  destruct (check_schedule ty v now) as [| |nr] eqn:Ec; [by intros [= <-]|discriminate|].
  destruct (check_schedule_recognised ty v now nr (Hrec ty eq_refl) Ec) as [t ->].
  unfold create_task. cbn [id].
  destruct (tasks s !! task_id); [discriminate|]. intros [= <-] Hall.
  cbn [tasks with_tasks]. apply map_Forall_insert_2; [|exact Hall].
  apply created_row_ok. by apply Hrec.
Qed.

Lemma next_run_after_kind task now t :
  next_run_after cron_next int_beyond_ascii task now = Some (Some t) -> schedule_type task <> "once".
Proof.
  unfold next_run_after. intros En Honce. rewrite Honce in En.
  repeat (case_bool_decide; try done).
Qed.

Lemma finish_run_rows s task row now summary s' :
  tasks s !! id task = Some row ->
  schedule_type task = schedule_type row ->
  finish_run s task now summary = Done s' ->
  map_Forall (fun _ t => row_ok t) (tasks s) ->
  map_Forall (fun _ t => row_ok t) (tasks s').
Proof.
  intros Hrow Hkind. unfold Ipc.finish_run.
  destruct (next_run_after cron_next int_beyond_ascii task now) as [nr|] eqn:En; [|discriminate].
  intros [= <-] Hall. unfold update_task_after_run. cbn [tasks with_tasks].
  intros k t Hk. rewrite lookup_alter in Hk.
  destruct (decide (k = id task)) as [->|Hne].
  2:{ rewrite decide_False in Hk by congruence. eapply Hall; eauto. }
  rewrite decide_True in Hk by reflexivity.
  rewrite Hrow in Hk. cbn in Hk. injection Hk as <-.
  destruct (Hall _ _ Hrow) as [Hrec _]. split; [exact Hrec|].
  unfold null_iff_completed_once, after_run_row. cbn.
  destruct nr as [t|].
  - apply next_run_after_kind in En. split; [discriminate|]. intros [H _]. congruence.
  - split; [|reflexivity]. intros _. split; [|reflexivity].
    unfold next_run_after in En. rewrite Hkind in En.
    destruct Hrec as [H | [H | H]]; rewrite H in En |- *;
      repeat (case_bool_decide; try done); try reflexivity.
    + destruct (cron_next _ _); discriminate.
    + destruct (py_int _); [|discriminate]. destruct (fromtimestamp _); discriminate.
Qed.

(** X21: as long as every request names one of the three schedule kinds,
    the invariant of the data model holds on every row of every reachable
    table: [next_run] is null exactly for a completed one-shot. *)
Lemma recognised_rows_keep_invariant groups s :
  reachable cron_next fromisoformat int_beyond_ascii deps true groups s ->
  forall k t, tasks s !! k = Some t -> null_iff_completed_once t.
Proof.
  intros Hr. enough (map_Forall (fun _ t => row_ok t) (tasks s)) as H.
  { intros k t Hk. exact (proj2 (H k t Hk)). }
  induction Hr as [|s data source now task_id s' _ IH Hty Hrec Hp
                   |s task row now summary s' _ IH Hrow Hkind _ Hf].
  - cbn. apply map_Forall_empty.
  - unfold Ipc.process_task_file in Hp. rewrite process_schedule_task in Hp by exact Hty.
    eapply schedule_task_rows; eauto.
  - eapply finish_run_rows; eauto.
Qed.

End IpcProps.

Section IpcExamples.
Import Py Ipc.

Abbreviation sample_file := (process_task_file sample_cron_next sample_fromisoformat sample_int sample_deps).

Lemma hourly_is_valid :
  valid_schedule sample_cron_next sample_fromisoformat sample_int "interval" "3600000" 1000.
Proof.
  split; [discriminate|]. right. left. split; [reflexivity|].
  exists 3600000. split; [vm_compute; reflexivity|]. split; [lia|]. vm_compute. eauto.
Defined.

Lemma schedule_task_authorization_witness :
  sample_file (empty_state sample_groups) "other-group"
    (request "remind me" "interval" "3600000" "-100main") 1000 "task-1"
  = Done (empty_state sample_groups)
  /\ exists job s',
      sample_file (empty_state sample_groups) MAIN_GROUP_FOLDER
        (request "remind me" "interval" "3600000" "-100main") 1000 "task-1"
      = Done s'
      /\ tasks s' = <[ "task-1" := job ]> (tasks (empty_state sample_groups))
      /\ group_folder job = "main" /\ status job = "active".
Proof.
  destruct (schedule_task_authorization sample_cron_next sample_fromisoformat sample_int sample_deps
              (empty_state sample_groups)
              (request "remind me" "interval" "3600000" "-100main") 1000 "task-1"
              "-100main" (mkRegisteredGroup "Main" "main" "always" 0))
    as [Hdenied Hmain]; try (vm_compute; reflexivity).
  split.
  - apply Hdenied; discriminate.
  - destruct (Hmain "remind me" "interval" "3600000"
                ltac:(discriminate) ltac:(vm_compute; reflexivity) ltac:(discriminate)
                ltac:(vm_compute; reflexivity) ltac:(vm_compute; reflexivity)
                hourly_is_valid ltac:(vm_compute; reflexivity))
      as (job & s' & H & Ht & _ & _ & Hf & _ & _ & Hs & _).
    exists job, s'. repeat split; assumption.
Defined.

(** [int] skips U+0009 to U+000D and the space around the number, takes a
    sign and single underscores between digits, and refuses everything
    else: U+001C before the digits, a sign away from the digits, a doubled
    underscore, more than 4300 digits. *)
Lemma int_examples :
  py_int sample_int " 3600000 " = Some 3600000
  /\ py_int sample_int (String "009"%char "5") = Some 5
  /\ py_int sample_int "-5" = Some (-5)
  /\ py_int sample_int "1_000" = Some 1000
  /\ py_int sample_int (String "028"%char "5") = None
  /\ py_int sample_int "+ 5" = None
  /\ py_int sample_int "1__0" = None
  /\ py_int sample_int "5 5" = None
  /\ py_int sample_int EmptyString = None
  /\ py_int sample_int (string_of_list_ascii (replicate 4300 "0"%char)) = Some 0
  /\ py_int sample_int (string_of_list_ascii (replicate 4301 "0"%char)) = None.
Proof. repeat split; vm_compute; reflexivity. Qed.

(** An interval that [int] refuses is no valid schedule: the handler
    raises, and the poller moves the request to the error directory. *)
Lemma interval_with_separator_raises :
  ~ valid_schedule sample_cron_next sample_fromisoformat sample_int "interval"
      (String "028"%char "5") 1000
  /\ sample_file (empty_state sample_groups) MAIN_GROUP_FOLDER
       (request "remind me" "interval" (String "028"%char "5") "-100main") 1000 "task-1"
     = Raises.
Proof.
  split; [|vm_compute; reflexivity].
  intros [_ [[H _]|[[_ (ms & Hms & _)]|[H _]]]]; discriminate.
Qed.

(** C3 as stated fails for a request without a prompt: read from the main
    mailbox, with a registered target and a valid schedule, it creates no
    job. *)
Lemma main_request_without_prompt_creates_nothing :
  sample_groups !! "-100main" = Some (mkRegisteredGroup "Main" "main" "always" 0)
  /\ valid_schedule sample_cron_next sample_fromisoformat sample_int "interval" "3600000" 1000
  /\ sample_file (empty_state sample_groups) MAIN_GROUP_FOLDER
       (request EmptyString "interval" "3600000" "-100main") 1000 "task-1"
     = Done (empty_state sample_groups).
Proof.
  split; [vm_compute; reflexivity|]. split; [exact hourly_is_valid|].
  vm_compute. reflexivity.
Qed.

Lemma unrecognised_schedule_kind_is_stored_aux :
  exists s',
    sample_file (empty_state sample_groups) MAIN_GROUP_FOLDER
      (request "remind me" "weekly" "1" "-100other") 1000 "task-1" = Done s'
    /\ tasks s' !! "task-1"
       = Some (mkScheduledTask "task-1" "other-group" "-100other" "remind me"
                 "weekly" "1" "isolated" None "active" 1000 None None).
Proof. eexists. split; vm_compute; reflexivity. Qed.

(** C9 (the code at a failing input): a request whose schedule kind is none
    of cron, interval and once is not rejected; the job is stored, active
    and with no next run. *)
Theorem unrecognised_schedule_kind_is_stored :
  exists s',
    sample_file (empty_state sample_groups) MAIN_GROUP_FOLDER
      (request "remind me" "weekly" "1" "-100other") 1000 "task-1" = Done s'
    /\ tasks s' !! "task-1"
       = Some (mkScheduledTask "task-1" "other-group" "-100other" "remind me"
                 "weekly" "1" "isolated" None "active" 1000 None None).
Proof. exact unrecognised_schedule_kind_is_stored_aux. Qed.

(** C4 (the code at a failing input): the table reached by that one request
    holds an active job whose next run is null. *)
Theorem active_task_with_null_next_run :
  exists s' t,
    reachable sample_cron_next sample_fromisoformat sample_int sample_deps false sample_groups s'
    /\ tasks s' !! "task-1" = Some t
    /\ status t = "active" /\ next_run t = None
    /\ ~ null_iff_completed_once t.
Proof.
  destruct unrecognised_schedule_kind_is_stored_aux as (s' & Hp & Ht).
  eexists s', _. split; [|split; [exact Ht|]].
  - eapply (reach_schedule _ _ _ _ _ _ _ (request "remind me" "weekly" "1" "-100other")).
    + apply reach_empty.
    + vm_compute. reflexivity.
    + discriminate.
    + exact Hp.
  - cbn. split; [reflexivity|]. split; [reflexivity|].
    unfold null_iff_completed_once. cbn. intros [H _].
    destruct (H eq_refl) as [H' _]. discriminate.
Qed.

End IpcExamples.

(* ===================================================================== *)
(** * More on the IPC handlers and the scheduler's bookkeeping *)
(* ===================================================================== *)

Section IpcRequests.
Import Py Ipc.

Section AnyHost.
Variable cron_next : string -> Z -> option Z.
Variable fromisoformat : string -> option Z.
Variable int_beyond_ascii : string -> option Z.
Variable deps : deps_calls.

#[local] Abbreviation check_schedule := (check_schedule cron_next fromisoformat int_beyond_ascii).
#[local] Abbreviation schedule_task := (schedule_task cron_next fromisoformat int_beyond_ascii).
#[local] Abbreviation process_task_ipc := (process_task_ipc cron_next fromisoformat int_beyond_ascii deps).
#[local] Abbreviation finish_run := (finish_run cron_next int_beyond_ascii).
#[local] Abbreviation py_int := (Py.py_int int_beyond_ascii).

Lemma same_foreign_rows_refl folder s : same_foreign_rows folder s s.
Proof. by intros k t _. Qed.

Lemma schedule_task_foreign s data source now task_id s' :
  schedule_task s data source false now task_id = Done s' ->
  registered_groups s' = registered_groups s /\ snapshots s' = snapshots s
  /\ same_foreign_rows source s s'.
Proof.
  unfold Ipc.schedule_task.
  assert (Hsame : Done s = Done s' -> registered_groups s' = registered_groups s
            /\ snapshots s' = snapshots s /\ same_foreign_rows source s s').
  { intros [= <-]. auto using same_foreign_rows_refl. }
  destruct (data !! "prompt") as [p|]; [|exact Hsame].
  destruct (data !! "schedule_type") as [ty|]; [|exact Hsame].
  destruct (data !! "schedule_value") as [v|]; [|exact Hsame].
  destruct (py_or _ _) as [target|]; [|exact Hsame].
  destruct (negb (_ && _)); [exact Hsame|].
  destruct (registered_groups s !! target) as [g|]; [|exact Hsame].
  cbn [negb andb]. case_bool_decide as Hf; cbn [negb]; [|exact Hsame].
  destruct (check_schedule ty v now) as [| |nr]; [exact Hsame|discriminate|].
  unfold create_task. cbn [id].
  destruct (tasks s !! task_id) eqn:Efresh; [discriminate|]. intros [= <-].
  split; [reflexivity|]. split; [reflexivity|].
  intros k t Ht. cbn [tasks with_tasks]. rewrite lookup_insert.
  destruct (decide (task_id = k)) as [<-|Hne]; [|done].
  rewrite Efresh. split; [discriminate|]. intros [= <-]. cbn in Ht. congruence.
Qed.

Lemma touch_foreign s tid source (f : ScheduledTask -> ScheduledTask) :
  (forall t, group_folder (f t) = group_folder t) ->
  may_touch s tid source false = true ->
  same_foreign_rows source s (with_tasks (alter f tid (tasks s)) s)
  /\ same_foreign_rows source s (delete_task s tid).
Proof.
  intros Hf. unfold may_touch, get_task_by_id.
  destruct (tasks s !! tid) as [row|] eqn:Erow; [|discriminate]. cbn [orb].
  intros Hown. apply bool_decide_eq_true in Hown.
  split; intros k t Ht; unfold delete_task; cbn [tasks with_tasks].
  - rewrite lookup_alter. destruct (decide (k = tid)) as [->|Hne].
    + rewrite decide_True by reflexivity.
      rewrite Erow. cbn. split; intros [= <-]; [congruence|].
      rewrite Hf in Ht. congruence.
    + by rewrite decide_False by congruence.
  - rewrite lookup_delete. destruct (decide (tid = k)) as [<-|Hne].
    + rewrite Erow. split; [intros [= <-]; congruence|discriminate].
    + done.
Qed.

(** X22: a request read from a mailbox without the privilege cannot reach
    beyond its own folder: whatever it asks for, if the handler returns, the
    group registry and the snapshots are as before, and the jobs of every
    other folder are exactly those of before (none changed, deleted or
    created). *)
Lemma other_folders_are_out_of_reach s data source now task_id s' :
  process_task_ipc s data source false now task_id = Done s' ->
  registered_groups s' = registered_groups s
  /\ snapshots s' = snapshots s
  /\ same_foreign_rows source s s'.
Proof.
  unfold Ipc.process_task_ipc.
  assert (Hsame : Done s = Done s' -> registered_groups s' = registered_groups s
            /\ snapshots s' = snapshots s /\ same_foreign_rows source s s').
  { intros [= <-]. auto using same_foreign_rows_refl. }
  assert (Htouch : forall tid st,
            (if truthy (Some tid) && may_touch s tid source false
             then Done (update_task_status s tid st) else Done s) = Done s' ->
            registered_groups s' = registered_groups s
            /\ snapshots s' = snapshots s /\ same_foreign_rows source s s').
  { intros tid st. destruct (truthy (Some tid)); cbn [andb]; [|exact Hsame].
    destruct (may_touch s tid source false) eqn:Em; [|exact Hsame].
    intros [= <-]. split; [reflexivity|]. split; [reflexivity|].
    apply (touch_foreign s tid source (set_status st)); auto. }
  case_bool_decide; [apply schedule_task_foreign|].
  case_bool_decide.
  { destruct (data !! "taskId") as [tid|]; [apply Htouch|exact Hsame]. }
  case_bool_decide.
  { destruct (data !! "taskId") as [tid|]; [apply Htouch|exact Hsame]. }
  case_bool_decide.
  { destruct (data !! "taskId") as [tid|]; [|exact Hsame].
    destruct (truthy (Some tid)); cbn [andb]; [|exact Hsame].
    destruct (may_touch s tid source false) eqn:Em; [|exact Hsame].
    intros [= <-]. split; [reflexivity|]. split; [reflexivity|].
    apply (touch_foreign s tid source (fun t => t)); auto. }
  case_bool_decide; [exact Hsame|].
  case_bool_decide; exact Hsame.
Qed.

Lemma alter_alter_status (m : gmap string ScheduledTask) tid t :
  m !! tid = Some t -> status t = "active" ->
  alter (set_status "active") tid (alter (set_status "paused") tid m) = m.
Proof.
  intros Ht Hs. apply map_eq. intros k. rewrite !lookup_alter.
  destruct (decide (k = tid)) as [->|Hne].
  - rewrite !decide_True by reflexivity. rewrite Ht. cbn. f_equal.
    destruct t; cbn in *. by subst.
  - by rewrite !decide_False by congruence.
Qed.

(** X23: pausing an active job and then resuming it, from the main mailbox
    or from the job's own folder, gives back the table as it was; in
    between the job is never due. *)
Lemma pause_then_resume_restores s pause resume tid t source is_main now i1 i2 :
  pause !! "type" = Some "pause_task" -> pause !! "taskId" = Some tid ->
  resume !! "type" = Some "resume_task" -> resume !! "taskId" = Some tid ->
  tid <> EmptyString ->
  tasks s !! tid = Some t -> status t = "active" ->
  is_main = true \/ group_folder t = source ->
  exists s1 paused,
    process_task_ipc s pause source is_main now i1 = Done s1
    /\ tasks s1 !! tid = Some paused
    /\ (forall later, is_due later paused = false)
    /\ process_task_ipc s1 resume source is_main now i2 = Done s.
Proof.
  intros Hp1 Hp2 Hr1 Hr2 Hne Ht Hs Hown.
  assert (Htr : truthy (Some tid) = true) by (by apply truthy_Some).
  assert (Hm : forall s0 row, tasks s0 !! tid = Some row -> group_folder row = group_folder t ->
                 may_touch s0 tid source is_main = true).
  { intros s0 row Hrow Hg. unfold may_touch, get_task_by_id. rewrite Hrow, Hg.
    destruct Hown as [->| ->]; [reflexivity|].
    rewrite bool_decide_eq_true_2 by reflexivity. apply orb_true_r. }
  exists (update_task_status s tid "paused"), (set_status "paused" t).
  split; [|split; [|split]].
  - unfold Ipc.process_task_ipc. rewrite Hp1, Hp2. cbn [default].
    repeat (case_bool_decide; try done). by rewrite Htr, (Hm s t Ht eq_refl).
  - unfold update_task_status. cbn [tasks with_tasks]. rewrite lookup_alter.
    rewrite decide_True by reflexivity. by rewrite Ht.
  - intros later. unfold is_due. cbn [status set_status].
    by rewrite bool_decide_eq_false_2 by discriminate.
  - unfold Ipc.process_task_ipc. rewrite Hr1, Hr2. cbn [default].
    repeat (case_bool_decide; try done). rewrite Htr.
    rewrite (Hm _ (set_status "paused" t)); cbn [andb].
    + f_equal. unfold update_task_status. cbn [tasks with_tasks registered_groups snapshots].
      rewrite (alter_alter_status _ _ _ Ht Hs). by destruct s.
    + unfold update_task_status. cbn [tasks with_tasks]. rewrite lookup_alter.
      rewrite decide_True by reflexivity. by rewrite Ht.
    + reflexivity.
Qed.

(** X25: after the scheduler has recorded a run, the job is due again only
    from the next run computed at the end of that run on, and only if it was
    active; a job with no next run (a one-shot) is never due again. *)
Lemma after_a_run_due_only_at_next_run s task row now summary s' row' later :
  tasks s !! id task = Some row ->
  finish_run s task now summary = Done s' ->
  tasks s' !! id task = Some row' ->
  is_due later row' = true ->
  exists nr, next_run_after cron_next int_beyond_ascii task now = Some (Some nr)
             /\ next_run row' = Some nr /\ nr <= later
             /\ status row = "active" /\ schedule_type task <> "once".
Proof.
  intros Hrow. unfold Ipc.finish_run.
  destruct (next_run_after cron_next int_beyond_ascii task now) as [nr|] eqn:En; [|discriminate].
  intros [= <-]. unfold update_task_after_run. cbn [tasks with_tasks].
  rewrite lookup_alter, decide_True by reflexivity. rewrite Hrow. cbn [fmap option_fmap option_map].
  intros [= <-]. unfold is_due, after_run_row. cbn [status next_run].
  intros H. apply andb_true_iff in H as [H1 H2].
  destruct nr as [nr|]; [|discriminate].
  apply bool_decide_eq_true in H1. apply Z.leb_le in H2.
  exists nr. repeat split; auto. eapply next_run_after_kind; eauto.
Qed.

End AnyHost.

#[local] Abbreviation sample_file := (process_task_file sample_cron_next sample_fromisoformat sample_int sample_deps).

Lemma invalid_schedule_is_not_stored_witness :
  sample_file (empty_state sample_groups) MAIN_GROUP_FOLDER
    (request "remind me" "interval" "0" "-100other") 1000 "task-1"
  = Done (empty_state sample_groups)
  \/ sample_file (empty_state sample_groups) MAIN_GROUP_FOLDER
       (request "remind me" "interval" "0" "-100other") 1000 "task-1"
     = Raises.
Proof.
  apply (invalid_schedule_is_not_stored sample_cron_next sample_fromisoformat sample_int sample_deps
           (empty_state sample_groups) (request "remind me" "interval" "0" "-100other")
           MAIN_GROUP_FOLDER true 1000 "task-1" "interval" "0").
  - vm_compute. reflexivity.
  - vm_compute. reflexivity.
  - vm_compute. reflexivity.
  - right. left. reflexivity.
  - intros [_ [[H _]|[[_ (ms & Hms & Hpos & _)]|[H _]]]]; [discriminate| |discriminate].
    vm_compute in Hms. injection Hms as <-. lia.
Defined.

Lemma recognised_rows_keep_invariant_witness :
  exists s' t,
    sample_file (empty_state sample_groups) MAIN_GROUP_FOLDER
      (request "remind me" "interval" "3600000" "-100other") 1000 "task-1" = Done s'
    /\ tasks s' !! "task-1" = Some t
    /\ null_iff_completed_once t.
Proof.
  eexists _, _. split; [vm_compute; reflexivity|]. split; [vm_compute; reflexivity|].
  refine (recognised_rows_keep_invariant sample_cron_next sample_fromisoformat sample_int sample_deps sample_groups _
            (reach_schedule _ _ _ _ _ _ (empty_state sample_groups)
               (request "remind me" "interval" "3600000" "-100other")
               MAIN_GROUP_FOLDER 1000 "task-1" _ (reach_empty _ _ _ _ _ _) _ _ _)
            "task-1" _ _).
  - vm_compute. reflexivity.
  - intros _ ty Hty. vm_compute in Hty. injection Hty as <-. right. left. reflexivity.
  - vm_compute. reflexivity.
  - vm_compute. reflexivity.
Defined.

Lemma other_folders_are_out_of_reach_witness :
  exists s',
    Ipc.process_task_ipc sample_cron_next sample_fromisoformat sample_int sample_deps two_jobs
      (task_request "cancel_task" "task-1") "other-group" false 1000 "task-2" = Done s'
    /\ tasks s' !! "task-1" = None
    /\ registered_groups s' = registered_groups two_jobs
    /\ snapshots s' = snapshots two_jobs
    /\ same_foreign_rows "other-group" two_jobs s'.
Proof.
  eexists. split; [vm_compute; reflexivity|]. split; [vm_compute; reflexivity|].
  apply (other_folders_are_out_of_reach sample_cron_next sample_fromisoformat sample_int sample_deps two_jobs
           (task_request "cancel_task" "task-1") "other-group" 1000 "task-2").
  vm_compute. reflexivity.
Defined.

Lemma pause_then_resume_restores_witness :
  exists s1 paused,
    Ipc.process_task_ipc sample_cron_next sample_fromisoformat sample_int sample_deps two_jobs
      (task_request "pause_task" "task-1") "other-group" false 1000 "task-2" = Done s1
    /\ tasks s1 !! "task-1" = Some paused
    /\ (forall later, is_due later paused = false)
    /\ Ipc.process_task_ipc sample_cron_next sample_fromisoformat sample_int sample_deps s1
         (task_request "resume_task" "task-1") "other-group" false 2000 "task-3" = Done two_jobs.
Proof.
  apply (pause_then_resume_restores sample_cron_next sample_fromisoformat sample_int sample_deps two_jobs
           (task_request "pause_task" "task-1") (task_request "resume_task" "task-1")
           "task-1" hourly_job "other-group" false 1000 "task-2" "task-3");
    try (vm_compute; reflexivity); [discriminate|right; reflexivity].
Defined.

Lemma after_a_run_due_only_at_next_run_witness :
  exists s' row',
    Ipc.finish_run sample_cron_next sample_int two_jobs hourly_job 4000000 "Completed" = Done s'
    /\ tasks s' !! "task-1" = Some row'
    /\ is_due 8000000 row' = true
    /\ exists nr, next_run_after sample_cron_next sample_int hourly_job 4000000 = Some (Some nr)
                  /\ next_run row' = Some nr /\ nr <= 8000000
                  /\ status hourly_job = "active" /\ schedule_type hourly_job <> "once".
Proof.
  eexists _, _. split; [vm_compute; reflexivity|]. split; [vm_compute; reflexivity|].
  split; [vm_compute; reflexivity|].
  eapply (after_a_run_due_only_at_next_run sample_cron_next sample_int two_jobs hourly_job hourly_job
           4000000 "Completed" _ _ 8000000); vm_compute; reflexivity.
Defined.

(** X26: a message file read from a mailbox other than the main one is only
    ever delivered to a chat that is registered to that mailbox's folder,
    with the assistant's name in front of its text. *)
Lemma messages_stay_in_their_group groups name source files chat body :
  source <> MAIN_GROUP_FOLDER ->
  (chat, body) ∈ process_message_files groups name source files ->
  exists g data text,
    groups !! chat = Some g /\ folder g = source
    /\ data ∈ files /\ data !! "chatId" = Some chat /\ data !! "text" = Some text
    /\ body = (name ++ ": " ++ text)%string.
Proof.
  intros Hs Hin. unfold process_message_files in Hin.
  apply list_elem_of_omap in Hin as (data & Hd & Hp).
  unfold process_message_file in Hp.
  destruct (data !! "chatId") as [target|] eqn:Ec; [|discriminate].
  destruct (data !! "text") as [text|] eqn:Et; [|discriminate].
  destruct (_ && _); [|discriminate].
  rewrite (bool_decide_eq_false_2 _ Hs) in Hp. cbn [orb] in Hp.
  destruct (groups !! target) as [g|] eqn:Eg; [|discriminate].
  case_bool_decide as Hf; [|discriminate]. injection Hp as <- <-.
  exists g, data, text. auto 10.
Qed.

Lemma messages_stay_in_their_group_witness :
  process_message_files sample_groups "Andy" "other-group"
    [message_file "-100main" "psst"; message_file "-100other" "done"]
  = [("-100other", "Andy: done")]
  /\ exists g data text,
       sample_groups !! "-100other" = Some g /\ folder g = "other-group"
       /\ data ∈ [message_file "-100main" "psst"; message_file "-100other" "done"]
       /\ data !! "chatId" = Some "-100other" /\ data !! "text" = Some text
       /\ "Andy: done" = ("Andy" ++ ": " ++ text)%string.
Proof.
  split; [vm_compute; reflexivity|].
  apply (messages_stay_in_their_group sample_groups "Andy" "other-group"
           [message_file "-100main" "psst"; message_file "-100other" "done"]
           "-100other" "Andy: done").
  - discriminate.
  - vm_compute. constructor.
Defined.

End IpcRequests.

(* ===================================================================== *)
(** * Properties of the mount validator *)
(* ===================================================================== *)

Section MountSecurityProps.
Import Py MountSecurity.

Lemma or_True_true x : or_True x = true.
Proof. destruct x as [[|]|]; reflexivity. Qed.

(** [str.strip] takes away the white space of every script: a container
    path that holds only U+00A0, or U+3000 and a tab, is blank, and is
    refused. *)
Lemma blank_container_paths :
  is_blank (String "194"%char (String "160"%char EmptyString)) = true
  /\ is_blank (String "227"%char (String "128"%char (String "128"%char
                 (String "009"%char EmptyString)))) = true
  /\ is_valid_container_path (String "194"%char (String "160"%char EmptyString)) = false
  /\ is_blank (String "194"%char (String "160"%char "data")) = false
  /\ is_valid_container_path (String "194"%char (String "160"%char "data")) = true.
Proof. repeat split; vm_compute; reflexivity. Qed.

(** The read-write case: the main group asks for a read-write
    mount under a root that allows it; [validate_mount] answers
    [effective_readonly = False], and the mount is emitted read-only, with
    the [readonly] flag in the container command. *)
Lemma read_write_request_is_emitted_read_only :
  effective_readonly (sample_validate_mount read_write_request true) = Some false
  /\ sample_validate_additional_mounts [read_write_request] "Main" true
     = [mkValidatedMount "/srv/projects/app" "/workspace/extra/app" true]
  /\ mount_argument (mkValidatedMount "/srv/projects/app" "/workspace/extra/app" true)
     = "type=bind,src=/srv/projects/app,dst=/workspace/extra/app,readonly".
Proof. repeat split; vm_compute; reflexivity. Qed.

(** ** What the validator lets through *)

Section BlockedPatterns.

Lemma append_cons c (a b : string) : (String c a ++ b)%string = String c (a ++ b).
Proof. reflexivity. Qed.

Lemma append_nil_l (b : string) : (EmptyString ++ b)%string = b.
Proof. reflexivity. Qed.

Lemma append_assoc_s (a b c : string) : ((a ++ b) ++ c = a ++ (b ++ c))%string.
Proof.
  induction a as [|x a IH]; [reflexivity|]. by rewrite !append_cons, IH.
Qed.

Lemma append_nil_r_s (a : string) : (a ++ EmptyString)%string = a.
Proof. induction a as [|x a IH]; [reflexivity|]. by rewrite append_cons, IH. Qed.

Lemma prefix_spec p : forall s, String.prefix p s = true <-> exists b, s = (p ++ b)%string.
Proof.
  induction p as [|x p IH]; intros s.
  - split; [intros _; by exists s|intros _; by destruct s].
  - destruct s as [|y s]; [split; [discriminate|intros [b H]; discriminate]|].
    cbn [String.prefix]. destruct (ascii_dec x y) as [->|Hne].
    + rewrite IH. split; intros [b H]; exists b; rewrite append_cons in *; congruence.
    + split; [discriminate|]. intros [b H]. rewrite append_cons in H. congruence.
Qed.

Lemma contains_spec p s : contains p s = true <-> occurs_in p s.
Proof.
  split.
  - induction s as [|c s IH]; cbn [contains]; rewrite orb_true_iff.
    + intros [H|H]; [|discriminate]. apply prefix_spec in H as [b H].
      exists EmptyString, b. exact H.
    + intros [H|H].
      * apply prefix_spec in H as [b H]. exists EmptyString, b. exact H.
      * destruct (IH H) as (a & b & ->). exists (String c a), b. reflexivity.
  - intros (a & b & ->). induction a as [|c a IH].
    + rewrite append_nil_l.
      destruct (p ++ b)%string eqn:E; cbn [contains]; apply orb_true_iff; left;
        apply prefix_spec; eauto.
    + rewrite append_cons. cbn [contains]. rewrite IH. apply orb_true_r.
Qed.

Lemma occurs_in_trans p part s : occurs_in p part -> occurs_in part s -> occurs_in p s.
Proof.
  intros (a & b & ->) (a' & b' & ->). exists (a' ++ a)%string, (b ++ b')%string.
  by rewrite !append_assoc_s.
Qed.

Lemma split_parts sep s :
  exists hd tl, split sep s = hd :: tl
    /\ (exists b, s = (hd ++ b)%string)
    /\ (forall part, part ∈ tl -> occurs_in part s).
Proof.
  induction s as [|c s (hd & tl & E & (b & Hhd) & Htl)]; cbn [split].
  - exists EmptyString, []. split; [reflexivity|]. split; [by exists EmptyString|].
    intros part H. inversion H.
  - assert (Hin : forall part, part ∈ hd :: tl -> occurs_in part (String c s)).
    { intros part H. apply elem_of_cons in H as [->|H].
      - exists (String c EmptyString), b. rewrite append_cons, append_nil_l. by rewrite <- Hhd.
      - destruct (Htl _ H) as (a' & b' & ->). by exists (String c a'), b'. }
    case_bool_decide.
    + exists EmptyString, (split sep s). split; [reflexivity|].
      split; [by exists (String c s)|]. rewrite E. exact Hin.
    + rewrite E. exists (String c hd), tl. split; [reflexivity|].
      split; [exists b; rewrite append_cons; by rewrite <- Hhd|].
      intros part Hp. apply Hin. by apply elem_of_cons; right.
Qed.

Lemma part_occurs sep s part : part ∈ split sep s -> occurs_in part s.
Proof.
  destruct (split_parts sep s) as (hd & tl & -> & (b & Hhd) & Htl).
  intros H. apply elem_of_cons in H as [->|H]; [|auto].
  exists EmptyString, b. exact Hhd.
Qed.

Lemma matches_blocked_pattern_None real_path patterns :
  matches_blocked_pattern real_path patterns = None
  <-> forall p, p ∈ patterns -> contains p real_path = false.
Proof.
  induction patterns as [|p ps IH]; cbn [matches_blocked_pattern].
  - split; [|reflexivity]. intros _ p H. inversion H.
  - destruct (contains p real_path) eqn:Ec.
    + rewrite orb_true_r. split; [discriminate|]. intros H.
      specialize (H p ltac:(apply elem_of_cons; auto)). congruence.
    + rewrite orb_false_r.
      destruct (existsb _ _) eqn:Ex.
      * exfalso. apply existsb_exists in Ex as (part & Hin & Hm).
        apply list_elem_of_In in Hin. apply part_occurs in Hin.
        assert (Hp : occurs_in p part).
        { apply orb_true_iff in Hm as [Hm|Hm].
          - apply bool_decide_eq_true in Hm as ->.
            exists EmptyString, EmptyString. by rewrite append_nil_l, append_nil_r_s.
          - by apply contains_spec. }
        pose proof (occurs_in_trans _ _ _ Hp Hin) as H. apply contains_spec in H. congruence.
      * rewrite IH. split.
        -- intros H q Hq. apply elem_of_cons in Hq as [->|Hq]; auto.
        -- intros H q Hq. apply H. apply elem_of_cons. auto.
Qed.

Lemma matches_blocked_pattern_Some real_path patterns p :
  matches_blocked_pattern real_path patterns = Some p ->
  p ∈ patterns /\ contains p real_path = true.
Proof.
  induction patterns as [|q ps IH]; cbn [matches_blocked_pattern]; [discriminate|].
  destruct (_ || _) eqn:E.
  - intros [= <-]. split; [apply elem_of_cons; auto|].
    destruct (contains q real_path) eqn:Ec; [reflexivity|].
    assert (H : matches_blocked_pattern real_path [q] = None).
    { apply matches_blocked_pattern_None. intros x Hx. apply list_elem_of_singleton in Hx.
      by subst. }
    cbn [matches_blocked_pattern] in H. rewrite Ec, E in H. discriminate.
  - intros H. destruct (IH H). split; [apply elem_of_cons; auto|done].
Qed.

(** X10: [_matches_blocked_pattern] finds a match exactly when one of the
    patterns occurs somewhere in the real path as a substring; the test on
    the path components adds nothing to the test on the whole path. *)
Lemma blocked_iff_pattern_occurs real_path patterns :
  is_Some (matches_blocked_pattern real_path patterns)
  <-> exists p, p ∈ patterns /\ occurs_in p real_path.
Proof.
  split.
  - intros [p H]. apply matches_blocked_pattern_Some in H as [Hin Hc].
    exists p. split; [exact Hin|]. by apply contains_spec.
  - intros (p & Hin & Hc). apply contains_spec in Hc.
    destruct (matches_blocked_pattern real_path patterns) eqn:E; [eauto|].
    rewrite (proj1 (matches_blocked_pattern_None _ _) E p Hin) in Hc. discriminate.
Qed.

End BlockedPatterns.

Section Validated.
Variable allowlist : option MountAllowlist.
Variable expand_path : string -> string.
Variable get_real_path : string -> option string.
Variable path_name : string -> string.
Variable is_relative_to : string -> string -> bool.

#[local] Abbreviation find_allowed_root := (find_allowed_root expand_path get_real_path is_relative_to).
#[local] Abbreviation validate_mount :=
  (validate_mount allowlist expand_path get_real_path path_name is_relative_to).
#[local] Abbreviation validate_additional_mounts :=
  (validate_additional_mounts allowlist expand_path get_real_path path_name is_relative_to).
#[local] Abbreviation under_root := (under_root expand_path get_real_path is_relative_to).
#[local] Abbreviation requested_container_path := (requested_container_path path_name).


Lemma find_allowed_root_Some real_path roots root :
  find_allowed_root real_path roots = Some root ->
  root ∈ roots /\ under_root real_path root.
Proof.
  induction roots as [|r rs IH]; cbn [MountSecurity.find_allowed_root]; [discriminate|].
  destruct (get_real_path (expand_path (path r))) as [rr|] eqn:E.
  - destruct (is_relative_to real_path rr) eqn:Er.
    + intros [= <-]. split; [apply elem_of_cons; auto|]. by exists rr.
    + intros H. destruct (IH H). split; [apply elem_of_cons; auto|done].
  - intros H. destruct (IH H). split; [apply elem_of_cons; auto|done].
Qed.

Lemma find_allowed_root_None real_path roots :
  find_allowed_root real_path roots = None ->
  forall root, root ∈ roots -> ~ under_root real_path root.
Proof.
  induction roots as [|r rs IH]; cbn [MountSecurity.find_allowed_root].
  - intros _ root H. inversion H.
  - destruct (get_real_path (expand_path (path r))) as [rr|] eqn:E.
    + destruct (is_relative_to real_path rr) eqn:Er; [discriminate|].
      intros H root Hin. apply elem_of_cons in Hin as [->|Hin]; [|auto].
      intros (rr' & E' & Hr'). congruence.
    + intros H root Hin. apply elem_of_cons in Hin as [->|Hin]; [|auto].
      intros (rr' & E' & Hr'). congruence.
Qed.


Lemma validate_mount_allowed_iff mount is_main :
  allowed (validate_mount mount is_main) = true
  <-> exists al real_path,
        allowlist = Some al
        /\ is_valid_container_path (requested_container_path mount) = true
        /\ get_real_path (expand_path (host_path mount)) = Some real_path
        /\ (forall p, p ∈ blocked_patterns al -> contains p real_path = false)
        /\ (exists root, root ∈ allowed_roots al /\ under_root real_path root).
Proof.
  unfold MountSecurity.validate_mount, requested_container_path, MountSecurity.requested_container_path.
  destruct allowlist as [al|]; cbn [allowed rejected].
  2:{ split; [discriminate|]. intros (al & rp & H & _). discriminate. }
  destruct (is_valid_container_path _) eqn:Ev; cbn [negb allowed rejected].
  2:{ split; [discriminate|]. intros (al' & rp & _ & H & _). discriminate. }
  destruct (get_real_path (expand_path (host_path mount))) as [rp|] eqn:Er; cbn [allowed rejected].
  2:{ split; [discriminate|]. intros (al' & rp & _ & _ & H & _). discriminate. }
  destruct (matches_blocked_pattern rp (blocked_patterns al)) as [p|] eqn:Eb; cbn [allowed rejected].
  { split; [discriminate|]. intros (al' & rp' & [= <-] & _ & [= <-] & Hb & _).
    apply matches_blocked_pattern_Some in Eb as [Hin Hc]. rewrite (Hb _ Hin) in Hc. discriminate. }
  destruct (find_allowed_root rp (allowed_roots al)) as [root|] eqn:Ef; cbn [allowed rejected].
  - split; [intros _|reflexivity]. exists al, rp.
    apply find_allowed_root_Some in Ef as [Hin Hu].
    repeat split; auto; [by apply matches_blocked_pattern_None|eauto].
  - split; [discriminate|]. intros (al' & rp' & [= <-] & _ & [= <-] & _ & root & Hin & Hu).
    exfalso. eapply find_allowed_root_None; eauto.
Qed.

Lemma validate_mount_allowed mount is_main :
  allowed (validate_mount mount is_main) = true ->
  exists real_path,
    get_real_path (expand_path (host_path mount)) = Some real_path
    /\ real_host_path (validate_mount mount is_main) = Some real_path
    /\ resolved_container_path (validate_mount mount is_main)
       = Some (requested_container_path mount).
Proof.
  unfold MountSecurity.validate_mount, requested_container_path, MountSecurity.requested_container_path.
  destruct allowlist as [al|]; cbn [allowed rejected]; [|discriminate].
  destruct (is_valid_container_path _) eqn:Ev; cbn [negb allowed rejected]; [|discriminate].
  destruct (get_real_path (expand_path (host_path mount))) as [rp|] eqn:Er;
    cbn [allowed rejected]; [|discriminate].
  destruct (matches_blocked_pattern rp (blocked_patterns al)) as [p|] eqn:Eb;
    cbn [allowed rejected]; [discriminate|].
  destruct (find_allowed_root rp (allowed_roots al)) as [root|] eqn:Ef;
    cbn [allowed rejected]; [|discriminate].
  intros _. exists rp. auto.
Qed.

Lemma or_string_Some s : or_string (Some s) EmptyString = s.
Proof. cbn. case_bool_decide; congruence. Qed.

Lemma valid_container_path_spec p :
  is_valid_container_path p = true ->
  contains ".." p = false /\ String.prefix "/" p = false /\ p <> EmptyString
  /\ is_blank p = false.
Proof.
  unfold is_valid_container_path.
  destruct (contains ".." p); [discriminate|].
  destruct (String.prefix "/" p); [discriminate|].
  destruct (bool_decide (p = EmptyString)) eqn:E; [discriminate|].
  destruct (is_blank p); [discriminate|]. apply bool_decide_eq_false in E. auto.
Qed.

Lemma validated_mount_spec mounts group_name is_main m :
  m ∈ validate_additional_mounts mounts group_name is_main ->
  exists al mount,
    allowlist = Some al /\ mount ∈ mounts
    /\ get_real_path (expand_path (host_path mount)) = Some (vm_host_path m)
    /\ (forall p, p ∈ blocked_patterns al -> contains p (vm_host_path m) = false)
    /\ (exists root, root ∈ allowed_roots al /\ under_root (vm_host_path m) root)
    /\ vm_container_path m = ("/workspace/extra/" ++ requested_container_path mount)%string
    /\ contains ".." (requested_container_path mount) = false
    /\ String.prefix "/" (requested_container_path mount) = false
    /\ requested_container_path mount <> EmptyString.
Proof.
  induction mounts as [|mount rest IH]; cbn [MountSecurity.validate_additional_mounts].
  { intros H. inversion H. }
  assert (Hrest : m ∈ validate_additional_mounts rest group_name is_main ->
    exists al mount0, allowlist = Some al /\ mount0 ∈ mount :: rest
    /\ get_real_path (expand_path (host_path mount0)) = Some (vm_host_path m)
    /\ (forall p, p ∈ blocked_patterns al -> contains p (vm_host_path m) = false)
    /\ (exists root, root ∈ allowed_roots al /\ under_root (vm_host_path m) root)
    /\ vm_container_path m = ("/workspace/extra/" ++ requested_container_path mount0)%string
    /\ contains ".." (requested_container_path mount0) = false
    /\ String.prefix "/" (requested_container_path mount0) = false
    /\ requested_container_path mount0 <> EmptyString).
  { intros H. destruct (IH H) as (al & m0 & H1 & H2 & H3). exists al, m0.
    split; [exact H1|]. split; [apply elem_of_cons; auto|exact H3]. }
  destruct (allowed (validate_mount mount is_main)) eqn:Ea; [|exact Hrest].
  intros H. apply elem_of_cons in H as [->|H]; [|auto].
  destruct (validate_mount_allowed _ _ Ea) as (rp & Hrp & -> & ->).
  apply validate_mount_allowed_iff in Ea as (al & rp' & Hal & Hv & Hrp' & Hb & Hroot).
  assert (rp' = rp) as -> by congruence.
  apply valid_container_path_spec in Hv as (V1 & V2 & V3 & _).
  exists al, mount. cbn [vm_host_path vm_container_path format_option default].
  rewrite or_string_Some.
  repeat split; auto. apply elem_of_cons; auto.
Qed.

(** X13: without a loaded allowlist no additional mount is emitted, whatever
    is requested. *)
Lemma no_allowlist_mounts_nothing mounts group_name is_main :
  allowlist = None -> validate_additional_mounts mounts group_name is_main = [].
Proof.
  intros H. induction mounts as [|mount rest IH]; cbn [MountSecurity.validate_additional_mounts];
    [reflexivity|].
  assert (Ha : allowed (validate_mount mount is_main) = false)
    by (unfold MountSecurity.validate_mount; by rewrite H).
  rewrite Ha. exact IH.
Qed.

(** X14: [validate_mount] answers [effective_readonly = False] only for a
    mount that asks for read-write, under an allowed root that permits it,
    and for the main group or with [non_main_read_only] switched off. *)
Lemma read_write_needs_permission mount is_main :
  effective_readonly (validate_mount mount is_main) = Some false ->
  readonly mount = false
  /\ exists al root,
       allowlist = Some al /\ root ∈ allowed_roots al
       /\ why (validate_mount mount is_main) = AllowedUnderRoot root
       /\ allow_read_write root = true
       /\ (is_main = true \/ non_main_read_only al = false).
Proof.
  unfold MountSecurity.validate_mount.
  destruct allowlist as [al|]; cbn [effective_readonly rejected]; [|discriminate].
  destruct (is_valid_container_path _); cbn [negb effective_readonly rejected]; [|discriminate].
  destruct (get_real_path (expand_path (host_path mount))) as [rp|];
    cbn [effective_readonly rejected]; [|discriminate].
  destruct (matches_blocked_pattern rp (blocked_patterns al));
    cbn [effective_readonly rejected]; [discriminate|].
  destruct (find_allowed_root rp (allowed_roots al)) as [root|] eqn:Ef;
    cbn [effective_readonly rejected why]; [|discriminate].
  apply find_allowed_root_Some in Ef as [Hin _].
  destruct (readonly mount); cbn [negb]; [discriminate|].
  destruct is_main, (non_main_read_only al) eqn:En, (allow_read_write root) eqn:Erw; cbn;
    try discriminate; intros _; (split; [reflexivity|]); exists al, root;
    (split; [reflexivity|]); (split; [exact Hin|]); (split; [reflexivity|]);
    (split; [exact Erw|]); auto.
Qed.


(** X12: every mount [validate_additional_mounts] returns comes from a
    requested mount whose host path exists; its host path is the real path,
    holds no blocked pattern and lies under an allowed root; its container
    path is [/workspace/extra/] followed by a non-empty relative path
    without [..]. *)
Lemma emitted_mounts_are_vetted mounts group_name is_main m :
  m ∈ validate_additional_mounts mounts group_name is_main ->
  exists al mount,
    allowlist = Some al /\ mount ∈ mounts
    /\ get_real_path (expand_path (host_path mount)) = Some (vm_host_path m)
    /\ (forall p, p ∈ blocked_patterns al -> contains p (vm_host_path m) = false)
    /\ (exists root, root ∈ allowed_roots al /\ under_root (vm_host_path m) root)
    /\ vm_container_path m = ("/workspace/extra/" ++ requested_container_path mount)%string
    /\ contains ".." (requested_container_path mount) = false
    /\ String.prefix "/" (requested_container_path mount) = false
    /\ requested_container_path mount <> EmptyString.
Proof. apply validated_mount_spec. Qed.

End Validated.

(** C10: whatever the host, the allowlist, the requested mounts, the group
    and [is_main], every mount that [validate_additional_mounts] returns is
    read-only.  And the mounts are returned: every requested mount that
    [validate_mount] allows is in the list, with its real path, its
    container path and the read-only flag; this includes every mount for
    which [validate_mount] computed [effective_readonly = False], which is
    what it computes for a read-write request that passes the checks, under
    a root with [allow_read_write], from the main group (or with
    [non_main_read_only] off). *)
Theorem validated_mounts_are_read_only
    (allowlist : option MountAllowlist) (expand_path : string -> string)
    (get_real_path : string -> option string) (path_name : string -> string)
    (is_relative_to : string -> string -> bool)
    (mounts : list AdditionalMount) (group_name : string) (is_main : bool) :
  Forall (fun m => vm_readonly m = true)
    (validate_additional_mounts allowlist expand_path get_real_path path_name
       is_relative_to mounts group_name is_main)
  /\ (forall mount,
        mount ∈ mounts ->
        allowed (validate_mount allowlist expand_path get_real_path path_name
                   is_relative_to mount is_main) = true ->
        exists real_path,
          get_real_path (expand_path (host_path mount)) = Some real_path
          /\ mkValidatedMount real_path
               ("/workspace/extra/" ++ requested_container_path path_name mount)%string true
             ∈ validate_additional_mounts allowlist expand_path get_real_path path_name
                 is_relative_to mounts group_name is_main)
  /\ (forall mount al real_path root,
        mount ∈ mounts ->
        allowlist = Some al ->
        readonly mount = false ->
        is_valid_container_path (requested_container_path path_name mount) = true ->
        get_real_path (expand_path (host_path mount)) = Some real_path ->
        matches_blocked_pattern real_path (blocked_patterns al) = None ->
        find_allowed_root expand_path get_real_path is_relative_to real_path
          (allowed_roots al) = Some root ->
        allow_read_write root = true ->
        is_main = true \/ non_main_read_only al = false ->
        effective_readonly (validate_mount allowlist expand_path get_real_path path_name
                              is_relative_to mount is_main) = Some false
        /\ mkValidatedMount real_path
             ("/workspace/extra/" ++ requested_container_path path_name mount)%string true
           ∈ validate_additional_mounts allowlist expand_path get_real_path path_name
               is_relative_to mounts group_name is_main).
Proof.
  split.
  { induction mounts as [|mount rest IH]; cbn [validate_additional_mounts].
    - constructor.
    - destruct (allowed _); [|exact IH].
      constructor; [|exact IH]. cbn [vm_readonly]. apply or_True_true. }
  assert (Hemit : forall mount,
    mount ∈ mounts ->
    allowed (validate_mount allowlist expand_path get_real_path path_name
               is_relative_to mount is_main) = true ->
    exists real_path,
      get_real_path (expand_path (host_path mount)) = Some real_path
      /\ mkValidatedMount real_path
           ("/workspace/extra/" ++ requested_container_path path_name mount)%string true
         ∈ validate_additional_mounts allowlist expand_path get_real_path path_name
             is_relative_to mounts group_name is_main).
  { intros mount Hin Ha.
    destruct (validate_mount_allowed _ _ _ _ _ _ _ Ha) as (rp & Hrp & Hreal & Hres).
    exists rp. split; [exact Hrp|].
    induction mounts as [|m0 rest IH]; [inversion Hin|].
    cbn [validate_additional_mounts].
    apply elem_of_cons in Hin as [<-|Hin].
    - rewrite Ha, Hreal, Hres, or_string_Some, or_True_true. cbn [format_option default].
      apply list_elem_of_here.
    - destruct (allowed (validate_mount allowlist expand_path get_real_path path_name
                           is_relative_to m0 is_main));
        [apply list_elem_of_further|]; by apply IH. }
  split; [exact Hemit|].
  intros mount al rp root Hin Hal Hro Hv Hrp Hb Hf Hrw Hmain.
  assert (E : effective_readonly (validate_mount allowlist expand_path get_real_path
                path_name is_relative_to mount is_main) = Some false
              /\ allowed (validate_mount allowlist expand_path get_real_path
                path_name is_relative_to mount is_main) = true).
  { unfold validate_mount. unfold requested_container_path in Hv.
    rewrite Hal, Hv. cbn [negb]. rewrite Hrp, Hb, Hf, Hro, Hrw.
    cbn [negb effective_readonly allowed].
    destruct Hmain as [-> | ->]; [|rewrite andb_false_r]; auto. }
  destruct E as [Ee Ea]. split; [exact Ee|].
  destruct (Hemit mount Hin Ea) as (rp' & Hrp' & Hm). congruence.
Qed.

Lemma validated_mounts_are_read_only_witness :
  effective_readonly (sample_validate_mount read_write_request true) = Some false
  /\ mkValidatedMount "/srv/projects/app" "/workspace/extra/app" true
     ∈ sample_validate_additional_mounts [read_write_request] "Main" true.
Proof.
  destruct (validated_mounts_are_read_only (Some sample_allowlist) (fun p => p)
              sample_real_path sample_path_name sample_is_relative_to
              [read_write_request] "Main" true) as (_ & _ & Hrw).
  apply (Hrw read_write_request sample_allowlist "/srv/projects/app"
           (mkAllowedRoot "/srv/projects" true None)).
  - apply list_elem_of_here.
  - reflexivity.
  - reflexivity.
  - vm_compute. reflexivity.
  - vm_compute. reflexivity.
  - vm_compute. reflexivity.
  - vm_compute. reflexivity.
  - reflexivity.
  - left. reflexivity.
Defined.

Section Loaded.
Variable list_of_set : list string -> list string.

#[local] Abbreviation load := (load_mount_allowlist list_of_set).

(** X15: the allowlist is read at most once: after any call of
    [load_mount_allowlist], every later call returns what that call returned
    and leaves the cache as it is, whatever the file holds by then (a file
    created or changed later is not seen until the process restarts). *)
Lemma allowlist_is_loaded_once c file later :
  load_mount_allowlist list_of_set (snd (load_mount_allowlist list_of_set c file)) later
  = load_mount_allowlist list_of_set c file.
Proof.
  rewrite (surjective_pairing (load_mount_allowlist list_of_set c file)) at 2.
  unfold load_mount_allowlist.
  destruct (cached_allowlist c) as [al|] eqn:Ec; cbn [fst snd]; [by rewrite Ec|].
  destruct (allowlist_load_error c) as [e|] eqn:Ee; cbn [fst snd]; [by rewrite Ec, Ee|].
  destruct file; reflexivity.
Qed.

Hypothesis list_of_set_keeps : forall l x, x ∈ l -> x ∈ list_of_set l.

Lemma load_blocks_defaults c file :
  blocks_defaults c ->
  blocks_defaults (snd (load c file))
  /\ forall al, fst (load c file) = Some al ->
       forall p, p ∈ DEFAULT_BLOCKED_PATTERNS -> p ∈ blocked_patterns al.
Proof.
  intros Hc. unfold load_mount_allowlist.
  destruct (cached_allowlist c) as [al|] eqn:Ec; cbn [fst snd].
  { split; [exact Hc|]. intros al' [= <-]. by apply Hc. }
  destruct (allowlist_load_error c) as [e|] eqn:Ee; cbn [fst snd].
  { split; [exact Hc|]. discriminate. }
  destruct file; cbn [fst snd]; try (split; [intros al' H; discriminate H|discriminate]).
  assert (H : forall p, p ∈ DEFAULT_BLOCKED_PATTERNS ->
            p ∈ list_of_set (DEFAULT_BLOCKED_PATTERNS ++ blocked_patterns al)).
  { intros p Hp. apply list_of_set_keeps, elem_of_app. by left. }
  split.
  - intros al' [= <-]. exact H.
  - intros al' [= <-]. exact H.
Qed.

Lemma loads_blocks_defaults files : forall c,
  blocks_defaults c -> blocks_defaults (loads list_of_set c files).
Proof.
  induction files as [|f fs IH]; intros c Hc; cbn [loads]; [exact Hc|].
  apply IH. by apply load_blocks_defaults.
Qed.

(** X16: whatever the allowlist file holds and whenever it is read, no
    emitted mount has a host path in which one of the default blocked
    patterns occurs: the defaults are merged into every loaded allowlist. *)
Lemma default_patterns_always_block
    (expand_path : string -> string) (get_real_path : string -> option string)
    (path_name : string -> string) (is_relative_to : string -> string -> bool)
    (earlier : list allowlist_file) (file : allowlist_file)
    (mounts : list AdditionalMount) (group_name : string) (is_main : bool) m p :
  m ∈ validate_additional_mounts
        (fst (load (loads list_of_set reset_cache earlier) file))
        expand_path get_real_path path_name is_relative_to mounts group_name is_main ->
  p ∈ DEFAULT_BLOCKED_PATTERNS ->
  contains p (vm_host_path m) = false.
Proof.
  intros Hm Hp.
  apply validated_mount_spec in Hm as (al & mount & Hal & _ & _ & Hb & _).
  apply Hb.
  assert (H0 : blocks_defaults reset_cache) by (intros al' H; discriminate H).
  destruct (load_blocks_defaults _ file (loads_blocks_defaults earlier _ H0)) as [_ H].
  by apply (H al).
Qed.

End Loaded.

Lemma emitted_mounts_are_vetted_witness :
  exists al mount,
    Some sample_allowlist = Some al /\ mount ∈ [read_write_request]
    /\ sample_real_path (host_path mount) = Some "/srv/projects/app"
    /\ (forall p, p ∈ blocked_patterns al -> contains p "/srv/projects/app" = false)
    /\ (exists root, root ∈ allowed_roots al
          /\ under_root (fun p => p) sample_real_path sample_is_relative_to
               "/srv/projects/app" root)
    /\ "/workspace/extra/app"
       = ("/workspace/extra/" ++ requested_container_path sample_path_name mount)%string
    /\ contains ".." (requested_container_path sample_path_name mount) = false
    /\ String.prefix "/" (requested_container_path sample_path_name mount) = false
    /\ requested_container_path sample_path_name mount <> EmptyString.
Proof.
  apply (emitted_mounts_are_vetted (Some sample_allowlist) (fun p => p) sample_real_path
           sample_path_name sample_is_relative_to [read_write_request] "Main" true
           (mkValidatedMount "/srv/projects/app" "/workspace/extra/app" true)).
  vm_compute. constructor.
Defined.

Lemma no_allowlist_mounts_nothing_witness :
  validate_additional_mounts None (fun p => p) sample_real_path sample_path_name
    sample_is_relative_to [read_write_request] "Main" true = [].
Proof.
  apply (no_allowlist_mounts_nothing None (fun p => p) sample_real_path sample_path_name
           sample_is_relative_to [read_write_request] "Main" true).
  reflexivity.
Defined.

Lemma read_write_needs_permission_witness :
  readonly read_write_request = false
  /\ exists al root,
       Some sample_allowlist = Some al /\ root ∈ allowed_roots al
       /\ why (sample_validate_mount read_write_request true) = AllowedUnderRoot root
       /\ allow_read_write root = true
       /\ (true = true \/ non_main_read_only al = false).
Proof.
  apply (read_write_needs_permission (Some sample_allowlist) (fun p => p) sample_real_path
           sample_path_name sample_is_relative_to read_write_request true).
  vm_compute. reflexivity.
Defined.

(** The user's file blocks nothing, an allowed root holds a [.ssh]
    directory, and the main group asks for it: nothing is mounted.  The
    project directory is mounted, and holds no default pattern. *)
Lemma default_patterns_always_block_witness :
  validate_additional_mounts
    (fst (load_mount_allowlist remove_dups reset_cache
            (Holds (mkMountAllowlist [mkAllowedRoot "/srv/projects" true None] [] true))))
    (fun p => p) sample_host_ssh sample_path_name sample_is_relative_to
    [mkAdditionalMount "/srv/projects/.ssh" (Some "keys") true] "Main" true = []
  /\ contains ".ssh" "/srv/projects/app" = false.
Proof.
  split; [vm_compute; reflexivity|].
  apply (default_patterns_always_block remove_dups
           ltac:(intros l x; apply elem_of_remove_dups)
           (fun p => p) sample_real_path sample_path_name sample_is_relative_to []
           (Holds (mkMountAllowlist [mkAllowedRoot "/srv/projects" true None] [] true))
           [read_write_request] "Main" true
           (mkValidatedMount "/srv/projects/app" "/workspace/extra/app" true) ".ssh").
  - vm_compute. constructor.
  - vm_compute. constructor.
Defined.

End MountSecurityProps.

(* ===================================================================== *)
(** * Properties of router.py *)
(* ===================================================================== *)

Section RouterProps.
Import Py Router.

Lemma replace_app old new a b :
  replace old new (a ++ b) = (replace old new a ++ replace old new b)%string.
Proof.
  induction a as [|c a IH]; [reflexivity|].
  rewrite append_cons. cbn [replace]. case_bool_decide.
  - by rewrite IH, append_assoc_s.
  - by rewrite append_cons, IH.
Qed.

Lemma escape_xml_app a b : escape_xml (a ++ b) = (escape_xml a ++ escape_xml b)%string.
Proof. unfold escape_xml. by rewrite !replace_app. Qed.

Lemma escape_xml_char c : escape_xml (String c EmptyString) = escape_char c.
Proof.
  unfold escape_xml, escape_char, double_quote. cbn [replace].
  repeat (case_bool_decide; [subst; vm_compute; reflexivity|]).
  cbn [replace]. repeat (rewrite bool_decide_eq_false_2 by assumption; cbn [replace]).
  reflexivity.
Qed.

(** the five replacements in a row do not interfere *)
Lemma escape_xml_each s : escape_xml s = escape_each s.
Proof.
  induction s as [|c s IH]; [reflexivity|].
  change (String c s) with (String c EmptyString ++ s)%string.
  rewrite escape_xml_app, escape_xml_char, IH. reflexivity.
Qed.

Lemma chars_of_app a b : chars_of (a ++ b) = chars_of a ++ chars_of b.
Proof. induction a as [|c a IH]; [reflexivity|]. rewrite append_cons. cbn. by rewrite IH. Qed.

Lemma escape_char_no_markup c : Forall (fun x => x ∉ markup) (chars_of (escape_char c)).
Proof.
  unfold escape_char.
  repeat case_bool_decide; cbn [chars_of]; repeat constructor;
    unfold markup; rewrite !not_elem_of_cons;
    repeat split; try (unfold double_quote; discriminate); try assumption;
    apply not_elem_of_nil.
Qed.

Lemma escape_char_inj c1 c2 r1 r2 :
  (escape_char c1 ++ r1 = escape_char c2 ++ r2)%string -> c1 = c2 /\ r1 = r2.
Proof.
  unfold escape_char, double_quote.
  repeat case_bool_decide; subst; rewrite ?append_cons, ?append_nil_l;
    intros E; try discriminate E; injection E; intros; subst; try congruence; auto.
Qed.

(** X27: the text [escape_xml] returns holds none of the characters [<],
    [>], double quote and apostrophe, and [escape_xml] loses nothing: two
    different texts never escape to the same text (the five replacements in
    a row do not interfere, the ampersand being replaced first). *)
Lemma escaped_text_is_inert s :
  (forall x, x ∈ chars_of (escape_xml s) -> x ∉ markup)
  /\ (forall s', escape_xml s = escape_xml s' -> s = s').
Proof.
  rewrite escape_xml_each. split.
  - induction s as [|c s IH]; cbn [escape_each]; [intros x H; inversion H|].
    intros x. rewrite chars_of_app, elem_of_app. intros [H|H]; [|auto].
    by apply (proj1 (Forall_forall _ _) (escape_char_no_markup c)).
  - induction s as [|c s IH]; intros s'; rewrite escape_xml_each.
    + destruct s' as [|c' s']; [reflexivity|]. cbn [escape_each].
      unfold escape_char. repeat case_bool_decide; discriminate.
    + destruct s' as [|c' s']; cbn [escape_each].
      * unfold escape_char. repeat case_bool_decide; discriminate.
      * intros H. apply escape_char_inj in H as [-> H]. f_equal. apply IH.
        by rewrite escape_xml_each.
Qed.

End RouterProps.

(* ===================================================================== *)
(** * Properties of the message processing of __main__.py *)
(* ===================================================================== *)

Section MainProps.
Import ContainerRunner Main.

Section AnyHost.
Variable ASSISTANT_NAME : string.
Variable telegram : bool.
Variable get_messages_since : string -> string -> list NewMessage.
Variable has_trigger : string -> bool.
Variable strip_internal : string -> string.
Variable others : nat -> state -> state.

#[local] Abbreviation suspend := (suspend others).
#[local] Abbreviation reply := (reply ASSISTANT_NAME telegram strip_internal).
#[local] Abbreviation on_output_begin :=
  (on_output_begin ASSISTANT_NAME telegram strip_internal others).
#[local] Abbreviation on_output_end := (on_output_end ASSISTANT_NAME telegram strip_internal).
#[local] Abbreviation on_output := (on_output ASSISTANT_NAME telegram strip_internal others).
#[local] Abbreviation forward := (forward ASSISTANT_NAME telegram strip_internal others).
#[local] Abbreviation run_agent := (run_agent ASSISTANT_NAME telegram strip_internal others).
#[local] Abbreviation process_group_messages :=
  (process_group_messages ASSISTANT_NAME telegram get_messages_since has_trigger
     strip_internal others).
#[local] Abbreviation to_be_handled := (to_be_handled has_trigger).

(** *** The calls of [send_message] and the flag *)

Lemma note_session_same folder o p :
  p_flags (note_session folder o p) = p_flags p
  /\ p_sent (note_session folder o p) = p_sent p
  /\ p_awaits (note_session folder o p) = p_awaits p
  /\ last_agent_timestamp (p_state (note_session folder o p))
     = last_agent_timestamp (p_state p).
Proof.
  unfold note_session. destruct (new_session_id o) as [sid|]; [|done].
  destruct (truthy (Some sid)); done.
Qed.

Lemma on_output_inv chat folder p o :
  callback_inv p -> callback_inv (on_output chat folder p o).
Proof.
  unfold callback_inv, Main.on_output, Main.on_output_end, Main.on_output_begin.
  intros [Hf Ht].
  destruct (note_session_same folder o p) as (Efl & Esent & _ & _).
  destruct (reply o) as [text|];
    cbn [p_flags p_sent Main.suspend]; rewrite ?Efl, ?Esent.
  - destruct (bool_decide (status o = "error")); cbn [output_sent];
      (split; [discriminate|]); intros _; by destruct (p_sent p).
  - destruct (bool_decide (status o = "error")); cbn [output_sent]; auto.
Qed.

Lemma suspend_inv p : callback_inv p -> callback_inv (suspend p).
Proof. unfold callback_inv, Main.suspend. cbn [p_flags p_sent]. auto. Qed.

Lemma forward_inv chat folder os : forall p,
  callback_inv p -> callback_inv (forward chat folder os p).
Proof.
  unfold Main.forward.
  induction os as [|o os IH]; intros p H; cbn [fold_left]; [exact H|].
  apply IH. apply on_output_inv. by apply suspend_inv.
Qed.

(** What a run has sent when it ends with [output_sent] down: nothing, but
    for the message of a callback that the timeout cut in its
    [send_message]. *)
Lemma run_agent_sent chat folder chats p run status p' :
  callback_inv p ->
  run_agent chat folder chats p run = Some (status, p') ->
  output_sent (p_flags p') = false ->
  p_sent p' = []
  \/ exists forwarded o text,
       run = TimedOut forwarded (Some o) /\ reply o = Some text
       /\ p_sent p' = [(chat, text)].
Proof.
  intros Hp. unfold Main.run_agent.
  destruct (get_available_groups chats); [|discriminate].
  destruct run as [|os cut|[out os|os]].
  - intros [= <- <-] Hs. left. cbn [Main.suspend p_sent]. by apply Hp.
  - pose proof (forward_inv chat folder os p Hp) as H1.
    destruct cut as [o|].
    + destruct (reply o) as [text|] eqn:Er.
      * intros [= <- <-]. unfold Main.on_output_begin. rewrite Er.
        destruct (note_session_same folder o (suspend (forward chat folder os p)))
          as (Efl & Esent & _ & _).
        cbn [Main.suspend p_flags p_sent] in *. rewrite Efl, Esent.
        intros Hs. right. exists os, o, text. split; [reflexivity|]. split; [exact Er|].
        destruct H1 as [H1 _]. by rewrite (H1 Hs).
      * intros [= <- <-] Hs. left.
        pose proof (on_output_inv chat folder _ o (suspend_inv _ H1)) as [H2 _].
        cbn [Main.suspend p_sent p_flags] in *. by apply H2.
    + intros [= <- <-] Hs. left. cbn [Main.suspend p_sent p_flags] in *. by apply H1.
  - intros [= <- <-] Hs. left.
    pose proof (forward_inv chat folder os p Hp) as [H1 _].
    destruct (note_session_same folder out (suspend (forward chat folder os p)))
      as (Efl & Esent & _ & _).
    rewrite Efl in Hs. rewrite Esent. cbn [Main.suspend p_sent p_flags] in *. by apply H1.
  - intros [= <- <-] Hs. left.
    pose proof (forward_inv chat folder os p Hp) as [H1 _].
    cbn [Main.suspend p_sent p_flags] in *. by apply H1.
Qed.

Lemma cursor_set s chat ts c :
  cursor (set_cursor s chat ts) c = if decide (chat = c) then ts else cursor s c.
Proof.
  unfold cursor, set_cursor. cbn [last_agent_timestamp]. rewrite lookup_insert.
  by destruct (decide (chat = c)).
Qed.

Lemma handled_go g missed :
  to_be_handled g missed ->
  negb (bool_decide (folder g = MAIN_GROUP_FOLDER))
  && negb (bool_decide (requires_trigger g = Some false))
  && negb (existsb (fun m => has_trigger (content m)) missed) = false.
Proof.
  intros [H|[H|(m & Hin & Hm)]].
  - by rewrite (bool_decide_eq_true_2 _ H).
  - rewrite (bool_decide_eq_true_2 _ H). cbn [negb]. by rewrite andb_false_r.
  - replace (existsb _ _) with true; [by rewrite !andb_false_r|].
    symmetry. apply existsb_exists. exists m. split; [|exact Hm].
    by apply list_elem_of_In.
Qed.

Lemma start_inv s : callback_inv (mkProgress s (mkFlags false false) [] 0).
Proof. split; [reflexivity|discriminate]. Qed.

(** The rollback: a call that reports failure leaves the cursor of the chat
    as it found it. *)
Lemma failed_run_restores_cursor groups chats s chat run s' sent :
  Main.process_group_messages ASSISTANT_NAME telegram get_messages_since has_trigger
    strip_internal others groups chats s chat run = Finished false s' sent ->
  cursor s' chat = cursor s chat.
Proof.
  unfold Main.process_group_messages.
  destruct (groups !! chat) as [g|]; [|discriminate].
  destruct (get_messages_since chat (cursor s chat)) as [|m ms]; [discriminate|].
  destruct (_ && _); [discriminate|].
  destruct (run_agent chat (folder g) chats _ run) as [[status p]|]; [|discriminate].
  destruct (_ || _); [|discriminate].
  destruct (output_sent (p_flags p)); [discriminate|]. intros [= <- _].
  rewrite cursor_set. by rewrite decide_True.
Qed.

(** X28: when [_process_group_messages] reports failure (so that the queue
    retries), the cursor of the chat reads as it did when the call began,
    whatever the other coroutines wrote in the meantime; and the call
    itself has completed no [_telegram.send_message]: it made none, but for
    the one message in whose sending the timeout may have cut the reader
    (what other coroutines send meanwhile is not its doing). *)
Lemma retry_only_when_nothing_was_sent groups chats s chat run s' sent :
  Main.process_group_messages ASSISTANT_NAME telegram get_messages_since has_trigger
    strip_internal others groups chats s chat run = Finished false s' sent ->
  cursor s' chat = cursor s chat
  /\ (sent = []
      \/ exists forwarded o text,
           run = TimedOut forwarded (Some o) /\ reply o = Some text
           /\ sent = [(chat, text)]).
Proof.
  intros H. split; [exact (failed_run_restores_cursor _ _ _ _ _ _ _ H)|].
  revert H. unfold Main.process_group_messages.
  destruct (groups !! chat) as [g|]; [|discriminate].
  destruct (get_messages_since chat (cursor s chat)) as [|m ms]; [discriminate|].
  destruct (_ && _); [discriminate|].
  set (p0 := if telegram then _ else _).
  assert (Hp0 : callback_inv p0).
  { unfold p0. destruct telegram; [apply suspend_inv|]; apply start_inv. }
  destruct (run_agent chat (folder g) chats p0 run) as [[status p]|] eqn:Er; [|discriminate].
  destruct (_ || _); [|discriminate].
  destruct (output_sent (p_flags p)) eqn:Es; [discriminate|]. intros [= _ <-].
  exact (run_agent_sent _ _ _ _ _ _ _ Hp0 Er Es).
Qed.

(** *** The cursor *)

Section CursorLeftAlone.
Variable chat : string.
Hypothesis Hothers : cursor_left_alone others chat.

Lemma cursor_note_session folder o p :
  cursor (p_state (note_session folder o p)) chat = cursor (p_state p) chat.
Proof.
  unfold cursor. by destruct (note_session_same folder o p) as (_ & _ & _ & ->).
Qed.

Lemma cursor_suspend p : cursor (p_state (suspend p)) chat = cursor (p_state p) chat.
Proof. unfold Main.suspend. cbn [p_state]. apply Hothers. Qed.

Lemma cursor_on_output_begin c folder p o :
  cursor (p_state (on_output_begin c folder p o)) chat = cursor (p_state p) chat.
Proof.
  unfold Main.on_output_begin. destruct (reply o).
  - rewrite cursor_suspend. cbn [p_state]. apply cursor_note_session.
  - apply cursor_note_session.
Qed.

Lemma cursor_on_output c folder p o :
  cursor (p_state (on_output c folder p o)) chat = cursor (p_state p) chat.
Proof.
  unfold Main.on_output, Main.on_output_end. cbn [p_state]. apply cursor_on_output_begin.
Qed.

Lemma cursor_forward c folder os : forall p,
  cursor (p_state (forward c folder os p)) chat = cursor (p_state p) chat.
Proof.
  unfold Main.forward.
  induction os as [|o os IH]; intros p; cbn [fold_left]; [reflexivity|].
  by rewrite IH, cursor_on_output, cursor_suspend.
Qed.

Lemma cursor_run_agent c folder chats p run status p' :
  run_agent c folder chats p run = Some (status, p') ->
  cursor (p_state p') chat = cursor (p_state p) chat.
Proof.
  unfold Main.run_agent.
  destruct (get_available_groups chats); [|discriminate].
  destruct run as [|os cut|[out os|os]]; intros [= <- <-].
  - apply cursor_suspend.
  - rewrite cursor_suspend. destruct cut as [o|]; [|apply cursor_forward].
    destruct (reply o).
    + by rewrite cursor_on_output_begin, cursor_suspend, cursor_forward.
    + by rewrite cursor_on_output, cursor_suspend, cursor_forward.
  - by rewrite cursor_note_session, cursor_suspend, cursor_forward.
  - by rewrite cursor_suspend, cursor_forward.
Qed.

(** The cursor is advanced before the agent is run, and an exception that
    leaves the call skips the rollback. *)
Lemma cursor_when_raised groups chats s run g first later s' :
  groups !! chat = Some g ->
  get_messages_since chat (cursor s chat) = first :: later ->
  to_be_handled g (first :: later) ->
  Main.process_group_messages ASSISTANT_NAME telegram get_messages_since has_trigger
    strip_internal others groups chats s chat run = Raises s' ->
  cursor s' chat = timestamp (List.last later first).
Proof.
  intros Hg Hm Htrig. unfold Main.process_group_messages.
  rewrite Hg, Hm, (handled_go _ _ Htrig).
  destruct (run_agent chat (folder g) chats _ run) as [[status p]|] eqn:Er.
  - destruct (_ || _); [destruct (output_sent (p_flags p))|]; discriminate.
  - intros [= <-]. destruct telegram; [rewrite cursor_suspend|]; cbn [p_state];
      rewrite cursor_set; by rewrite decide_True.
Qed.

(** X29: when the messages of a registered chat are handed to the agent (the
    chat is the main one, needs no trigger, or one of the messages has the
    trigger) and no other coroutine writes the cursor of the chat during
    the call, then unless the call reports failure (when it returns true,
    and also when an exception leaves it) the cursor of the chat stands at
    the timestamp of the last of those messages. *)
Lemma handled_messages_advance_the_cursor groups chats s run g first later :
  groups !! chat = Some g ->
  get_messages_since chat (cursor s chat) = first :: later ->
  to_be_handled g (first :: later) ->
  (forall s' sent,
     Main.process_group_messages ASSISTANT_NAME telegram get_messages_since has_trigger
       strip_internal others groups chats s chat run = Finished true s' sent ->
     cursor s' chat = timestamp (List.last later first))
  /\ (forall s',
        Main.process_group_messages ASSISTANT_NAME telegram get_messages_since has_trigger
          strip_internal others groups chats s chat run = Raises s' ->
        cursor s' chat = timestamp (List.last later first)).
Proof.
  intros Hg Hm Htrig.
  split; [|intros s'; by apply (cursor_when_raised groups chats s run g first later)].
  unfold Main.process_group_messages.
  rewrite Hg, Hm, (handled_go _ _ Htrig).
  set (s1 := set_cursor s chat _).
  set (p0 := if telegram then _ else _).
  assert (Hp0 : cursor (p_state p0) chat = timestamp (List.last later first)).
  { unfold p0. destruct telegram; [rewrite cursor_suspend|]; cbn [p_state];
      unfold s1; rewrite cursor_set; by rewrite decide_True. }
  destruct (run_agent chat (folder g) chats p0 run) as [[status p]|] eqn:Er;
    [|intros s' sent [=]].
  pose proof (cursor_run_agent _ _ _ _ _ _ _ Er) as Hc. rewrite Hp0 in Hc.
  destruct (_ || _); [destruct (output_sent (p_flags p))|];
    intros s' sent [= <- <-]; done.
Qed.

End CursorLeftAlone.

(** X24: [_run_agent] builds the snapshot of the groups before its [try],
    and [_get_available_groups] raises on the first row of the table of
    chats.  So when that table has a row and the messages of a registered
    chat are to be handed to the agent, an exception leaves
    [_process_group_messages] before any container is started (whatever
    the container would have done); the queue takes it for a failed check.
    When nobody else writes the cursor of the chat, it is left at the last
    of the messages; and when no newer message has arrived either, the
    retried check finds nothing to do and reports success, so these
    messages are never handed to the agent. *)
Lemma listed_chat_makes_the_run_raise groups chats s chat run g first later :
  groups !! chat = Some g ->
  get_messages_since chat (cursor s chat) = first :: later ->
  to_be_handled g (first :: later) ->
  chats <> [] ->
  exists s',
    Main.process_group_messages ASSISTANT_NAME telegram get_messages_since has_trigger
      strip_internal others groups chats s chat run = Raises s'
    /\ queue_outcome (Raises s') = GroupQueue.Raised
    /\ (cursor_left_alone others chat ->
        cursor s' chat = timestamp (List.last later first)
        /\ (get_messages_since chat (timestamp (List.last later first)) = [] ->
            forall chats' run',
              Main.process_group_messages ASSISTANT_NAME telegram get_messages_since
                has_trigger strip_internal others groups chats' s' chat run'
              = Finished true s' [])).
Proof.
  intros Hg Hm Htrig Hchats.
  assert (E : exists s', process_group_messages groups chats s chat run = Raises s').
  { unfold Main.process_group_messages, Main.run_agent.
    rewrite Hg, Hm, (handled_go _ _ Htrig).
    destruct chats as [|c cs]; [done|]. cbn [get_available_groups]. eauto. }
  destruct E as [s' E]. exists s'. split; [exact E|]. split; [reflexivity|].
  intros Hothers.
  pose proof (cursor_when_raised chat Hothers groups chats s run g first later s'
                Hg Hm Htrig E) as Hc.
  split; [exact Hc|].
  intros Hnone chats' run'. unfold Main.process_group_messages.
  by rewrite Hg, Hc, Hnone.
Qed.

(** *** A container that prints nothing *)



End AnyHost.

(** The message loop moves the cursor while the run is waiting for a
    container that cannot be started: the failed call puts the cursor back
    where it found it. *)
Lemma retry_only_when_nothing_was_sent_witness :
  exists s',
    process_group_messages "Andy" true sample_messages (fun _ => true) (fun t => t)
      piped_follow_up sample_groups [] fresh "-100main" FailedToStart
    = Finished false s' []
    /\ cursor s' "-100main" = cursor fresh "-100main"
    /\ ([] = ([] : list (string * string))
        \/ exists forwarded o text,
             FailedToStart = TimedOut forwarded (Some o)
             /\ reply "Andy" true (fun t => t) o = Some text
             /\ [] = [("-100main", text)]).
Proof.
  eexists. split; [vm_compute; reflexivity|].
  eapply (retry_only_when_nothing_was_sent "Andy" true sample_messages (fun _ => true)
            (fun t => t) piped_follow_up sample_groups [] fresh "-100main" FailedToStart).
  vm_compute. reflexivity.
Defined.

Lemma handled_messages_advance_the_cursor_witness :
  exists s',
    process_group_messages "Andy" true sample_messages (fun _ => true) (fun t => t)
      nobody_else sample_groups [] fresh "-100main"
      (ReadToEnd (Returned (mkContainerOutput "success" (Some "hi") None None)
                           [mkContainerOutput "success" (Some "hi") None None]))
    = Finished true s' [("-100main", "Andy: hi")]
    /\ cursor s' "-100main" = "2025-06-01T10:00:05".
Proof.
  eexists. split; [vm_compute; reflexivity|].
  refine (proj1 (handled_messages_advance_the_cursor "Andy" true sample_messages
            (fun _ => true) (fun t => t) nobody_else "-100main" (fun _ _ => eq_refl)
            sample_groups [] fresh
            (ReadToEnd (Returned (mkContainerOutput "success" (Some "hi") None None)
                                 [mkContainerOutput "success" (Some "hi") None None]))
            (mkRegisteredGroup "main" None)
            (mkNewMessage "hello" "2025-06-01T10:00:00")
            [mkNewMessage "again" "2025-06-01T10:00:05"] _ _ _) _ _ _).
  - vm_compute. reflexivity.
  - vm_compute. reflexivity.
  - left. reflexivity.
  - vm_compute. reflexivity.
Defined.

Lemma listed_chat_makes_the_run_raise_witness :
  exists s',
    process_group_messages "Andy" true sample_messages (fun _ => true) (fun t => t)
      nobody_else sample_groups one_chat fresh "-100main" FailedToStart = Raises s'
    /\ queue_outcome (Raises s') = GroupQueue.Raised
    /\ cursor s' "-100main" = "2025-06-01T10:00:05"
    /\ forall chats' run',
         process_group_messages "Andy" true sample_messages (fun _ => true)
           (fun t => t) nobody_else sample_groups chats' s' "-100main" run'
         = Finished true s' [].
Proof.
  destruct (listed_chat_makes_the_run_raise "Andy" true sample_messages (fun _ => true)
              (fun t => t) nobody_else sample_groups one_chat fresh "-100main"
              FailedToStart (mkRegisteredGroup "main" None)
              (mkNewMessage "hello" "2025-06-01T10:00:00")
              [mkNewMessage "again" "2025-06-01T10:00:05"])
    as (s' & Hraises & Hqueue & Hcursor).
  - vm_compute. reflexivity.
  - vm_compute. reflexivity.
  - left. reflexivity.
  - discriminate.
  - exists s'. destruct (Hcursor (fun _ _ => eq_refl)) as [Hc Hnext].
    split; [exact Hraises|]. split; [exact Hqueue|]. split; [exact Hc|].
    apply Hnext. vm_compute. reflexivity.
Defined.


End MainProps.
